(** * browser-tools-mcp, chrome-extension/devtools.js

    A shallow embedding of the payload-bounding pipeline, the sensitive-data
    classifier, the WebSocket session layer and the capture relay of
    [devtools.js], with the properties of the specification proved (or
    refuted) on it, and further properties of the code.

    Conventions.
    - A JavaScript string is its sequence of UTF-16 code units; [length] is
      [String.prototype.length].  [for (const ch of str)] and [new Set(str)]
      walk code points, so a surrogate pair is one element there.
    - JSON-like data are trees ([value]); a number is carried by its canonical
      rendering, since the code never computes with the numbers it relays.
    - IEEE-754 doubles are [spec_float] at precision 53, [Math.log2] is a
      parameter of the entropy computation.
    - Effects (timers, sockets, notifications) are recorded in a trace; an
      exception is a [Throw] completion. *)

From Stdlib Require Import List Bool Arith NArith ZArith Lia Ascii String.
From Stdlib Require Import SpecFloat DecimalString.
From Equations Require Import Equations.
Import ListNotations.

Set Implicit Arguments.
Set Warnings "-register-all,-abstract-large-number".

(** [length] is the length of a list throughout. *)
Abbreviation length := Datatypes.length (only parsing).

(* ===================================================================== *)
(** * Part I: definitions *)
(* ===================================================================== *)

(** ** Strings as sequences of UTF-16 code units *)

Definition code_unit := N.
Definition jsstring := list code_unit.

(** An ASCII literal of the source as a JavaScript string. *)
Definition lit (s : string) : jsstring :=
  map N_of_ascii (list_ascii_of_string s).

Definition chr (a : ascii) : code_unit := N_of_ascii a.

Fixpoint jsstring_eqb (s t : jsstring) : bool :=
  match s, t with
  | [], [] => true
  | c :: s', d :: t' => N.eqb c d && jsstring_eqb s' t'
  | _, _ => false
  end.

(** [str.substring(0, n)] for a non-negative integer [n]. *)
Definition substring0 (n : nat) (s : jsstring) : jsstring := firstn n s.

Definition is_high_surrogate (c : code_unit) : bool :=
  (N.leb 0xD800 c && N.leb c 0xDBFF)%N.
Definition is_low_surrogate (c : code_unit) : bool :=
  (N.leb 0xDC00 c && N.leb c 0xDFFF)%N.

(** The string iterator: one element per code point, a high surrogate
    followed by a low one being a single element. *)
Fixpoint code_points (s : jsstring) : list N :=
  match s with
  | [] => []
  | c :: rest =>
      match rest with
      | d :: rest' =>
          if is_high_surrogate c && is_low_surrogate d
          then (0x10000 + (c - 0xD800) * 0x400 + (d - 0xDC00))%N :: code_points rest'
          else c :: code_points rest
      | [] => [c]
      end
  end.

(** ** Exceptions *)

Inductive exn : Type :=
| SyntaxError (message : jsstring)
| TypeError (message : jsstring)
| RangeError (message : jsstring)
| InvalidStateError (message : jsstring)
| NetworkError (message : jsstring).

(** [error.message] *)
Definition message_of (e : exn) : jsstring :=
  match e with
  | SyntaxError m | TypeError m | RangeError m | InvalidStateError m | NetworkError m => m
  end.

(** The outcome of evaluating a statement list: a value, or a thrown exception. *)
Inductive completion (A : Type) : Type :=
| Normal (a : A)
| Throw (e : exn).
Arguments Normal {A} a.
Arguments Throw {A} e.

Definition bind {A B : Type} (c : completion A) (k : A -> completion B) : completion B :=
  match c with
  | Normal a => k a
  | Throw e => Throw e
  end.

Notation "x <- c ;; k" := (bind c (fun x => k))
  (at level 61, c at next level, right associativity).

(** [Array.prototype.map] with a callback that may throw: the first
    exception ends the iteration. *)
Section MapCompletion.

Context {A B : Type} (f : A -> completion B).

Fixpoint map_completion (l : list A) : completion (list B) :=
  match l with
  | [] => Normal []
  | a :: rest =>
      b <- f a ;;
      bs <- map_completion rest ;;
      Normal (b :: bs)
  end.

End MapCompletion.

(** ** Regular expressions

    The patterns of the source are ASCII patterns without back-references or
    look-around, so [RegExp.prototype.test] is language membership; it is
    computed here with derivatives.  [Never] only arises as a derivative. *)

Inductive regex : Type :=
| Never
| Eps
| Chr (c : code_unit)
| Cls (ranges : list (code_unit * code_unit))
| Seq (r1 r2 : regex)
| Alt (r1 r2 : regex)
| Rep (lo : nat) (hi : option nat) (r : regex).

(** [Canonicalize] of a non-unicode, ignore-case pattern, on the ASCII range:
    a code unit above 127 never canonicalizes to an ASCII one. *)
Definition to_upper (c : code_unit) : code_unit :=
  if (N.leb 97 c && N.leb c 122)%N then (c - 32)%N else c.
Definition to_lower (c : code_unit) : code_unit :=
  if (N.leb 65 c && N.leb c 90)%N then (c + 32)%N else c.

Definition unit_matches (icase : bool) (x c : code_unit) : bool :=
  if icase then N.eqb (to_upper x) (to_upper c) else N.eqb x c.

Definition between (x : code_unit) (r : code_unit * code_unit) : bool :=
  (N.leb (fst r) x && N.leb x (snd r))%N.

Definition in_class (icase : bool) (x : code_unit)
  (ranges : list (code_unit * code_unit)) : bool :=
  existsb (fun r => between x r
                    || (icase && (between (to_upper x) r || between (to_lower x) r)))
          ranges.

Definition pred_bound (hi : option nat) : option nat :=
  match hi with Some h => Some (pred h) | None => None end.

Definition within (lo : nat) (hi : option nat) : bool :=
  match hi with Some h => lo <=? h | None => true end.

Fixpoint nullable (r : regex) : bool :=
  match r with
  | Never => false
  | Eps => true
  | Chr _ => false
  | Cls _ => false
  | Seq r1 r2 => nullable r1 && nullable r2
  | Alt r1 r2 => nullable r1 || nullable r2
  | Rep lo hi r => within lo hi && ((lo =? 0) || nullable r)
  end.

Definition cat (r1 r2 : regex) : regex :=
  match r1 with
  | Never => Never
  | Eps => r2
  | _ => Seq r1 r2
  end.

Definition alt (r1 r2 : regex) : regex :=
  match r1, r2 with
  | Never, _ => r2
  | _, Never => r1
  | _, _ => Alt r1 r2
  end.

Fixpoint deriv (icase : bool) (x : code_unit) (r : regex) : regex :=
  match r with
  | Never => Never
  | Eps => Never
  | Chr c => if unit_matches icase x c then Eps else Never
  | Cls ranges => if in_class icase x ranges then Eps else Never
  | Seq r1 r2 =>
      alt (cat (deriv icase x r1) r2)
          (if nullable r1 then deriv icase x r2 else Never)
  | Alt r1 r2 => alt (deriv icase x r1) (deriv icase x r2)
  | Rep lo hi r1 =>
      match hi with
      | Some 0 => Never
      | _ => cat (deriv icase x r1) (Rep (pred lo) (pred_bound hi) r1)
      end
  end.

(** The whole of [s] is in the language of [r]: a pattern written [^r$]. *)
Fixpoint matches (icase : bool) (r : regex) (s : jsstring) : bool :=
  match s with
  | [] => nullable r
  | x :: s' => matches icase (deriv icase x r) s'
  end.

(** Some prefix of [s] is in the language of [r]. *)
Fixpoint matches_prefix (icase : bool) (r : regex) (s : jsstring) : bool :=
  nullable r ||
  match s with
  | [] => false
  | x :: s' => matches_prefix icase (deriv icase x r) s'
  end.

(** Some substring of [s] is in the language of [r]: an unanchored pattern. *)
Fixpoint matches_somewhere (icase : bool) (r : regex) (s : jsstring) : bool :=
  matches_prefix icase r s ||
  match s with
  | [] => false
  | _ :: s' => matches_somewhere icase r s'
  end.

(** The language of a pattern, as the ECMAScript pattern semantics defines
    it for these constructs: [Rep lo hi r] is [r] repeated at least [lo] and
    at most [hi] times. *)
Inductive in_language (icase : bool) : regex -> jsstring -> Prop :=
| lang_eps : in_language icase Eps []
| lang_chr (c x : code_unit) :
    unit_matches icase x c = true -> in_language icase (Chr c) [x]
| lang_cls (ranges : list (code_unit * code_unit)) (x : code_unit) :
    in_class icase x ranges = true -> in_language icase (Cls ranges) [x]
| lang_seq (r1 r2 : regex) (s1 s2 : jsstring) :
    in_language icase r1 s1 -> in_language icase r2 s2 ->
    in_language icase (Seq r1 r2) (s1 ++ s2)
| lang_alt_l (r1 r2 : regex) (s : jsstring) :
    in_language icase r1 s -> in_language icase (Alt r1 r2) s
| lang_alt_r (r1 r2 : regex) (s : jsstring) :
    in_language icase r2 s -> in_language icase (Alt r1 r2) s
| lang_rep_done (hi : option nat) (r : regex) :
    in_language icase (Rep 0 hi r) []
| lang_rep_more (lo : nat) (hi : option nat) (r : regex) (s1 s2 : jsstring) :
    hi <> Some 0 ->
    in_language icase r s1 ->
    in_language icase (Rep (pred lo) (pred_bound hi) r) s2 ->
    in_language icase (Rep lo hi r) (s1 ++ s2).

(** A regular expression literal: its body, the [i] flag, and whether it is
    written between [^] and [$]. *)
Record pattern := Pattern {
  body : regex;
  ignoreCase : bool;
  anchored : bool
}.

(** [pattern.test(s)] *)
Definition test (p : pattern) (s : jsstring) : bool :=
  if anchored p then matches (ignoreCase p) (body p) s
  else matches_somewhere (ignoreCase p) (body p) s.

(** Pattern syntax. *)
Definition txt (s : string) : regex :=
  fold_right (fun c r => Seq (Chr c) r) Eps (lit s).
Definition rng (a b : ascii) : code_unit * code_unit := (chr a, chr b).
Definition one (a : ascii) : code_unit * code_unit := (chr a, chr a).
Definition plus (r : regex) : regex := Rep 1 None r.
Definition opt (r : regex) : regex := Rep 0 (Some 1) r.
Definition exactly (n : nat) (r : regex) : regex := Rep n (Some n) r.
Definition at_least (n : nat) (r : regex) : regex := Rep n None r.
Definition from_to (n m : nat) (r : regex) : regex := Rep n (Some m) r.
Fixpoint seqs (rs : list regex) : regex :=
  match rs with
  | [] => Eps
  | [r] => r
  | r :: rs' => Seq r (seqs rs')
  end.
Fixpoint alts (rs : list regex) : regex :=
  match rs with
  | [] => Never
  | [r] => r
  | r :: rs' => Alt r (alts rs')
  end.

(** [/.../i], unanchored *)
Definition key_pattern (r : regex) : pattern := Pattern r true false.
(** [/^...$/] and [/^...$/i] *)
Definition value_pattern (r : regex) : pattern := Pattern r false true.
Definition value_pattern_i (r : regex) : pattern := Pattern r true true.

Definition dash_or_underscore : regex := Cls [one "-"; one "_"].

(** ** SENSITIVE_KEY_PATTERNS (devtools.js, lines 25-75) *)

Definition word_sep_word (a b : string) : regex :=
  seqs [txt a; opt dash_or_underscore; txt b].

Definition SENSITIVE_KEY_PATTERNS : list pattern :=
  map key_pattern
    [ (* Authentication related *)
      txt "auth";
      txt "token";
      txt "jwt";
      txt "session";
      word_sep_word "api" "key";
      txt "secret";
      txt "password";
      txt "pwd";
      txt "pass";
      txt "credential";
      txt "oauth";
      word_sep_word "refresh" "token";
      word_sep_word "access" "token";
      word_sep_word "private" "key";
      (* Personal information *)
      txt "ssn";
      word_sep_word "social" "security";
      txt "dob";
      txt "birth";
      txt "phone";
      txt "address";
      txt "zip";
      txt "postal";
      txt "license";
      word_sep_word "credit" "card";
      word_sep_word "card" "number";
      txt "cvv";
      txt "ccv";
      (* Financial *)
      txt "bank";
      txt "account";
      txt "payment";
      txt "tax";
      txt "salary";
      txt "income";
      (* Health related *)
      txt "medical";
      txt "insurance";
      txt "diagnos";
      (* Other common sensitive data keys *)
      txt "private";
      txt "confidential";
      txt "secure";
      txt "key" ].

(** ** SENSITIVE_VALUE_PATTERNS (devtools.js, lines 78-107) *)

Definition upper_ : code_unit * code_unit := rng "A" "Z".
Definition lower_ : code_unit * code_unit := rng "a" "z".
Definition digit_ : code_unit * code_unit := rng "0" "9".

(** [[A-Za-z0-9_-]] *)
Definition base64url : regex := Cls [upper_; lower_; digit_; one "_"; one "-"].
(** [[A-Za-z0-9]] *)
Definition alnum : regex := Cls [upper_; lower_; digit_].
(** [[0-9]] and [\d] *)
Definition digit : regex := Cls [digit_].
(** [[0-9a-f]] *)
Definition hex : regex := Cls [digit_; rng "a" "f"].
(** [[A-Za-z0-9._-]] *)
Definition token_char : regex := Cls [upper_; lower_; digit_; one "."; one "_"; one "-"].

(** [/^ey[A-Za-z0-9_-]+\.[A-Za-z0-9_-]+\.[A-Za-z0-9_-]+$/] *)
Definition JWT_PATTERN : pattern :=
  value_pattern
    (seqs [txt "ey"; plus base64url; txt "."; plus base64url; txt "."; plus base64url]).

(** [/^[A-Za-z0-9_-]{16,128}$/], generic api key *)
Definition GENERIC_API_KEY_PATTERN : pattern :=
  value_pattern (from_to 16 128 base64url).

(** [/^AKIA[0-9A-Z]{16}$/], aws access key *)
Definition AWS_ACCESS_KEY_PATTERN : pattern :=
  value_pattern (seqs [txt "AKIA"; exactly 16 (Cls [digit_; upper_])]).

(** [/^[A-Za-z0-9/+=]{40}$/], aws secret key *)
Definition AWS_SECRET_KEY_PATTERN : pattern :=
  value_pattern (exactly 40 (Cls [upper_; lower_; digit_; one "/"; one "+"; one "="])).

(** [/^sk-[A-Za-z0-9]{32,}$/], popular api keys *)
Definition SK_PATTERN : pattern :=
  value_pattern (seqs [txt "sk-"; at_least 32 alnum]).

(** [/^(sk|pk)_(test|live)_[A-Za-z0-9]{24,}$/], stripe api key *)
Definition STRIPE_PATTERN : pattern :=
  value_pattern
    (seqs [alts [txt "sk"; txt "pk"]; txt "_"; alts [txt "test"; txt "live"]; txt "_";
           at_least 24 alnum]).

(** [/^AIza[0-9A-Za-z-_]{35}$/], google api key *)
Definition GOOGLE_PATTERN : pattern :=
  value_pattern
    (seqs [txt "AIza"; exactly 35 (Cls [digit_; upper_; lower_; one "-"; one "_"])]).

(** [/^gh[pousr]_[A-Za-z0-9_]{36,255}$/], github token *)
Definition GITHUB_PATTERN : pattern :=
  value_pattern
    (seqs [txt "gh"; Cls [one "p"; one "o"; one "u"; one "s"; one "r"]; txt "_";
           from_to 36 255 (Cls [upper_; lower_; digit_; one "_"])]).

(** [/^[A-Za-z0-9._-]{32,}$/] *)
Definition LONG_TOKEN_PATTERN : pattern :=
  value_pattern (at_least 32 token_char).

(** [/^[A-Za-z0-9]{8,}[-_][A-Za-z0-9]{4,}[-_][A-Za-z0-9]{4,}[-_][A-Za-z0-9]{4,}[-_][A-Za-z0-9]{12,}$/] *)
Definition GROUPED_KEY_PATTERN : pattern :=
  value_pattern
    (seqs [at_least 8 alnum; dash_or_underscore; at_least 4 alnum; dash_or_underscore;
           at_least 4 alnum; dash_or_underscore; at_least 4 alnum; dash_or_underscore;
           at_least 12 alnum]).

(** [/^[0-9a-f]{8}-[0-9a-f]{4}-[0-9a-f]{4}-[0-9a-f]{4}-[0-9a-f]{12}$/i] *)
Definition UUID_PATTERN : pattern :=
  value_pattern_i
    (seqs [exactly 8 hex; txt "-"; exactly 4 hex; txt "-"; exactly 4 hex; txt "-";
           exactly 4 hex; txt "-"; exactly 12 hex]).

(** [/^bearer [A-Za-z0-9._-]+$/i], oauth bearer token *)
Definition BEARER_PATTERN : pattern :=
  value_pattern_i (seqs [txt "bearer "; plus token_char]).

(** [/^(?:4[0-9]{12}(?:[0-9]{3})?|5[1-5][0-9]{14}|3[47][0-9]{13}|6(?:011|5[0-9]{2})[0-9]{12})$/] *)
Definition CREDIT_CARD_PATTERN : pattern :=
  value_pattern
    (alts [ seqs [txt "4"; exactly 12 digit; opt (exactly 3 digit)];
            seqs [txt "5"; Cls [rng "1" "5"]; exactly 14 digit];
            seqs [txt "3"; Cls [one "4"; one "7"]; exactly 13 digit];
            seqs [txt "6"; alts [txt "011"; seqs [txt "5"; exactly 2 digit]];
                  exactly 12 digit] ]).

(** [/^\d{3}-\d{2}-\d{4}$/] *)
Definition SSN_PATTERN : pattern :=
  value_pattern (seqs [exactly 3 digit; txt "-"; exactly 2 digit; txt "-"; exactly 4 digit]).

(** [/^[a-zA-Z0-9._%+-]+@[a-zA-Z0-9.-]+\.[a-zA-Z]{2,}$/] *)
Definition EMAIL_PATTERN : pattern :=
  value_pattern
    (seqs [plus (Cls [lower_; upper_; digit_; one "."; one "_"; one "%"; one "+"; one "-"]);
           txt "@";
           plus (Cls [lower_; upper_; digit_; one "."; one "-"]);
           txt ".";
           at_least 2 (Cls [lower_; upper_])]).

Definition SENSITIVE_VALUE_PATTERNS : list pattern :=
  [ JWT_PATTERN;
    GENERIC_API_KEY_PATTERN; AWS_ACCESS_KEY_PATTERN; AWS_SECRET_KEY_PATTERN;
    SK_PATTERN; STRIPE_PATTERN; GOOGLE_PATTERN; GITHUB_PATTERN;
    LONG_TOKEN_PATTERN; GROUPED_KEY_PATTERN;
    UUID_PATTERN; BEARER_PATTERN;
    CREDIT_CARD_PATTERN;
    SSN_PATTERN;
    EMAIL_PATTERN ].

(** ** JSON-like values *)

(** The data the extension relays: what [JSON.parse] and the DevTools
    protocol hand over.  [Number] holds the number's rendering by
    [Number.prototype.toString]; an object holds its own enumerable
    properties in property order. *)
Inductive value : Type :=
| Null
| Boolean (b : bool)
| Number (repr : jsstring)
| Str (s : jsstring)
| Arr (items : list value)
| Obj (entries : list (jsstring * value)).

(** Decimal rendering of an array index. *)
Definition index_key (i : nat) : jsstring :=
  lit (DecimalString.NilEmpty.string_of_uint (Nat.to_uint i)).

Fixpoint indexed_from (i : nat) (items : list value) : list (jsstring * value) :=
  match items with
  | [] => []
  | v :: rest => (index_key i, v) :: indexed_from (S i) rest
  end.

(** [Object.entries(v)] for a [v] that is an object or an array. *)
Definition Object_entries (v : value) : list (jsstring * value) :=
  match v with
  | Obj entries => entries
  | Arr items => indexed_from 0 items
  | _ => []
  end.

Fixpoint lookup (key : jsstring) (entries : list (jsstring * value)) : option value :=
  match entries with
  | [] => None
  | (k, v) :: rest => if jsstring_eqb k key then Some v else lookup key rest
  end.

(** [obj[key]] read on a non-null value, for the keys the code reads by
    name: [name], [value], [type], [requestId], [signature], [version],
    [message], [preview], [description].  None of them is a built-in
    property of an array, of a string or of [Object.prototype], so the read
    finds an own property of the data or nothing; [None] is [undefined].  It
    is not the read of an arbitrary key ([length] of an array is not
    listed). *)
Definition get_property (v : value) (key : jsstring) : option value :=
  lookup key (Object_entries v).

(** [CreateDataProperty]: an existing key keeps its place, a new one goes
    last.  This is what an object literal and object spread do. *)
Fixpoint define_property (entries : list (jsstring * value)) (key : jsstring) (v : value)
  : list (jsstring * value) :=
  match entries with
  | [] => [(key, v)]
  | (k, w) :: rest =>
      if jsstring_eqb k key then (k, v) :: rest
      else (k, w) :: define_property rest key v
  end.

(** [result[key] = v] on an object created by [{}].  The key [__proto__]
    goes to the accessor inherited from [Object.prototype], which replaces
    the prototype (or does nothing) and creates no own property. *)
Definition assign (result : list (jsstring * value)) (key : jsstring) (v : value)
  : list (jsstring * value) :=
  if jsstring_eqb key (lit "__proto__") then result
  else define_property result key v.

(** [typeof v === "object" && v !== null], which holds of arrays too. *)
Definition is_object (v : value) : bool :=
  match v with
  | Arr _ | Obj _ => true
  | _ => false
  end.

(** [ToBoolean] *)
Definition truthy (v : value) : bool :=
  match v with
  | Null => false
  | Boolean b => b
  | Number repr => negb (jsstring_eqb repr (lit "0") || jsstring_eqb repr (lit "NaN"))
  | Str s => negb (jsstring_eqb s [])
  | Arr _ | Obj _ => true
  end.

Fixpoint join (sep : jsstring) (parts : list jsstring) : jsstring :=
  match parts with
  | [] => []
  | [p] => p
  | p :: rest => p ++ sep ++ join sep rest
  end.

(** [ToString], as [RegExp.prototype.test], [JSON.parse], [Array.prototype.join]
    and a template literal apply it to a datum.  An ordinary object is
    rendered by [Object.prototype.toString]; but an object with an own
    property [toString] cannot be converted: its value is data, not a
    function, so [OrdinaryToPrimitive] finds [toString] not callable, gets
    the object itself back from [valueOf] (or finds an own [valueOf] not
    callable either), and throws a [TypeError].  An array is rendered by
    [join], which converts each item other than [null]. *)
Fixpoint ToString (v : value) : completion jsstring :=
  match v with
  | Null => Normal (lit "null")
  | Boolean true => Normal (lit "true")
  | Boolean false => Normal (lit "false")
  | Number repr => Normal repr
  | Str s => Normal s
  | Arr items =>
      parts <- map_completion
                 (fun item => match item with Null => Normal [] | _ => ToString item end)
                 items ;;
      Normal (join (lit ",") parts)
  | Obj entries =>
      match lookup (lit "toString") entries with
      | Some _ => Throw (TypeError (lit "Cannot convert object to primitive value"))
      | None => Normal (lit "[object Object]")
      end
  end.

(** [ToString] of what a property read gave; [None] is [undefined]. *)
Definition ToString_opt (v : option value) : completion jsstring :=
  match v with
  | Some w => ToString w
  | None => Normal (lit "undefined")
  end.

(** ** Settings (devtools.js, lines 4-15) *)

Record Settings := {
  logLimit : nat;
  queryLimit : nat;
  stringSizeLimit : nat;
  maxLogSize : nat;
  showRequestHeaders : bool;
  showResponseHeaders : bool;
  sensitiveDataMode : jsstring;
  screenshotPath : jsstring;
  serverHost : jsstring;
  serverPort : nat
}.

Definition default_settings : Settings := {|
  logLimit := 50;
  queryLimit := 30000;
  stringSizeLimit := 500;
  maxLogSize := 20000;
  showRequestHeaders := false;
  showResponseHeaders := false;
  sensitiveDataMode := lit "hide-all";
  screenshotPath := [];
  serverHost := lit "localhost";
  serverPort := 3025
|}.

Definition with_mode (mode : string) (s : Settings) : Settings := {|
  logLimit := logLimit s;
  queryLimit := queryLimit s;
  stringSizeLimit := stringSizeLimit s;
  maxLogSize := maxLogSize s;
  showRequestHeaders := showRequestHeaders s;
  showResponseHeaders := showResponseHeaders s;
  sensitiveDataMode := lit mode;
  screenshotPath := screenshotPath s;
  serverHost := serverHost s;
  serverPort := serverPort s
|}.

(** ** IEEE-754 doubles *)

Definition float64 := spec_float.
Definition f_sub : float64 -> float64 -> float64 := SFsub 53 1024.
Definition f_mul : float64 -> float64 -> float64 := SFmul 53 1024.
Definition f_div : float64 -> float64 -> float64 := SFdiv 53 1024.
(** [a > b] *)
Definition f_gt (a b : float64) : bool := SFltb b a.
(** The double of a non-negative integer (a count or a length). *)
Definition float_of_nat (n : nat) : float64 :=
  binary_normalize 53 1024 (Z.of_nat n) 0 false.
Definition f_zero : float64 := S754_zero false.
Definition f_one : float64 := S754_finite false 4503599627370496 (-52).
(** The double nearest to 0.65, 5854679515581645 * 2^-53. *)
Definition f_0_65 : float64 := S754_finite false 5854679515581645 (-53).

(** ** SensitiveValueClassifier (devtools.js, lines 110-203) *)

(** [freq.set(char, (freq.get(char) || 0) + 1)] on a [Map] kept in insertion
    order. *)
Fixpoint freq_incr (char : N) (freq : list (N * nat)) : list (N * nat) :=
  match freq with
  | [] => [(char, 1)]
  | (k, count) :: rest =>
      if N.eqb k char then (k, S count) :: rest
      else (k, count) :: freq_incr char rest
  end.

(** [new Set(str)]: the distinct code points, in order of first occurrence. *)
Definition Set_of (chars : list N) : list N :=
  fold_left (fun seen c => if existsb (N.eqb c) seen then seen else seen ++ [c]) chars [].

Section Classifier.

(** [Math.log2], which the language leaves implementation-approximated. *)
Variable Math_log2 : float64 -> float64.

Definition calculateNormalizedEntropy (str : jsstring) : float64 :=
  (* Create frequency map *)
  let freq := fold_left (fun freq char => freq_incr char freq) (code_points str) [] in
  (* Calculate entropy using Shannon's formula *)
  let len := float_of_nat (length str) in
  let entropy :=
    fold_left (fun entropy kc =>
                 let p := f_div (float_of_nat (snd kc)) len in
                 f_sub entropy (f_mul p (Math_log2 p)))
              freq f_zero in
  (* Calculate normalized entropy *)
  let uniqueChars := length (Set_of (code_points str)) in
  if uniqueChars =? 0 then f_zero
  else
    let maxEntropy := Math_log2 (float_of_nat uniqueChars) in
    f_div entropy maxEntropy.

Definition isSensitiveValue (v : value) : bool :=
  match v with
  | Str s =>
      (* Skip very short values *)
      if length s <? 8 then false
      (* Check against regex patterns first *)
      else if existsb (fun pattern => test pattern s) SENSITIVE_VALUE_PATTERNS then true
      (* Entropy-based checks *)
      else if 16 <? length s
           then f_gt (calculateNormalizedEntropy s) f_0_65
           else false
  | _ => false (* Only check strings *)
  end.

Definition isSensitiveKey (key : jsstring) : bool :=
  existsb (fun pattern => test pattern key) SENSITIVE_KEY_PATTERNS.

Definition REDACTED : jsstring := lit "[SENSITIVE DATA REDACTED]".

(** The test of the filters, on a key that is a string:
    [settings.sensitiveDataMode === "hide-all" ||
    (settings.sensitiveDataMode === "hide-sensitive" && (isSensitiveKey(key) ||
    isSensitiveValue(value)))]. *)
Definition must_redact (settings : Settings) (key : jsstring) (v : option value) : bool :=
  jsstring_eqb (sensitiveDataMode settings) (lit "hide-all")
  || (jsstring_eqb (sensitiveDataMode settings) (lit "hide-sensitive")
      && (isSensitiveKey key
          || match v with Some w => isSensitiveValue w | None => false end)).

(** [isSensitiveKey(name)] for the [name] of a cookie, which need not be a
    string: [pattern.test] converts its argument, and throws when it cannot. *)
Definition isSensitiveKey_of (name : option value) : completion bool :=
  key <- ToString_opt name ;;
  Normal (isSensitiveKey key).

(** The test of [filterSensitiveCookies], with the evaluation order of [||]
    and [&&]: the name is converted only in the mode [hide-sensitive]. *)
Definition must_redact_cookie (settings : Settings) (name v : option value)
  : completion bool :=
  if jsstring_eqb (sensitiveDataMode settings) (lit "hide-all") then Normal true
  else if jsstring_eqb (sensitiveDataMode settings) (lit "hide-sensitive") then
    sensitive <- isSensitiveKey_of name ;;
    Normal (sensitive || match v with Some w => isSensitiveValue w | None => false end)
  else Normal false.

(** The callback of [cookies.map]. *)
Definition filter_cookie (settings : Settings) (cookie : value) : completion value :=
  if negb (truthy cookie) || negb (is_object cookie) then Normal cookie
  else
    let name := get_property cookie (lit "name") in
    let v := get_property cookie (lit "value") in
    redact <- must_redact_cookie settings name v ;;
    if redact
    then Normal (Obj (define_property (Object_entries cookie) (lit "value") (Str REDACTED)))
    else Normal cookie.

Definition filterSensitiveCookies (settings : Settings) (cookies : value)
  : completion (list value) :=
  match cookies with
  | Arr items => map_completion (filter_cookie settings) items
  | _ => Normal []
  end.

Definition filterSensitiveStorage (settings : Settings) (storage : value) : value :=
  if negb (truthy storage) || negb (is_object storage) then Obj []
  else
    Obj (fold_left
           (fun result kv =>
              if must_redact settings (fst kv) (Some (snd kv))
              then assign result (fst kv) (Str REDACTED)
              else assign result (fst kv) (snd kv))
           (Object_entries storage) []).

End Classifier.

(** ** JSON.stringify on values *)

Definition hex_digit (n : N) : code_unit :=
  if (n <? 10)%N then (48 + n)%N else (87 + n)%N.

(** [UnicodeEscape]: a backslash, [u], and four lower-case hexadecimal digits. *)
Definition UnicodeEscape (c : code_unit) : jsstring :=
  lit "\u" ++ [hex_digit (c / 4096 mod 16); hex_digit (c / 256 mod 16);
               hex_digit (c / 16 mod 16); hex_digit (c mod 16)]%N.

Definition quote_unit (c : code_unit) : jsstring :=
  if      (c =? 8)%N  then lit "\b"
  else if (c =? 9)%N  then lit "\t"
  else if (c =? 10)%N then lit "\n"
  else if (c =? 12)%N then lit "\f"
  else if (c =? 13)%N then lit "\r"
  else if (c =? 34)%N then [92; 34]%N
  else if (c =? 92)%N then [92; 92]%N
  else if (c <? 32)%N || is_high_surrogate c || is_low_surrogate c then UnicodeEscape c
  else [c].

Fixpoint quote_units (s : jsstring) : jsstring :=
  match s with
  | [] => []
  | c :: rest =>
      match rest with
      | d :: rest' =>
          if is_high_surrogate c && is_low_surrogate d
          then c :: d :: quote_units rest'
          else quote_unit c ++ quote_units rest
      | [] => quote_unit c
      end
  end.

Definition QuoteJSONString (s : jsstring) : jsstring :=
  [34%N] ++ quote_units s ++ [34%N].

(** [JSON.stringify(v)] without replacer or indentation. *)
Fixpoint SerializeJSON (v : value) : jsstring :=
  match v with
  | Null => lit "null"
  | Boolean true => lit "true"
  | Boolean false => lit "false"
  | Number repr => repr
  | Str s => QuoteJSONString s
  | Arr items => lit "[" ++ join (lit ",") (map SerializeJSON items) ++ lit "]"
  | Obj entries =>
      lit "{"
      ++ join (lit ",")
           (map (fun kv => QuoteJSONString (fst kv) ++ lit ":" ++ SerializeJSON (snd kv))
                entries)
      ++ lit "}"
  end.

(** ** PayloadBounder: truncateStringsInData (devtools.js, lines 295-344) *)

(** The primitives other than strings that the data hold. *)
Inductive primitive : Type :=
| PNull
| PBoolean (b : bool)
| PNumber (repr : jsstring).

Definition of_primitive (p : primitive) : value :=
  match p with
  | PNull => Null
  | PBoolean b => Boolean b
  | PNumber repr => Number repr
  end.

(** What [typeof], [Array.isArray] and [Object.entries] show of a datum whose
    components have type [V].  A cyclic structure is a [V] whose components
    lead back to it. *)
Inductive shape (V : Type) : Type :=
| IsString (s : jsstring)
| IsArray (items : list V)
| IsObject (entries : list (jsstring * V))
| IsOther (p : primitive).
Arguments IsString {V} s.
Arguments IsArray {V} items.
Arguments IsObject {V} entries.
Arguments IsOther {V} p.

(** The shape of a tree. *)
Definition shape_of (v : value) : shape value :=
  match v with
  | Null => IsOther PNull
  | Boolean b => IsOther (PBoolean b)
  | Number repr => IsOther (PNumber repr)
  | Str s => IsString s
  | Arr items => IsArray items
  | Obj entries => IsObject entries
  end.

Definition MAX_DEPTH_EXCEEDED : jsstring := lit "[MAX_DEPTH_EXCEEDED]".
Definition TRUNCATED : jsstring := lit "... (truncated)".

(** How many more levels the depth guard lets the recursion descend. *)
Definition levels_left (depth : nat) : nat := 101 - depth.
Arguments levels_left : simpl never.

Section Truncate.

Context {V : Type} (inspect_data : V -> shape V).

(** The [path] argument of the source only feeds [console.log] and is left
    out.  The [try]/[catch] around the recursive call on an object's value
    cannot fire: the function returns on every datum. *)
Equations? truncateStringsInData (data : V) (maxLength depth : nat) : value
  by wf (levels_left depth) lt :=
truncateStringsInData data maxLength depth with le_lt_dec depth 100 := {
  | right _ := Str MAX_DEPTH_EXCEEDED;
  | left Hdepth with inspect_data data := {
    | IsString s :=
        if maxLength <? length s
        then Str (substring0 maxLength s ++ TRUNCATED)
        else Str s;
    | IsArray items :=
        Arr (map (fun item => truncateStringsInData item maxLength (depth + 1)) items);
    | IsObject entries :=
        Obj (fold_left
               (fun result kv =>
                  assign result (fst kv)
                         (truncateStringsInData (snd kv) maxLength (depth + 1)))
               entries []);
    | IsOther p := of_primitive p } }.
Proof. all: unfold levels_left; lia. Qed.

End Truncate.

(** ** Object.keys *)

(** [Object.keys(v)]: a [TypeError] on [null], the own enumerable keys
    otherwise (the indices of an array or of a string, none for the other
    primitives). *)
Definition Object_keys (v : value) : completion (list jsstring) :=
  match v with
  | Null => Throw (TypeError (lit "Cannot convert undefined or null to object"))
  | Str s => Normal (map index_key (seq 0 (length s)))
  | _ => Normal (map fst (Object_entries v))
  end.

(** ** PayloadBounder: the size budget (devtools.js, lines 346-420) *)

Section Bounder.

(** The engine's [JSON.parse] and [JSON.stringify].  Both may throw: the
    first on text that is not JSON, either of them when the engine runs out
    of a resource. *)
Variable JSON_parse : jsstring -> completion value.
Variable JSON_stringify : value -> completion jsstring.

(** Helper to calculate the size of an object *)
Definition calculateObjectSize (obj : value) : completion nat :=
  s <- JSON_stringify obj ;;
  Normal (length s).

Section Loop.

Variable maxTotalSize : nat.
Variable processFunc : value -> completion value.

(** The [for ... of] loop of [processArrayWithSizeLimit], from the state
    [(currentSize, result)] over the items still to visit. *)
Fixpoint processArray_loop (items : list value) (currentSize : nat) (result : list value)
  : completion (list value) :=
  match items with
  | [] => Normal result
  | item :: rest =>
      (* Process the item first *)
      processedItem <- processFunc item ;;
      itemSize <- calculateObjectSize processedItem ;;
      (* Check if adding this item would exceed the limit *)
      if maxTotalSize <? currentSize + itemSize
      then Normal result (* break *)
      else
        (* Add item and update size *)
        processArray_loop rest (currentSize + itemSize) (result ++ [processedItem])
  end.

End Loop.

(** Helper to process array of objects with size limit *)
Definition processArrayWithSizeLimit (array : list value) (maxTotalSize : nat)
  (processFunc : value -> completion value) : completion (list value) :=
  processArray_loop maxTotalSize processFunc array 0 [].

(** The inner [try] of [processJsonString]: [JSON.parse], then the log line
    [JSON.stringify(Object.keys(parsed))]. *)
Definition parse_and_log (jsonString : jsstring) : completion value :=
  parsed <- JSON_parse jsonString ;;
  keys <- Object_keys parsed ;;
  _ <- JSON_stringify (Arr (map Str keys)) ;;
  Normal parsed.

(** What follows the inner [try] once it has produced [parsed]. *)
Definition process_parsed (settings : Settings) (parsed : value) (maxLength : nat)
  : completion value :=
  match parsed with
  | Arr items =>
      (* If it's an array, process with size limit *)
      processed <- processArrayWithSizeLimit items (maxLogSize settings)
                     (fun item => Normal (truncateStringsInData shape_of item maxLength 0)) ;;
      result <- JSON_stringify (Arr processed) ;;
      Normal (Str result)
  | _ =>
      (* Otherwise process as before *)
      let processed := truncateStringsInData shape_of parsed maxLength 0 in
      result <- JSON_stringify processed ;;
      Normal (Str result)
  end.

(** The outer [try] block. *)
Definition processJsonString_body (settings : Settings) (jsonString : jsstring)
  (maxLength : nat) : completion value :=
  match parse_and_log jsonString with
  | Throw _ =>
      (* Not valid JSON, treating as string *)
      Normal (truncateStringsInData shape_of (Str jsonString) maxLength 0)
  | Normal parsed => process_parsed settings parsed maxLength
  end.

Definition processJsonString (settings : Settings) (jsonString : jsstring) (maxLength : nat)
  : value :=
  match processJsonString_body settings jsonString maxLength with
  | Normal result => result
  | Throw _ => Str (substring0 maxLength jsonString ++ TRUNCATED)
  end.

End Bounder.

(** An engine whose [JSON.stringify] never runs out of resources. *)
Definition stringify_total (v : value) : completion jsstring := Normal (SerializeJSON v).

(** An engine that refuses to build a string of more than [limit] code units
    ("RangeError: Invalid string length"). *)
Definition stringify_limited (limit : nat) (v : value) : completion jsstring :=
  let s := SerializeJSON v in
  if limit <? length s then Throw (RangeError (lit "Invalid string length"))
  else Normal s.

(** ** SessionManager: state, effects and the action monad
    (devtools.js, lines 902-911) *)

(** A WebSocket object and a timer handle, by the number the host gave it. *)
Definition socket := nat.
Definition timer := nat.

Inductive ready_state : Type := CONNECTING | OPEN | CLOSING | CLOSED.

Definition WS_RECONNECT_DELAY : nat := 5000. (* 5 seconds *)
Definition HEARTBEAT_INTERVAL : nat := 30000. (* 30 seconds *)

(** The module-level variables of the session layer. *)
Record session := Session {
  ws : option socket;
  wsReconnectTimeout : option timer;
  heartbeatInterval : option timer;
  reconnectAfterValidation : bool;
  intentionalClosure : bool;
  next_handle : nat
}.

Definition initial_session : session := {|
  ws := None;
  wsReconnectTimeout := None;
  heartbeatInterval := None;
  reconnectAfterValidation := false;
  intentionalClosure := false;
  next_handle := 1
|}.

(** Messages of [chrome.runtime.sendMessage]. *)
Inductive notification : Type :=
| SERVER_VALIDATION_FAILED (reason : jsstring) (status : option nat)
    (error : option jsstring) (host : jsstring) (port : nat)
| SERVER_VALIDATION_SUCCESS (serverInfo : value) (host : jsstring) (port : nat)
| WEBSOCKET_CONNECTED (host : jsstring) (port : nat).

(** The functions handed to [setTimeout] and [setInterval]. *)
Inductive callback : Type := Call_setupWebSocket | Call_sendHeartbeat.

Inductive effect : Type :=
| ClearTimeout (t : timer)
| ClearInterval (t : timer)
| SetTimeout (t : timer) (f : callback) (delay : nat)
| SetInterval (t : timer) (f : callback) (delay : nat)
| WsNew (s : socket) (url : jsstring)     (* new WebSocket(url) *)
| WsClose (s : socket)                    (* ws.close() *)
| WsSend (s : socket) (frame : value)     (* ws.send(JSON.stringify(frame)), socket open *)
| SendMessage (n : notification).         (* chrome.runtime.sendMessage *)

(** A run-to-completion block of the event loop: it reads and writes the
    session variables and leaves a trace of effects. *)
Definition action (A : Type) : Type := session -> A * session * list effect.

Definition ret {A : Type} (a : A) : action A := fun st => (a, st, []).

Definition and_then {A B : Type} (m : action A) (k : A -> action B) : action B :=
  fun st =>
    let '(a, st1, t1) := m st in
    let '(b, st2, t2) := k a st1 in
    (b, st2, t1 ++ t2).

Notation "x <~ m ;;; k" := (and_then m (fun x => k))
  (at level 61, m at next level, right associativity).
Notation "m ;;; k" := (and_then m (fun _ => k))
  (at level 61, right associativity).

Definition emit (e : effect) : action unit := fun st => (tt, st, [e]).
Definition read {A : Type} (field : session -> A) : action A := fun st => (field st, st, []).
Definition write (f : session -> session) : action unit := fun st => (tt, f st, []).
Definition skip : action unit := ret tt.

Definition state_after {A : Type} (m : action A) (st : session) : session := snd (fst (m st)).
Definition trace_of {A : Type} (m : action A) (st : session) : list effect := snd (m st).
Definition result_of {A : Type} (m : action A) (st : session) : A := fst (fst (m st)).

Definition set_ws (v : option socket) (st : session) : session :=
  Session v (wsReconnectTimeout st) (heartbeatInterval st)
          (reconnectAfterValidation st) (intentionalClosure st) (next_handle st).
Definition set_wsReconnectTimeout (v : option timer) (st : session) : session :=
  Session (ws st) v (heartbeatInterval st)
          (reconnectAfterValidation st) (intentionalClosure st) (next_handle st).
Definition set_heartbeatInterval (v : option timer) (st : session) : session :=
  Session (ws st) (wsReconnectTimeout st) v
          (reconnectAfterValidation st) (intentionalClosure st) (next_handle st).
Definition set_reconnectAfterValidation (v : bool) (st : session) : session :=
  Session (ws st) (wsReconnectTimeout st) (heartbeatInterval st)
          v (intentionalClosure st) (next_handle st).
Definition set_intentionalClosure (v : bool) (st : session) : session :=
  Session (ws st) (wsReconnectTimeout st) (heartbeatInterval st)
          (reconnectAfterValidation st) v (next_handle st).

(** The host hands out a handle no timer or socket has had yet. *)
Definition fresh_handle : action nat :=
  fun st =>
    (next_handle st,
     Session (ws st) (wsReconnectTimeout st) (heartbeatInterval st)
             (reconnectAfterValidation st) (intentionalClosure st) (S (next_handle st)),
     []).

(** [setTimeout(f, delay)] and [setInterval(f, delay)] *)
Definition setTimeout (f : callback) (delay : nat) : action timer :=
  t <~ fresh_handle ;;; emit (SetTimeout t f delay) ;;; ret t.
Definition setInterval (f : callback) (delay : nat) : action timer :=
  t <~ fresh_handle ;;; emit (SetInterval t f delay) ;;; ret t.

(** ** Identity validation (devtools.js, lines 536-611) *)

Definition EXPECTED_SIGNATURE : jsstring := lit "mcp-browser-connector-24x7".

(** How [response.json()] settles, and how [fetch] does. *)
Inductive body_outcome : Type :=
| BodyJson (body : value)
| BodyRejects (e : exn).

Inductive fetch_outcome : Type :=
| Responds (ok : bool) (status : nat) (body : body_outcome)
| FetchRejects (e : exn).

(** [identity.signature]: a [TypeError] when the body is [null]. *)
Definition read_signature (body : value) : completion (option value) :=
  match body with
  | Null => Throw (TypeError (lit "Cannot read properties of null (reading 'signature')"))
  | _ => Normal (get_property body (lit "signature"))
  end.

(** [x === s] for a string [s]. *)
Definition strictly_equals (x : option value) (s : jsstring) : bool :=
  match x with
  | Some (Str t) => jsstring_eqb t s
  | _ => false
  end.

Definition validation_failed (settings : Settings) (reason : string)
  (status : option nat) (error : option jsstring) : effect :=
  SendMessage (SERVER_VALIDATION_FAILED (lit reason) status error
                 (serverHost settings) (serverPort settings)).

(** The argument of the log statement that follows the signature test,
    [`Server identity confirmed: ${identity.name} v${identity.version}`]: the
    template literal converts the two properties in turn, inside the [try]. *)
Definition identity_log_line (server : value) : completion jsstring :=
  name <- ToString_opt (get_property server (lit "name")) ;;
  version <- ToString_opt (get_property server (lit "version")) ;;
  Normal (lit "Server identity confirmed: " ++ name ++ lit " v" ++ version).

(** The [catch] block of [validateServerIdentity]. *)
Definition connection_error (settings : Settings) (e : exn) : action bool :=
  emit (validation_failed settings "connection_error" None (Some (message_of e))) ;;;
  ret false.

(** [validateServerIdentity()], with [settings] the module variable, which no
    other task changes while the call awaits. *)
Definition validateServerIdentity (settings : Settings) (outcome : fetch_outcome)
  : action bool :=
  match outcome with
  | FetchRejects e => connection_error settings e
  | Responds ok status body =>
      if negb ok then
        (* Notify about the connection failure *)
        emit (validation_failed settings "http_error" (Some status) None) ;;;
        ret false
      else
        match body with
        | BodyRejects e => connection_error settings e
        | BodyJson server =>
            match read_signature server with
            | Throw e => connection_error settings e
            | Normal signature =>
                (* Validate signature *)
                if negb (strictly_equals signature EXPECTED_SIGNATURE) then
                  (* Notify about the invalid signature *)
                  emit (validation_failed settings "invalid_signature" None None) ;;;
                  ret false
                else
                  match identity_log_line server with
                  | Throw e => connection_error settings e
                  | Normal _ =>
                      (* Notify about successful validation *)
                      emit (SendMessage (SERVER_VALIDATION_SUCCESS server
                                           (serverHost settings) (serverPort settings))) ;;;
                      ret true
                  end
            end
        end
  end.

(** ** setupWebSocket and the socket's handlers (devtools.js, lines 913-1032) *)

Definition wsUrl (settings : Settings) : jsstring :=
  lit "ws://" ++ serverHost settings ++ lit ":" ++ index_key (serverPort settings)
  ++ lit "/extension-ws".

Definition clear_reconnect_timeout : action unit :=
  pending <~ read wsReconnectTimeout ;;;
  match pending with
  | Some t => emit (ClearTimeout t) ;;; write (set_wsReconnectTimeout None)
  | None => skip
  end.

Definition clear_heartbeat : action unit :=
  pending <~ read heartbeatInterval ;;;
  match pending with
  | Some t => emit (ClearInterval t) ;;; write (set_heartbeatInterval None)
  | None => skip
  end.

(** Close existing WebSocket if any: the flag is raised and lowered around
    [ws.close()], which only starts the closing handshake; the socket's
    [close] event is delivered by a later task. *)
Definition close_existing : action unit :=
  current <~ read ws ;;;
  match current with
  | Some s =>
      write (set_intentionalClosure true) ;;;
      emit (WsClose s) ;;;
      write (set_ws None) ;;;
      write (set_intentionalClosure false) (* Reset flag *)
  | None => skip
  end.

(** [setupWebSocket] up to its [await]. *)
Definition setupWebSocket_start : action unit :=
  (* Clear any pending timeouts *)
  clear_reconnect_timeout ;;;
  clear_heartbeat ;;;
  close_existing.

Definition schedule_reconnect : action unit :=
  t <~ setTimeout Call_setupWebSocket WS_RECONNECT_DELAY ;;;
  write (set_wsReconnectTimeout (Some t)).

(** [setupWebSocket] from the point where [validateServerIdentity] has
    settled with [isValid]; [ctor] is the exception [new WebSocket(wsUrl)]
    throws, if it throws. *)
Definition setupWebSocket_resume (settings : Settings) (isValid : bool) (ctor : option exn)
  : action unit :=
  if negb isValid then
    (* Set flag to indicate we need to reconnect after a page refresh check *)
    write (set_reconnectAfterValidation true) ;;;
    (* Try again after delay *)
    schedule_reconnect
  else
    (* Reset reconnect flag since validation succeeded *)
    write (set_reconnectAfterValidation false) ;;;
    match ctor with
    | None =>
        s <~ fresh_handle ;;;
        emit (WsNew s (wsUrl settings)) ;;;
        write (set_ws (Some s))
    | Some _ =>
        (* Try again after delay *)
        schedule_reconnect
    end.

(** One call of [setupWebSocket] with nothing else running at its [await]. *)
Definition setupWebSocket (settings : Settings) (outcome : fetch_outcome)
  (ctor : option exn) : action unit :=
  setupWebSocket_start ;;;
  isValid <~ validateServerIdentity settings outcome ;;;
  setupWebSocket_resume settings isValid ctor.

Definition heartbeat_frame : value := Obj [(lit "type", Str (lit "heartbeat"))].

(** [readyState] is the state of the socket [ws] holds when the call runs. *)
Definition sendHeartbeat (readyState : ready_state) : action unit :=
  current <~ read ws ;;;
  match current, readyState with
  | Some s, OPEN => emit (WsSend s heartbeat_frame)
  | _, _ => skip
  end.

Definition onopen (settings : Settings) : action unit :=
  (* Start heartbeat to keep connection alive *)
  t <~ setInterval Call_sendHeartbeat HEARTBEAT_INTERVAL ;;;
  write (set_heartbeatInterval (Some t)) ;;;
  (* Notify that connection is successful *)
  emit (SendMessage (WEBSOCKET_CONNECTED (serverHost settings) (serverPort settings))).

(** [ws.onclose], on an event whose [code] is [code]. *)
Definition onclose (code : nat) : action unit :=
  (* Stop heartbeat *)
  clear_heartbeat ;;;
  (* Don't reconnect if this was an intentional closure *)
  intentional <~ read intentionalClosure ;;;
  if intentional then skip
  else
    (* Code 1000 (Normal Closure) and 1001 (Going Away) are normal closures *)
    let isAbnormalClosure := negb ((code =? 1000) || (code =? 1001)) in
    pending <~ read reconnectAfterValidation ;;;
    if isAbnormalClosure || pending then
      (* Try to reconnect after delay *)
      schedule_reconnect
    else skip.

(** The [INITIATE_AUTO_DISCOVERY] branch of the runtime message listener
    (lines 255-291): [requested] is [message.reason === "page_refresh" ||
    message.forceRestart === true]. *)
Definition on_auto_discovery (requested : bool) (readyState : ready_state) : action unit :=
  current <~ read ws ;;;
  let not_open :=
    match current, readyState with
    | Some _, OPEN => false
    | _, _ => true
    end in
  if requested && not_open then
    (* Close existing WebSocket if any *)
    close_existing ;;;
    (* Clear any pending reconnect timeouts *)
    clear_reconnect_timeout ;;;
    (* Try to reestablish the WebSocket connection *)
    setupWebSocket_start
  else skip.

(** The first [unload] listener (lines 827-853).  [detachDebugger] touches
    none of the session variables. *)
Definition on_unload_cleanup : action unit :=
  (* Set intentional closure flag before closing *)
  write (set_intentionalClosure true) ;;;
  (current <~ read ws ;;;
   match current with
   | Some s => emit (WsClose s) ;;; write (set_ws None)
   | None => skip
   end) ;;;
  clear_reconnect_timeout ;;;
  clear_heartbeat.

(** The second one (lines 1270-1278). *)
Definition on_unload_close : action unit :=
  (current <~ read ws ;;;
   match current with
   | Some s => emit (WsClose s)
   | None => skip
   end) ;;;
  pending <~ read wsReconnectTimeout ;;;
  match pending with
  | Some t => emit (ClearTimeout t)
  | None => skip
  end.

(** The tasks of the event loop that write the session variables.  The other
    listeners of the file either call [setupWebSocket] (the
    [CONNECTION_STATUS_UPDATE] and [SETTINGS_UPDATED] branches, the timers),
    or write none of the variables ([sendHeartbeat], [ws.onmessage] and its
    callbacks).  A message whose [reason] the log line of the
    [INITIATE_AUTO_DISCOVERY] branch cannot render throws before the test and
    changes nothing, as one with [requested = false]. *)
Inductive task : Type :=
| Call_of_setupWebSocket
| Resumption_of_setupWebSocket (settings : Settings) (isValid : bool) (ctor : option exn)
| Event_open (settings : Settings)
| Event_close (code : nat)
| Message_auto_discovery (requested : bool) (readyState : ready_state)
| Event_unload.

Definition run_task (t : task) : action unit :=
  match t with
  | Call_of_setupWebSocket => setupWebSocket_start
  | Resumption_of_setupWebSocket settings isValid ctor =>
      setupWebSocket_resume settings isValid ctor
  | Event_open settings => onopen settings
  | Event_close code => onclose code
  | Message_auto_discovery requested readyState => on_auto_discovery requested readyState
  | Event_unload => on_unload_cleanup ;;; on_unload_close
  end.

(** The states the session variables can be in when a task starts. *)
Inductive reachable : session -> Prop :=
| reachable_initial : reachable initial_session
| reachable_step (st : session) (t : task) :
    reachable st -> reachable (state_after (run_task t) st).

(** The reconnections a trace schedules. *)
Definition scheduled_reconnects (trace : list effect) : list nat :=
  flat_map (fun e => match e with
                     | SetTimeout _ Call_setupWebSocket delay => [delay]
                     | _ => []
                     end) trace.

(** The sockets a trace opens. *)
Definition opened_sockets (trace : list effect) : list socket :=
  flat_map (fun e => match e with WsNew s _ => [s] | _ => [] end) trace.

(** ** Command dispatch: ws.onmessage (devtools.js, lines 1034-1259) *)

(** The asynchronous host calls a command starts; each takes a callback. *)
Inductive host_call : Type :=
| CaptureVisibleTab        (* chrome.tabs.captureVisibleTab *)
| EvalCookies              (* inspectedWindow.eval of the cookie script *)
| EvalLocalStorage         (* inspectedWindow.eval of the localStorage script *)
| EvalSessionStorage.      (* inspectedWindow.eval of the sessionStorage script *)

(** A response frame [{ type, ...fields, requestId }]; [JSON.stringify]
    leaves out a [requestId] that is [undefined]. *)
Definition response_frame (type : string) (fields : list (jsstring * value))
  (requestId : option value) : value :=
  Obj ((lit "type", Str (lit type)) :: fields
       ++ match requestId with
          | Some r => [(lit "requestId", r)]
          | None => []
          end).

(** [ws.send(data)] on the module-level [ws]: a [TypeError] when [ws] is
    [null], an [InvalidStateError] while the socket is connecting; a closing
    or closed socket takes the call and discards the data. *)
Definition ws_send (readyState : ready_state) (frame : value) (st : session)
  : completion (list effect) :=
  match ws st with
  | None => Throw (TypeError (lit "Cannot read properties of null (reading 'send')"))
  | Some s =>
      match readyState with
      | CONNECTING => Throw (InvalidStateError (lit "Still in CONNECTING state."))
      | OPEN => Normal [WsSend s frame]
      | CLOSING | CLOSED => Normal []
      end
  end.

Definition truthy_opt (v : option value) : bool :=
  match v with
  | Some w => truthy w
  | None => false
  end.

Section Commands.

Variable Math_log2 : float64 -> float64.
Variable JSON_parse : jsstring -> completion value.

(** The body of [ws.onmessage]: the host call the frame starts, with the
    [requestId] its callback will answer.  A frame that does not parse, or
    whose [type] is none of the commands, starts nothing. *)
Definition onmessage (data : jsstring) : option (host_call * option value) :=
  match JSON_parse data with
  | Throw _ => None
  | Normal Null => None (* message.type throws, the catch block logs *)
  | Normal message =>
      let type := get_property message (lit "type") in
      let requestId := get_property message (lit "requestId") in
      if strictly_equals type (lit "heartbeat-response") then None
      else if strictly_equals type (lit "take-screenshot") then Some (CaptureVisibleTab, requestId)
      else if strictly_equals type (lit "get-cookies") then Some (EvalCookies, requestId)
      else if strictly_equals type (lit "get-local-storage") then Some (EvalLocalStorage, requestId)
      else if strictly_equals type (lit "get-session-storage") then Some (EvalSessionStorage, requestId)
      else None
  end.

(** The callback of the cookie read (lines 1109-1148), called with
    [(result, isException)]; [None] is [undefined].  An exception of the
    filter leaves the callback before [ws.send]. *)
Definition cookies_callback (settings : Settings) (readyState : ready_state)
  (requestId : option value) (result isException : option value) (st : session)
  : completion (list effect) :=
  if truthy_opt isException || negb (truthy_opt result) then
    ws_send readyState
      (response_frame "cookies-error"
         [(lit "error",
           match isException with
           | Some e => if truthy e then e else Str (lit "Failed to get cookies")
           | None => Str (lit "Failed to get cookies")
           end)]
         requestId)
      st
  else
    (* Make sure cookies is an array, even if empty *)
    let cookies := match result with
                   | Some (Arr items) => Arr items
                   | _ => Arr []
                   end in
    (* Filter sensitive data if showSensitive is false *)
    cookies <- (if negb (jsstring_eqb (sensitiveDataMode settings) (lit "show-all"))
                then filtered <- filterSensitiveCookies Math_log2 settings cookies ;;
                     Normal (Arr filtered)
                else Normal cookies) ;;
    ws_send readyState (response_frame "cookies-data" [(lit "cookies", cookies)] requestId) st.

(** The callback of a storage read (lines 1162-1199 and 1213-1250);
    [kind] is ["local-storage"] or ["session-storage"]. *)
Definition storage_callback (kind failure : string) (settings : Settings)
  (readyState : ready_state) (requestId : option value) (result isException : option value)
  (st : session) : completion (list effect) :=
  if truthy_opt isException || negb (truthy_opt result) then
    ws_send readyState
      (response_frame (kind ++ "-error")
         [(lit "error",
           match isException with
           | Some e => if truthy e then e else Str (lit failure)
           | None => Str (lit failure)
           end)]
         requestId)
      st
  else
    let storageData := match result with Some r => r | None => Null end in
    let storageData :=
      if negb (jsstring_eqb (sensitiveDataMode settings) (lit "show-all"))
      then filterSensitiveStorage Math_log2 settings storageData
      else storageData in
    ws_send readyState (response_frame (kind ++ "-data") [(lit "storage", storageData)] requestId)
      st.

End Commands.


(** ** Vocabulary of the properties *)

(** [typeof v === "string"] *)
Definition is_string (v : value) : bool :=
  match v with
  | Str _ => true
  | _ => false
  end.

(** A character of [[A-Za-z0-9_-]]. *)
Definition is_key_char (c : code_unit) : bool :=
  ((65 <=? c) && (c <=? 90) || (97 <=? c) && (c <=? 122) || (48 <=? c) && (c <=? 57)
   || (c =? 95) || (c =? 45))%N.

(** A stand-in for [Math.log2] in the examples: exact on the powers of two
    (a mantissa of 2^52), not a number elsewhere. *)
Definition log2_of_power_of_two (x : float64) : float64 :=
  match x with
  | S754_finite false 4503599627370496 e => binary_normalize 53 1024 (e + 52) 0 false
  | _ => S754_nan
  end.

(** The value of the specification's storage example. *)
Definition example_uuid : jsstring := lit "deadbeef-dead-beef-dead-beefdeadbeef".

(** [SENSITIVE_VALUE_PATTERNS.some((pattern) => pattern.test(s))] *)
Definition test_any_signature (s : jsstring) : bool :=
  existsb (fun pattern => test pattern s) SENSITIVE_VALUE_PATTERNS.

(** Nine times U+1F600, a character outside the basic plane: eighteen code
    units, one distinct code point. *)
Definition nine_astral : jsstring := List.concat (repeat [0xD83D; 0xDE00]%N 9).

(** How deep a value nests arrays and objects. *)
Fixpoint nesting (v : value) : nat :=
  match v with
  | Arr items => S (list_max (map nesting items))
  | Obj entries => S (list_max (map (fun kv => nesting (snd kv)) entries))
  | _ => 0
  end.

Fixpoint distinct (keys : list jsstring) : bool :=
  match keys with
  | [] => true
  | k :: rest => negb (existsb (jsstring_eqb k) rest) && distinct rest
  end.

Definition not_proto (key : jsstring) : bool := negb (jsstring_eqb key (lit "__proto__")).



Section Positions.

Context {V : Type} (inspect_data : V -> shape V).


End Positions.



Definition nested_arrays (n : nat) : value := Nat.iter n (fun v => Arr [v]) Null.

(** [calculateObjectSize] on an engine that does not fail. *)
Definition serialized_size (v : value) : nat := length (SerializeJSON v).

(** The running total of [processArrayWithSizeLimit] over the items kept. *)
Definition total_size (items : list value) : nat := list_sum (map serialized_size items).

(** A [JSON.parse] for the examples: it knows one text, [[1234567]]. *)
Definition parse_one_array (text : jsstring) : completion value :=
  if jsstring_eqb text (lit "[1234567]") then Normal (Arr [Number (lit "1234567")])
  else Throw (SyntaxError (lit "Unexpected token")).

(** A server that answers 503 with a JSON body, and one that answers 200;
    both bodies carry a signature that is not the expected one. *)
Definition wrong_identity : value :=
  Obj [(lit "name", Str (lit "some-other-server")); (lit "signature", Str (lit "not-the-connector"))].
Definition unavailable_response : fetch_outcome := Responds false 503 (BodyJson wrong_identity).
Definition impostor_response : fetch_outcome := Responds true 200 (BodyJson wrong_identity).

(** The session once a socket is installed: validation succeeded, the
    constructor returned. *)
Definition connected_session : session :=
  state_after (setupWebSocket default_settings
                 (Responds true 200
                    (BodyJson (Obj [(lit "signature", Str EXPECTED_SIGNATURE)])))
                 None)
              initial_session.

(** The command frame of the specification's example, already parsed. *)
Definition get_cookies_message : value :=
  Obj [(lit "type", Str (lit "get-cookies")); (lit "requestId", Str (lit "r1"))].
Definition parse_get_cookies (data : jsstring) : completion value := Normal get_cookies_message.

(** ** The runtime message listener: SETTINGS_UPDATED (devtools.js, lines 213-226) *)

(** The [SETTINGS_UPDATED] branch.  [settings] is the module variable when
    the message arrives; the assignment comes first, so the comparison that
    follows reads the new settings on both sides (a host is a string and a
    port a number other than [NaN], as in [Settings]).  The result is the
    settings in force afterwards, and whether [setupWebSocket] is called. *)
Definition on_settings_updated (settings message_settings : Settings)
  : Settings * action bool :=
  let settings := message_settings in
  (settings,
   current <~ read ws ;;;
   match current with
   | Some _ =>
       (* If server settings changed and we have a WebSocket, reconnect *)
       if negb (jsstring_eqb (serverHost message_settings) (serverHost settings))
          || negb (serverPort message_settings =? serverPort settings)
       then setupWebSocket_start ;;; ret true
       else ret false
   | None => ret false
   end).

(** ** The screenshot callback (devtools.js, lines 1050-1082) *)

(** A property of an object literal as [JSON.stringify] shows it: left out
    when its value is [undefined]. *)
Definition optional (key : string) (v : option value) : list (jsstring * value) :=
  match v with
  | Some w => [(lit key, w)]
  | None => []
  end.

(** The callback of [chrome.tabs.captureVisibleTab], called with [dataUrl]
    while [chrome.runtime.lastError] is [lastError]. *)
Definition screenshot_callback (settings : Settings) (readyState : ready_state)
  (requestId : option value) (lastError dataUrl : option value) (st : session)
  : completion (list effect) :=
  if truthy_opt lastError then
    ws_send readyState
      (Obj ((lit "type", Str (lit "screenshot-error"))
            :: optional "error"
                 (match lastError with
                  | Some e => get_property e (lit "message")
                  | None => None
                  end)
            ++ optional "requestId" requestId))
      st
  else
    (* Just send the screenshot data, let the server handle paths *)
    let response :=
      Obj ((lit "type", Str (lit "screenshot-data"))
           :: optional "data" dataUrl
           ++ optional "requestId" requestId
           (* Only include path if it's configured in settings *)
           ++ (if truthy (Str (screenshotPath settings))
               then [(lit "path", Str (screenshotPath settings))]
               else [])) in
    ws_send readyState response st.

(** ** The capture relay: sendToBrowserConnector (devtools.js, lines 422-533) *)

(** The request [fetch(serverUrl, { method: "POST", ... })] sends. *)
Record http_post := {
  post_url : jsstring;
  post_body : jsstring
}.

Definition extension_log_url (settings : Settings) : jsstring :=
  lit "http://" ++ serverHost settings ++ lit ":" ++ index_key (serverPort settings)
  ++ lit "/extension-log".

(** The [settings] member of the payload. *)
Definition payload_settings (settings : Settings) : value :=
  Obj [(lit "logLimit", Number (index_key (logLimit settings)));
       (lit "queryLimit", Number (index_key (queryLimit settings)));
       (lit "showRequestHeaders", Boolean (showRequestHeaders settings));
       (lit "showResponseHeaders", Boolean (showResponseHeaders settings));
       (lit "sensitiveDataMode", Str (sensitiveDataMode settings))].

(** [{ data: { ...processedData, timestamp: Date.now() }, settings: { ... } }];
    [now] is the rendering of [Date.now()]. *)
Definition log_payload (settings : Settings) (processedData : list (jsstring * value))
  (now : jsstring) : value :=
  Obj [(lit "data", Obj (define_property processedData (lit "timestamp") (Number now)));
       (lit "settings", payload_settings settings)].

Section Relay.

Variable JSON_parse : jsstring -> completion value.
Variable JSON_stringify : value -> completion jsstring.

(** [processJsonString(field, maxLength)] on a field of any type.  On a
    field that is not a string, [JSON.parse] reads its [ToString] (and throws
    if it has none), the inner fallback bounds the field itself, and the
    outer fallback throws, for only a string has [substring]. *)
Definition processJsonString_of (settings : Settings) (field : value) (maxLength : nat)
  : completion value :=
  match field with
  | Str jsonString =>
      Normal (processJsonString JSON_parse JSON_stringify settings jsonString maxLength)
  | _ =>
      match (text <- ToString field ;; parse_and_log JSON_parse JSON_stringify text) with
      | Throw _ => Normal (truncateStringsInData shape_of field maxLength 0)
      | Normal parsed =>
          match process_parsed JSON_stringify settings parsed maxLength with
          | Normal result => Normal result
          | Throw _ => Throw (TypeError (lit "jsonString.substring is not a function"))
          end
      end
  end.

(** [if (processedData[key]) processedData[key] = processJsonString(processedData[key],
    settings.stringSizeLimit)] *)
Definition process_field (settings : Settings) (processedData : list (jsstring * value))
  (key : string) : completion (list (jsstring * value)) :=
  match lookup (lit key) processedData with
  | Some field =>
      if truthy field then
        processed <- processJsonString_of settings field (stringSizeLimit settings) ;;
        Normal (define_property processedData (lit key) processed)
      else Normal processedData
  | None => Normal processedData
  end.

(** Process any string fields that might contain JSON. *)
Definition process_log_fields (settings : Settings) (logData : list (jsstring * value))
  : completion (list (jsstring * value)) :=
  let processedData := logData in
  let type := lookup (lit "type") logData in
  if strictly_equals type (lit "network-request") then
    processedData <- process_field settings processedData "requestBody" ;;
    process_field settings processedData "responseBody"
  else if strictly_equals type (lit "console-log")
          || strictly_equals type (lit "console-error") then
    process_field settings processedData "message"
  else Normal processedData.

(** [sendToBrowserConnector(logData)] for the object [logData] a listener
    built (every call site passes an object literal, so the guard
    [!logData] does not fire), with nothing else running at its [await];
    [outcome] is how the identity request settles.  The result is the
    request posted, if one is; an exception rejects the promise the function
    returns. *)
Definition sendToBrowserConnector (settings : Settings) (outcome : fetch_outcome)
  (now : jsstring) (logData : list (jsstring * value))
  : action (completion (option http_post)) :=
  (* First, ensure we're connecting to the right server *)
  isValid <~ validateServerIdentity settings outcome ;;;
  if negb isValid then ret (Normal None)
  else
    ret (processedData <- process_log_fields settings logData ;;
         (* Add settings to the request *)
         let payload := log_payload settings processedData now in
         finalPayloadSize <- calculateObjectSize JSON_stringify payload ;;
         _ <- (if 1000000 <? finalPayloadSize then JSON_stringify payload else Normal []) ;;
         body <- JSON_stringify payload ;;
         Normal (Some {| post_url := extension_log_url settings; post_body := body |})).

End Relay.

(** ** The console listener (devtools.js, lines 750-812) *)

(** An element of an array as [Array.prototype.join] renders it. *)
Definition join_element (element : option value) : completion jsstring :=
  match element with
  | None | Some Null => Normal []
  | Some v => ToString v
  end.

Section Console.

Variable JSON_stringify : value -> completion jsstring.

(** The callback of [args.map] on one argument of the console call; [None]
    is [undefined]. *)
Definition format_arg (arg : value) : completion (option value) :=
  match arg with
  | Null => Throw (TypeError (lit "Cannot read properties of null (reading 'type')"))
  | _ =>
      let type := get_property arg (lit "type") in
      let preview := get_property arg (lit "preview") in
      let description := get_property arg (lit "description") in
      let v := get_property arg (lit "value") in
      (* Handle different types of arguments *)
      if strictly_equals type (lit "string") then Normal v
      else if strictly_equals type (lit "object") && truthy_opt preview then
        (* For objects, include their preview or description *)
        s <- JSON_stringify (match preview with Some p => p | None => Null end) ;;
        Normal (Some (Str s))
      else if truthy_opt description then
        (* Some objects have descriptions *)
        Normal description
      else
        (* Fallback for other types *)
        if truthy_opt v then Normal v
        else if truthy_opt description then Normal description
        else s <- JSON_stringify arg ;; Normal (Some (Str s))
  end.

(** [formattedMessage] for the arguments [args] of the console call. *)
Definition format_console_args (args : list value) : value :=
  match args with
  | [] => Str []
  | first :: _ =>
      (* Try to build a meaningful representation of all arguments *)
      match (parts <- map_completion format_arg args ;;
             rendered <- map_completion join_element parts ;;
             Normal (join (lit " ") rendered)) with
      | Normal formattedMessage => Str formattedMessage
      | Throw _ =>
          (* Fallback if processing fails *)
          match first with
          | Null => Str (lit "Unable to process console arguments")
          | _ =>
              match get_property first (lit "value") with
              | Some v => if truthy v then v
                          else Str (lit "Unable to process console arguments")
              | None => Str (lit "Unable to process console arguments")
              end
          end
      end
  end.

End Console.

(** ** Vocabulary of the further properties *)

(** The length of the shortest string a pattern can match. *)
Fixpoint min_length (r : regex) : nat :=
  match r with
  | Never => 0
  | Eps => 0
  | Chr _ => 1
  | Cls _ => 1
  | Seq r1 r2 => min_length r1 + min_length r2
  | Alt r1 r2 => Nat.min (min_length r1) (min_length r2)
  | Rep lo _ r1 => lo * min_length r1
  end.

(** The object a loop of assignments [result[key] = h(entry)] builds from
    [acc]. *)
Definition rebuild (h : jsstring * value -> value) (entries acc : list (jsstring * value))
  : list (jsstring * value) :=
  fold_left (fun result kv => assign result (fst kv) (h kv)) entries acc.

(** What [filterSensitiveStorage] makes of one entry: the key, and the value
    or the marker. *)
Definition redact_entry (Math_log2 : float64 -> float64) (settings : Settings)
  (kv : jsstring * value) : jsstring * value :=
  (fst kv,
   if must_redact Math_log2 settings (fst kv) (Some (snd kv)) then Str REDACTED else snd kv).

(** A cookie object whose [value] is the marker. *)
Definition is_redacted (cookie : value) : bool :=
  strictly_equals (get_property cookie (lit "value")) REDACTED.

(** [isSensitiveKey(cookie.name) || isSensitiveValue(cookie.value)], which
    throws when the name cannot be converted. *)
Definition is_flagged (Math_log2 : float64 -> float64) (cookie : value) : completion bool :=
  sensitive <- isSensitiveKey_of (get_property cookie (lit "name")) ;;
  Normal (sensitive
          || match get_property cookie (lit "value") with
             | Some w => isSensitiveValue Math_log2 w
             | None => false
             end).

(** The name of every cookie object of the list can be converted to a
    string. *)
Definition names_convert (items : list value) : bool :=
  forallb (fun cookie =>
             negb (is_object cookie)
             || match ToString_opt (get_property cookie (lit "name")) with
                | Normal _ => true
                | Throw _ => false
                end)
          items.

(** What a redacted cookie is: the own enumerable properties of the cookie,
    with [value] set to the marker. *)
Definition redacted_copy (cookie : value) : value :=
  Obj (define_property (Object_entries cookie) (lit "value") (Str REDACTED)).

(** The cookies the callback of the cookie read filters:
    [Array.isArray(result) ? result : []]. *)
Definition cookies_of (result : option value) : list value :=
  match result with
  | Some (Arr items) => items
  | _ => []
  end.

(** A cookie whose name cannot be converted. *)
Definition unnameable_cookie : value :=
  Obj [(lit "name", Obj [(lit "toString", Number (lit "0"))]); (lit "value", Str (lit "v"))].

(** Every string the value holds as a value (not as a key) satisfies [p]. *)
Fixpoint all_strings (p : jsstring -> bool) (v : value) : bool :=
  match v with
  | Str s => p s
  | Arr items => forallb (all_strings p) items
  | Obj entries => forallb (fun kv => all_strings p (snd kv)) entries
  | _ => true
  end.

(** No object of the value lists a key twice or has a key [__proto__]. *)
Fixpoint plain_keys (v : value) : bool :=
  match v with
  | Arr items => forallb plain_keys items
  | Obj entries =>
      distinct (map fst entries)
      && forallb (fun kv => not_proto (fst kv)) entries
      && forallb (fun kv => plain_keys (snd kv)) entries
  | _ => true
  end.

(** A string [truncateStringsInData] can leave behind under the limit
    [maxLength]: at most [maxLength] code units and the 15 of the truncation
    marker, or the depth marker. *)
Definition left_by_truncation (maxLength : nat) (s : jsstring) : bool :=
  (length s <=? maxLength + length TRUNCATED) || jsstring_eqb s MAX_DEPTH_EXCEEDED.

(** A small document for the examples. *)
Definition example_document : value :=
  Obj [(lit "user", Obj [(lit "name", Str (lit "Ada")); (lit "tags", Arr [Str (lit "a"); Null])]);
       (lit "count", Number (lit "2"))].

(** A [processFunc] that throws on [null], and a [JSON.parse] that knows the
    text [null] with white space around it. *)
Definition reject_null (item : value) : completion value :=
  match item with
  | Null => Throw (TypeError (lit "Cannot read properties of null"))
  | _ => Normal item
  end.
Definition parse_padded_null (text : jsstring) : completion value :=
  if jsstring_eqb text (lit " null ") then Normal Null
  else Throw (SyntaxError (lit "Unexpected token")).

(** The responses [validateServerIdentity] accepts: a success status and a
    JSON body whose [signature] is the expected string and whose [name] and
    [version] the log line can render. *)
Definition accepted (outcome : fetch_outcome) : bool :=
  match outcome with
  | Responds true _ (BodyJson server) =>
      strictly_equals (get_property server (lit "signature")) EXPECTED_SIGNATURE
      && match identity_log_line server with
         | Normal _ => true
         | Throw _ => false
         end
  | _ => false
  end.

Definition is_success (n : notification) : bool :=
  match n with
  | SERVER_VALIDATION_SUCCESS _ _ _ => true
  | _ => false
  end.

(** The server a notification names. *)
Definition server_of (n : notification) : jsstring * nat :=
  match n with
  | SERVER_VALIDATION_FAILED _ _ _ host port => (host, port)
  | SERVER_VALIDATION_SUCCESS _ host port => (host, port)
  | WEBSOCKET_CONNECTED host port => (host, port)
  end.

(** The identity the connector answers with. *)
Definition connector_response : fetch_outcome :=
  Responds true 200
    (BodyJson (Obj [(lit "name", Str (lit "browser-tools-server"));
                    (lit "signature", Str EXPECTED_SIGNATURE)])).

(** A body with the right signature and a name that cannot be converted. *)
Definition unnameable_response : fetch_outcome :=
  Responds true 200
    (BodyJson (Obj [(lit "name", Obj [(lit "toString", Number (lit "0"))]);
                    (lit "signature", Str EXPECTED_SIGNATURE)])).

(** A session holding a socket, a pending reconnection and a heartbeat. *)
Definition busy_session : session :=
  Session (Some 1) (Some 2) (Some 3) false false 4.

(** The timers and sockets a trace releases. *)
Definition released (trace : list effect) : list effect :=
  filter (fun e => match e with
                   | ClearTimeout _ | ClearInterval _ | WsClose _ => true
                   | _ => false
                   end) trace.

(** The fields [sendToBrowserConnector] may rewrite. *)
Definition is_text_field (key : jsstring) : bool :=
  jsstring_eqb key (lit "requestBody") || jsstring_eqb key (lit "responseBody")
  || jsstring_eqb key (lit "message").

(** An entry as the network listener builds it. *)
Definition example_request : list (jsstring * value) :=
  [(lit "type", Str (lit "network-request"));
   (lit "url", Str (lit "https://example.org/api"));
   (lit "method", Str (lit "POST"));
   (lit "status", Number (lit "200"));
   (lit "requestHeaders", Arr [Obj [(lit "name", Str (lit "Authorization"));
                                   (lit "value", Str (lit "Bearer abcdefghijklmnop"))]]);
   (lit "responseHeaders", Arr []);
   (lit "requestBody", Str (lit "[1234567]"));
   (lit "responseBody", Str [])].

(** A console argument of type string, as the debugger reports it. *)
Definition string_arg (s : jsstring) : value :=
  Obj [(lit "type", Str (lit "string")); (lit "value", Str s)].

(* ===================================================================== *)
(** * Part II: properties *)
(* ===================================================================== *)

(** ** Strings and patterns *)

Lemma jsstring_eqb_eq (s t : jsstring) : jsstring_eqb s t = true <-> s = t.
Proof.
  revert t; induction s as [|c s IH]; intros [|d t]; simpl; split; intro H;
    try discriminate; try reflexivity.
  - apply andb_true_iff in H as [Hc Hs].
    apply N.eqb_eq in Hc. apply IH in Hs. now subst.
  - injection H as -> ->. apply andb_true_iff; split.
    + apply N.eqb_refl.
    + now apply IH.
Qed.

Lemma jsstring_eqb_refl (s : jsstring) : jsstring_eqb s s = true.
Proof. now apply jsstring_eqb_eq. Qed.

Lemma jsstring_eqb_neq (s t : jsstring) : s <> t -> jsstring_eqb s t = false.
Proof.
  intro H. destruct (jsstring_eqb s t) eqn:E; [|reflexivity].
  apply jsstring_eqb_eq in E. contradiction.
Qed.

Lemma jsstring_eqb_sym (s t : jsstring) : jsstring_eqb s t = jsstring_eqb t s.
Proof.
  destruct (jsstring_eqb t s) eqn:E.
  - apply jsstring_eqb_eq in E. subst. apply jsstring_eqb_refl.
  - apply jsstring_eqb_neq. intros ->. now rewrite jsstring_eqb_refl in E.
Qed.

Lemma lookup_define_property (entries : list (jsstring * value)) (key k : jsstring) (v : value) :
  lookup key (define_property entries k v)
  = if jsstring_eqb k key then Some v else lookup key entries.
Proof.
  induction entries as [|[k0 w] rest IH]; simpl; [reflexivity|].
  destruct (jsstring_eqb k0 k) eqn:E; simpl.
  - apply jsstring_eqb_eq in E. subst k0. now destruct (jsstring_eqb k key).
  - rewrite IH. destruct (jsstring_eqb k0 key) eqn:F; [|reflexivity].
    apply jsstring_eqb_eq in F. subst k0. now rewrite jsstring_eqb_sym, E.
Qed.

Lemma matches_Never (icase : bool) (s : jsstring) : matches icase Never s = false.
Proof. induction s; simpl; auto. Qed.

(** *** The matcher decides the language of the pattern *)

Section Matcher.

Variable icase : bool.

Lemma not_in_Never (s : jsstring) : ~ in_language icase Never s.
Proof. intro H. inversion H. Qed.

Lemma rep_of_nullable (r : regex) :
  in_language icase r [] ->
  forall lo hi, within lo hi = true -> in_language icase (Rep lo hi r) [].
Proof.
  intros Hr. induction lo as [|lo IH]; intros hi Hle; [constructor|].
  change (@nil code_unit) with (@nil code_unit ++ []).
  apply lang_rep_more; [| exact Hr |].
  - destruct hi as [[|h]|]; simpl in Hle; congruence.
  - apply IH. destruct hi as [[|h]|]; simpl in *; try reflexivity; try discriminate.
    destruct lo; [reflexivity|]. exact Hle.
Qed.

Lemma within_pred (lo : nat) (hi : option nat) :
  hi <> Some 0 -> within (pred lo) (pred_bound hi) = true -> within lo hi = true.
Proof.
  intros Hhi H. destruct hi as [[|h]|]; simpl in *; try reflexivity; try congruence.
  destruct lo; [reflexivity|]. exact H.
Qed.

Lemma nullable_sound (r : regex) : nullable r = true -> in_language icase r [].
Proof.
  induction r as [| |c|ranges|r1 IH1 r2 IH2|r1 IH1 r2 IH2|lo hi r IH]; simpl; intro H;
    try discriminate.
  - constructor.
  - apply andb_true_iff in H as [H1 H2].
    change (@nil code_unit) with (@nil code_unit ++ []). constructor; auto.
  - apply orb_true_iff in H as [H|H]; [apply lang_alt_l|apply lang_alt_r]; auto.
  - apply andb_true_iff in H as [Hle H].
    apply orb_true_iff in H as [H|H].
    + apply Nat.eqb_eq in H. subst. constructor.
    + apply rep_of_nullable; auto.
Qed.

Lemma nullable_complete (r : regex) (s : jsstring) :
  in_language icase r s -> s = [] -> nullable r = true.
Proof.
  induction 1 as [|c x H|ranges x H|r1 r2 s1 s2 _ IH1 _ IH2|r1 r2 s _ IH|r1 r2 s _ IH
                  |hi r|lo hi r s1 s2 Hhi _ IH1 _ IH2];
    intro Hs; simpl; try discriminate.
  - reflexivity.
  - apply app_eq_nil in Hs as [-> ->]. now rewrite IH1, IH2.
  - now rewrite IH.
  - rewrite IH by assumption. apply orb_true_r.
  - now destruct hi.
  - apply app_eq_nil in Hs as [-> ->].
    specialize (IH1 eq_refl). specialize (IH2 eq_refl). simpl in IH2.
    apply andb_true_iff in IH2 as [Hle _].
    rewrite (within_pred lo Hhi Hle), IH1. simpl. apply orb_true_r.
Qed.

Lemma in_cat (r1 r2 : regex) (s : jsstring) :
  in_language icase (cat r1 r2) s <-> in_language icase (Seq r1 r2) s.
Proof.
  destruct r1; simpl; try tauto.
  - split; intro H; [destruct (not_in_Never H)|].
    inversion H as [| | |? ? ? ? H1| | | |]; subst. destruct (not_in_Never H1).
  - split; intro H.
    + change s with ([] ++ s). constructor; [constructor|exact H].
    + inversion H as [| | |? ? ? ? H1 H2| | | |]; subst. inversion H1; subst. exact H2.
Qed.

Lemma in_alt (r1 r2 : regex) (s : jsstring) :
  in_language icase (alt r1 r2) s <-> in_language icase (Alt r1 r2) s.
Proof.
  assert (Hl : forall r, in_language icase r s <-> in_language icase (Alt Never r) s).
  { intro r. split; intro H; [now apply lang_alt_r|].
    inversion H as [| | | |? ? ? H1|? ? ? H1| |]; subst;
      [destruct (not_in_Never H1)|exact H1]. }
  assert (Hr : forall r, in_language icase r s <-> in_language icase (Alt r Never) s).
  { intro r. split; intro H; [now apply lang_alt_l|].
    inversion H as [| | | |? ? ? H1|? ? ? H1| |]; subst;
      [exact H1|destruct (not_in_Never H1)]. }
  destruct r1; simpl; try apply Hl; destruct r2; try apply Hr; tauto.
Qed.

Lemma deriv_Rep (x : code_unit) (lo : nat) (hi : option nat) (r : regex) :
  hi <> Some 0 ->
  deriv icase x (Rep lo hi r) = cat (deriv icase x r) (Rep (pred lo) (pred_bound hi) r).
Proof. intro H. destruct hi as [[|h]|]; simpl; congruence. Qed.

Lemma deriv_sound (x : code_unit) (r : regex) :
  forall s, in_language icase (deriv icase x r) s -> in_language icase r (x :: s).
Proof.
  induction r as [| |c|ranges|r1 IH1 r2 IH2|r1 IH1 r2 IH2|lo hi r IH]; simpl; intros s H.
  - destruct (not_in_Never H).
  - destruct (not_in_Never H).
  - destruct (unit_matches icase x c) eqn:E; [|destruct (not_in_Never H)].
    inversion H; subst. now constructor.
  - destruct (in_class icase x ranges) eqn:E; [|destruct (not_in_Never H)].
    inversion H; subst. now constructor.
  - apply in_alt in H.
    inversion H as [| | | |? ? ? H1|? ? ? H1| |]; subst.
    + apply in_cat in H1.
      inversion H1 as [| | |? ? s1 s2 Ha Hb| | | |]; subst.
      change (x :: s1 ++ s2) with ((x :: s1) ++ s2). constructor; auto.
    + destruct (nullable r1) eqn:E; [|destruct (not_in_Never H1)].
      change (x :: s) with ([] ++ x :: s). constructor; [now apply nullable_sound|auto].
  - apply in_alt in H.
    inversion H as [| | | |? ? ? H1|? ? ? H1| |]; subst;
      [apply lang_alt_l|apply lang_alt_r]; auto.
  - destruct hi as [[|h]|]; [destruct (not_in_Never H) | |];
      apply in_cat in H; inversion H as [| | |? ? s1 s2 Ha Hb| | | |]; subst;
      change (x :: s1 ++ s2) with ((x :: s1) ++ s2);
      (apply lang_rep_more; [congruence|auto|exact Hb]).
Qed.

(** The derivative of a repetition, along the derivation that the string is
    in its language. *)
Lemma deriv_complete_Rep (x : code_unit) (r : regex) :
  (forall s, in_language icase r (x :: s) -> in_language icase (deriv icase x r) s) ->
  forall R xs, in_language icase R xs ->
  forall lo hi s, R = Rep lo hi r -> xs = x :: s ->
  in_language icase (deriv icase x (Rep lo hi r)) s.
Proof.
  intros IHr R xs H.
  induction H as [|c y H|ranges y H|r1 r2 s1 s2 _ _ _ _|r1 r2 t _ _|r1 r2 t _ _
                  |hi0 r0|lo0 hi0 r0 s1 s2 Hhi H1 _ H2 IH2];
    intros lo hi s HR Hxs; try discriminate.
  injection HR as -> -> ->.
  rewrite deriv_Rep by assumption. apply in_cat.
  destruct s1 as [|y s1].
  - simpl in Hxs. subst s2.
    specialize (IH2 (pred lo) (pred_bound hi) s eq_refl eq_refl).
    assert (Hhi' : pred_bound hi <> Some 0).
    { intro E. rewrite E in IH2. simpl in IH2. destruct (not_in_Never IH2). }
    rewrite deriv_Rep in IH2 by assumption. apply in_cat in IH2.
    inversion IH2 as [| | |? ? t1 t2 Ha Hb| | | |]; subst.
    constructor; [exact Ha|].
    change t2 with ([] ++ t2). now apply lang_rep_more.
  - injection Hxs as -> <-. constructor; [now apply IHr|exact H2].
Qed.

Lemma deriv_complete (x : code_unit) (r : regex) :
  forall s, in_language icase r (x :: s) -> in_language icase (deriv icase x r) s.
Proof.
  induction r as [| |c|ranges|r1 IH1 r2 IH2|r1 IH1 r2 IH2|lo hi r IH]; intros s H.
  - inversion H.
  - inversion H.
  - inversion H as [|? ? E| | | | | |]; subst. simpl. rewrite E. constructor.
  - inversion H as [| |? ? E| | | | |]; subst. simpl. rewrite E. constructor.
  - inversion H as [| | |? ? s1 s2 Ha Hb| | | |]; subst. simpl. apply in_alt.
    match goal with E : _ ++ _ = _ :: _ |- _ => rename E into Hs end.
    destruct s1 as [|y s1].
    + simpl in Hs. subst s2. apply lang_alt_r.
      rewrite (nullable_complete Ha eq_refl). now apply IH2.
    + injection Hs as -> <-. apply lang_alt_l. apply in_cat. constructor; auto.
  - inversion H as [| | | |? ? ? Ha|? ? ? Hb| |]; subst; simpl; apply in_alt;
      [apply lang_alt_l|apply lang_alt_r]; auto.
  - now apply (deriv_complete_Rep IH H).
Qed.

(** A pattern between [^] and [$] *)
Theorem matches_correct (s : jsstring) :
  forall r, matches icase r s = true <-> in_language icase r s.
Proof.
  induction s as [|x s IH]; intro r; simpl.
  - split; [apply nullable_sound|intro H; now apply (nullable_complete H)].
  - rewrite IH. split; [apply deriv_sound|apply deriv_complete].
Qed.

Lemma matches_prefix_correct (s : jsstring) :
  forall r, matches_prefix icase r s = true
            <-> exists s1 s2, s = s1 ++ s2 /\ in_language icase r s1.
Proof.
  induction s as [|x s IH]; intro r; simpl.
  - rewrite orb_false_r. split.
    + intro H. exists [], []. split; [reflexivity|now apply nullable_sound].
    + intros (s1 & s2 & Hs & H). symmetry in Hs. apply app_eq_nil in Hs as [-> _].
      now apply (nullable_complete H).
  - rewrite orb_true_iff, IH. split.
    + intros [H|(s1 & s2 & -> & H)].
      * exists [], (x :: s). split; [reflexivity|now apply nullable_sound].
      * exists (x :: s1), s2. split; [reflexivity|now apply deriv_sound].
    + intros (s1 & s2 & Hs & H). destruct s1 as [|y s1].
      * left. now apply (nullable_complete H).
      * injection Hs as <- ->. right. exists s1, s2. split; [reflexivity|].
        now apply deriv_complete.
Qed.

(** A pattern without anchors *)
Theorem matches_somewhere_correct (r : regex) (s : jsstring) :
  matches_somewhere icase r s = true
  <-> exists s0 s1 s2, s = s0 ++ s1 ++ s2 /\ in_language icase r s1.
Proof.
  induction s as [|x s IH]; cbn [matches_somewhere].
  - rewrite orb_false_r, matches_prefix_correct. split.
    + intros (s1 & s2 & Hs & H). now exists [], s1, s2.
    + intros (s0 & s1 & s2 & Hs & H). symmetry in Hs.
      apply app_eq_nil in Hs as [-> Hs]. now exists s1, s2.
  - rewrite orb_true_iff, matches_prefix_correct, IH. split.
    + intros [(s1 & s2 & Hs & H)|(s0 & s1 & s2 & -> & H)].
      * now exists [], s1, s2.
      * now exists (x :: s0), s1, s2.
    + intros (s0 & s1 & s2 & Hs & H). destruct s0 as [|y s0].
      * left. now exists s1, s2.
      * injection Hs as <- ->. right. now exists s0, s1, s2.
Qed.

End Matcher.

(** A bounded repetition of a character class accepts exactly the strings of
    an admissible length made of characters of the class. *)
Lemma matches_Rep_Cls (icase : bool) (ranges : list (code_unit * code_unit)) (s : jsstring) :
  forall lo hi, lo <= hi ->
  matches icase (Rep lo (Some hi) (Cls ranges)) s
  = forallb (fun x => in_class icase x ranges) s
    && (lo <=? length s) && (length s <=? hi).
Proof.
  induction s as [|x s IH]; intros lo hi Hle.
  - simpl. rewrite orb_false_r.
    destruct (Nat.leb_spec lo hi); [|lia].
    destruct lo; simpl; reflexivity.
  - cbn [matches deriv forallb length].
    destruct hi as [|h].
    + rewrite matches_Never. destruct lo; [|lia]. simpl. now rewrite andb_false_r.
    + cbn [pred_bound pred].
      destruct (in_class icase x ranges); cbn [cat andb].
      * rewrite IH by lia.
        destruct lo as [|lo']; cbn [pred]; [|reflexivity].
        destruct (forallb _ s); simpl; [|reflexivity].
        now destruct (length s).
      * apply matches_Never.
Qed.

(** ** Doubles *)

Lemma f_div_self (s : bool) (m : positive) (e : Z) :
  f_div (S754_finite s m e) (S754_finite s m e) = f_one.
Proof.
  unfold f_div, SFdiv, SFdiv_core_binary.
  rewrite !Z.sub_diag.
  change (Z.min (fexp 53 1024 0) 0) with (-53)%Z.
  change (0 - -53)%Z with 53%Z. cbv beta iota zeta.
  rewrite Z.shiftl_mul_pow2 by lia.
  destruct (Z.div_eucl (Z.pos m * 2 ^ 53) (Z.pos m)) as [q r] eqn:E.
  assert (Hq : q = (Z.pos m * 2 ^ 53 / Z.pos m)%Z) by (unfold Z.div; now rewrite E).
  assert (Hr : r = ((Z.pos m * 2 ^ 53) mod Z.pos m)%Z) by (unfold Z.modulo; now rewrite E).
  rewrite Z.mul_comm, Z.div_mul in Hq by lia.
  rewrite Z.mul_comm, Z.mod_mul in Hr by lia.
  subst q r.
  assert (Hloc : new_location (Z.pos m) 0 = loc_Exact).
  { unfold new_location, new_location_even, new_location_odd.
    now destruct (Z.even (Z.pos m)). }
  rewrite Hloc. now destruct s.
Qed.

(** A quotient [x / x] is 1 or not a number. *)
Lemma f_div_same (x : float64) : f_div x x = f_one \/ f_div x x = S754_nan.
Proof.
  destruct x as [s|s| |s m e].
  - right. reflexivity.
  - right. reflexivity.
  - right. reflexivity.
  - left. apply f_div_self.
Qed.

Lemma f_gt_nan (x : float64) : f_gt S754_nan x = false.
Proof. now destruct x. Qed.

(** ** SensitiveValueClassifier *)

Lemma surrogate_halves_disjoint (c : code_unit) :
  is_high_surrogate c && is_low_surrogate c = false.
Proof.
  unfold is_high_surrogate, is_low_surrogate.
  destruct (N.leb_spec c 0xDBFF); destruct (N.leb_spec 0xDC00 c);
    rewrite ?andb_false_r, ?andb_false_l; try reflexivity; lia.
Qed.

(** A code unit repeated is as many code points: it never pairs with itself. *)
Lemma code_points_repeat (c : code_unit) (n : nat) :
  code_points (repeat c n) = repeat c n.
Proof.
  induction n as [|n IH]; [reflexivity|].
  destruct n as [|n]; [reflexivity|].
  change (repeat c (S (S n))) with (c :: c :: repeat c n).
  cbn [code_points]. rewrite surrogate_halves_disjoint.
  f_equal. exact IH.
Qed.

Lemma freq_of_repeat (c : N) (n k : nat) :
  fold_left (fun freq char => freq_incr char freq) (repeat c n) [(c, k)] = [(c, n + k)].
Proof.
  revert k; induction n as [|n IH]; intro k; [reflexivity|].
  simpl. rewrite N.eqb_refl, IH. do 2 f_equal. lia.
Qed.

Lemma Set_of_repeat (c : N) (n : nat) : Set_of (repeat c (S n)) = [c].
Proof.
  unfold Set_of. simpl.
  induction n as [|n IH]; [reflexivity|].
  simpl. rewrite N.eqb_refl. exact IH.
Qed.

(** The entropy of a repeated code unit: [0/0], or a number that is none
    if the count converts to none. *)
Lemma entropy_of_repeat (Math_log2 : float64 -> float64) (c : code_unit) (n : nat) :
  Math_log2 f_one = f_zero ->
  calculateNormalizedEntropy Math_log2 (repeat c (S n)) = S754_nan.
Proof.
  intro Hlog.
  unfold calculateNormalizedEntropy.
  rewrite code_points_repeat, Set_of_repeat, repeat_length.
  change (repeat c (S n)) with (c :: repeat c n).
  cbn [fold_left freq_incr]. rewrite freq_of_repeat.
  cbn [fold_left snd length Nat.eqb].
  replace (n + 1) with (S n) by lia.
  change (float_of_nat 1) with f_one. rewrite Hlog.
  destruct (f_div_same (float_of_nat (S n))) as [-> | ->].
  - rewrite Hlog. reflexivity.
  - reflexivity.
Qed.

Lemma between_singleton (x a : code_unit) : between x (a, a) = N.eqb x a.
Proof.
  unfold between; cbn [fst snd].
  destruct (N.eqb_spec x a) as [->|Hne].
  - now rewrite N.leb_refl.
  - destruct (N.leb_spec a x); destruct (N.leb_spec x a); try reflexivity; lia.
Qed.

Lemma in_class_base64url (x : code_unit) :
  in_class false x [upper_; lower_; digit_; one "_"; one "-"] = is_key_char x.
Proof.
  change (in_class false x [(65, 90); (97, 122); (48, 57); (95, 95); (45, 45)]%N
          = is_key_char x).
  unfold in_class. cbn [existsb andb]. rewrite !orb_false_r, !between_singleton.
  unfold between, is_key_char; cbn [fst snd].
  now rewrite !orb_assoc.
Qed.

Lemma test_generic_api_key (s : jsstring) :
  test GENERIC_API_KEY_PATTERN s
  = forallb is_key_char s && (16 <=? length s) && (length s <=? 128).
Proof.
  unfold test, GENERIC_API_KEY_PATTERN, value_pattern, from_to, base64url.
  cbn [anchored ignoreCase body].
  rewrite matches_Rep_Cls by lia.
  do 2 f_equal. induction s as [|x s IH]; [reflexivity|].
  cbn [forallb]. now rewrite in_class_base64url, IH.
Qed.

(** C5. Every value that is not a string is classified not sensitive, and so
    is every string of fewer than 8 code units, whatever it holds. *)
Theorem isSensitiveValue_non_string_or_short (Math_log2 : float64 -> float64) :
  (forall v : value, is_string v = false -> isSensitiveValue Math_log2 v = false)
  /\ (forall s : jsstring, length s < 8 -> isSensitiveValue Math_log2 (Str s) = false).
Proof.
  split.
  - intros v Hv. destruct v; try reflexivity. discriminate Hv.
  - intros s Hs. unfold isSensitiveValue.
    destruct (Nat.ltb_spec (length s) 8); [reflexivity | lia].
Qed.

Lemma isSensitiveValue_non_string_or_short_witness :
  isSensitiveValue log2_of_power_of_two (Number (lit "12345678901234567890")) = false
  /\ isSensitiveValue log2_of_power_of_two (Arr [Str example_uuid]) = false
  /\ isSensitiveValue log2_of_power_of_two (Str (lit "sk-1234")) = false.
Proof.
  destruct (isSensitiveValue_non_string_or_short log2_of_power_of_two) as [Hother Hshort].
  split; [|split].
  - apply Hother. reflexivity.
  - apply Hother. reflexivity.
  - apply Hshort. simpl. lia.
Defined.

(** C10. A string of 16 to 128 characters, all of them in [[A-Za-z0-9_-]],
    matches the generic API-key pattern and is classified sensitive; the
    entropy of the string is never looked at. *)
Theorem generic_api_key_is_sensitive (Math_log2 : float64 -> float64) (s : jsstring) :
  forallb is_key_char s = true ->
  16 <= length s <= 128 ->
  test GENERIC_API_KEY_PATTERN s = true
  /\ isSensitiveValue Math_log2 (Str s) = true.
Proof.
  intros Hchars [Hlo Hhi].
  assert (Htest : test GENERIC_API_KEY_PATTERN s = true).
  { rewrite test_generic_api_key, Hchars.
    destruct (Nat.leb_spec 16 (length s)); [|lia].
    destruct (Nat.leb_spec (length s) 128); [reflexivity|lia]. }
  split; [exact Htest|].
  unfold isSensitiveValue, SENSITIVE_VALUE_PATTERNS.
  destruct (Nat.ltb_spec (length s) 8); [lia|].
  cbn [existsb]. rewrite Htest, orb_true_r. reflexivity.
Qed.

(** Twenty times the letter a. *)
Lemma generic_api_key_is_sensitive_witness :
  test GENERIC_API_KEY_PATTERN (lit "aaaaaaaaaaaaaaaaaaaa") = true
  /\ isSensitiveValue log2_of_power_of_two (Str (lit "aaaaaaaaaaaaaaaaaaaa")) = true.
Proof.
  apply generic_api_key_is_sensitive.
  - reflexivity.
  - simpl. lia.
Defined.

(** C3, as stated, fails: twenty times the letter a is a string of one
    distinct character, and it is classified sensitive, by the generic
    API-key pattern, whatever [Math.log2] computes. *)
Lemma repeated_letter_is_sensitive :
  length (Set_of (code_points (repeat 97%N 20))) = 1
  /\ (forall Math_log2 : float64 -> float64,
        isSensitiveValue Math_log2 (Str (repeat 97%N 20)) = true).
Proof.
  split.
  - reflexivity.
  - intro Math_log2. unfold isSensitiveValue.
    change (length (repeat 97%N 20) <? 8) with false.
    change (existsb (fun pattern => test pattern (repeat 97%N 20)) SENSITIVE_VALUE_PATTERNS)
      with (test_any_signature (repeat 97%N 20)).
    assert (H : test_any_signature (repeat 97%N 20) = true) by (vm_compute; reflexivity).
    now rewrite H.
Qed.

(** C3, amended. A string made of one code unit repeated, which matches none
    of the format signatures, is classified not sensitive: its normalized
    entropy is the quotient 0/0, not a number, and no number compares above
    0.65 with it.  ([Math.log2(1)] is [+0] in every conforming engine.) *)
Theorem repeated_unit_without_signature_not_sensitive
  (Math_log2 : float64 -> float64) (c : code_unit) (n : nat) :
  Math_log2 f_one = f_zero ->
  existsb (fun pattern => test pattern (repeat c n)) SENSITIVE_VALUE_PATTERNS = false ->
  isSensitiveValue Math_log2 (Str (repeat c n)) = false.
Proof.
  intros Hlog Hnone.
  unfold isSensitiveValue. rewrite Hnone.
  destruct (length (repeat c n) <? 8); [reflexivity|].
  destruct (16 <? length (repeat c n)) eqn:Hlong; [|reflexivity].
  destruct n as [|n]; [discriminate Hlong|].
  rewrite entropy_of_repeat by exact Hlog.
  apply f_gt_nan.
Qed.

(** Twenty spaces. *)
Lemma repeated_unit_without_signature_not_sensitive_witness :
  isSensitiveValue log2_of_power_of_two (Str (repeat 32%N 20)) = false.
Proof.
  apply repeated_unit_without_signature_not_sensitive.
  - reflexivity.
  - vm_compute. reflexivity.
Defined.

(** The entropy step alone does not make one distinct character harmless: a
    character outside the basic plane is two code units, its frequency is
    half the length, and the quotient by [log2 1 = 0] is infinite. *)
Lemma repeated_astral_character_is_sensitive :
  code_points (nine_astral) = repeat 0x1F600%N 9
  /\ test_any_signature (nine_astral) = false
  /\ calculateNormalizedEntropy log2_of_power_of_two (nine_astral)
     = S754_infinity false
  /\ isSensitiveValue log2_of_power_of_two (Str (nine_astral)) = true.
Proof. vm_compute. repeat split. Qed.

(** C4, as stated, fails on its last part: the key [sessionId] is a
    sensitive key, by the pattern [/session/i]. *)
Lemma sessionId_is_a_sensitive_key :
  isSensitiveKey (lit "sessionId") = true
  /\ test (key_pattern (txt "session")) (lit "sessionId") = true
  /\ In (key_pattern (txt "session")) SENSITIVE_KEY_PATTERNS.
Proof.
  split; [|split].
  - vm_compute. reflexivity.
  - vm_compute. reflexivity.
  - unfold SENSITIVE_KEY_PATTERNS. apply in_map. simpl. tauto.
Qed.

Lemma example_uuid_is_sensitive (Math_log2 : float64 -> float64) :
  isSensitiveValue Math_log2 (Str example_uuid) = true.
Proof.
  unfold isSensitiveValue.
  change (length example_uuid <? 8) with false.
  change (existsb (fun pattern => test pattern example_uuid) SENSITIVE_VALUE_PATTERNS)
    with (test_any_signature example_uuid).
  assert (H : test_any_signature example_uuid = true) by (vm_compute; reflexivity).
  now rewrite H.
Qed.

(** Under [hide-sensitive], a one-entry map whose value or key is sensitive
    comes back with the redaction marker under the same key. *)
Lemma filterSensitiveStorage_singleton
  (Math_log2 : float64 -> float64) (settings : Settings) (key : jsstring) (v : value) :
  key <> lit "__proto__" ->
  isSensitiveKey key || isSensitiveValue Math_log2 v = true ->
  filterSensitiveStorage Math_log2 (with_mode "hide-sensitive" settings) (Obj [(key, v)])
  = Obj [(key, Str REDACTED)].
Proof.
  intros Hkey Hsensitive.
  unfold filterSensitiveStorage, must_redact.
  cbn [truthy is_object negb orb Object_entries fold_left fst snd
       sensitiveDataMode with_mode].
  rewrite Hsensitive.
  change (jsstring_eqb (lit "hide-sensitive") (lit "hide-all")) with false.
  change (jsstring_eqb (lit "hide-sensitive") (lit "hide-sensitive")) with true.
  cbn [orb andb]. unfold assign.
  rewrite (jsstring_eqb_neq Hkey). reflexivity.
Qed.

(** C4, amended. Under [hide-sensitive] the storage map
    [{sessionId: "deadbeef-dead-beef-dead-beefdeadbeef"}] comes back with the
    redaction marker under [sessionId].  The value has the UUID shape and is
    classified sensitive on its own; the key is a sensitive key as well. *)
Theorem filterSensitiveStorage_sessionId_example
  (Math_log2 : float64 -> float64) (settings : Settings) :
  filterSensitiveStorage Math_log2 (with_mode "hide-sensitive" settings)
    (Obj [(lit "sessionId", Str example_uuid)])
  = Obj [(lit "sessionId", Str (lit "[SENSITIVE DATA REDACTED]"))]
  /\ test UUID_PATTERN example_uuid = true
  /\ isSensitiveValue Math_log2 (Str example_uuid) = true
  /\ isSensitiveKey (lit "sessionId") = true.
Proof.
  split; [|split; [|split]].
  - apply filterSensitiveStorage_singleton.
    + discriminate.
    + now rewrite example_uuid_is_sensitive, orb_true_r.
  - vm_compute. reflexivity.
  - apply example_uuid_is_sensitive.
  - vm_compute. reflexivity.
Qed.

(** The value alone decides: under any key but [__proto__], sensitive or
    not, the UUID is redacted. *)
Lemma filterSensitiveStorage_redacts_uuid_under_any_key
  (Math_log2 : float64 -> float64) (settings : Settings) (key : jsstring) :
  key <> lit "__proto__" ->
  filterSensitiveStorage Math_log2 (with_mode "hide-sensitive" settings)
    (Obj [(key, Str example_uuid)])
  = Obj [(key, Str REDACTED)].
Proof.
  intro Hkey. apply filterSensitiveStorage_singleton; [exact Hkey|].
  now rewrite example_uuid_is_sensitive, orb_true_r.
Qed.

(** ** PayloadBounder: truncateStringsInData *)

Section TruncateProperties.

Context {V : Type} (inspect_data : V -> shape V).

(** The function satisfies the recursive equation the source is written as. *)
Lemma truncateStringsInData_as_written (data : V) (maxLength depth : nat) :
  truncateStringsInData inspect_data data maxLength depth
  = if 100 <? depth then Str MAX_DEPTH_EXCEEDED
    else
      match inspect_data data with
      | IsString s =>
          if maxLength <? length s
          then Str (substring0 maxLength s ++ TRUNCATED)
          else Str s
      | IsArray items =>
          Arr (map (fun item =>
                      truncateStringsInData inspect_data item maxLength (depth + 1))
                   items)
      | IsObject entries =>
          Obj (fold_left
                 (fun result kv =>
                    assign result (fst kv)
                      (truncateStringsInData inspect_data (snd kv) maxLength (depth + 1)))
                 entries [])
      | IsOther p => of_primitive p
      end.
Proof.
  simp truncateStringsInData.
  destruct (le_lt_dec depth 100) as [Hle|Hlt]; simpl.
  - destruct (Nat.ltb_spec 100 depth); [lia|].
    destruct (inspect_data data); reflexivity.
  - destruct (Nat.ltb_spec 100 depth); [reflexivity|lia].
Qed.

Lemma truncateStringsInData_beyond (data : V) (maxLength depth : nat) :
  100 < depth ->
  truncateStringsInData inspect_data data maxLength depth = Str MAX_DEPTH_EXCEEDED.
Proof.
  intro H. rewrite truncateStringsInData_as_written.
  destruct (Nat.ltb_spec 100 depth); [reflexivity|lia].
Qed.

End TruncateProperties.

(** *** Objects rebuilt by assignment *)

Lemma define_property_values (P : value -> Prop) (entries : list (jsstring * value))
  (key : jsstring) (v : value) :
  P v -> Forall P (map snd entries) -> Forall P (map snd (define_property entries key v)).
Proof.
  intros Hv. induction entries as [|[k w] rest IH]; simpl; intro H.
  - constructor; [exact Hv|constructor].
  - inversion H as [|? ? Hw Hrest]; subst.
    destruct (jsstring_eqb k key); simpl; constructor; auto.
Qed.

Lemma assign_values (P : value -> Prop) (entries : list (jsstring * value))
  (key : jsstring) (v : value) :
  P v -> Forall P (map snd entries) -> Forall P (map snd (assign entries key v)).
Proof.
  intros Hv H. unfold assign.
  destruct (jsstring_eqb key (lit "__proto__")); [exact H|].
  now apply define_property_values.
Qed.

(** Every value of the rebuilt object is the image of a value of the source. *)
Lemma fold_assign_values {V : Type} (P : value -> Prop) (f : V -> value)
  (entries : list (jsstring * V)) :
  (forall kv, In kv entries -> P (f (snd kv))) ->
  forall acc, Forall P (map snd acc) ->
  Forall P (map snd (fold_left (fun result kv => assign result (fst kv) (f (snd kv)))
                               entries acc)).
Proof.
  induction entries as [|kv rest IH]; intros Hall acc Hacc; simpl; [exact Hacc|].
  apply IH.
  - intros kv' Hin. apply Hall. now right.
  - apply assign_values; [|exact Hacc]. apply Hall. now left.
Qed.

Lemma distinct_NoDup (keys : list jsstring) : distinct keys = true <-> NoDup keys.
Proof.
  induction keys as [|k rest IH]; simpl.
  - split; [constructor|reflexivity].
  - rewrite andb_true_iff, negb_true_iff, IH. split.
    + intros [Hk Hrest]. constructor; [|exact Hrest].
      intro Hin. apply not_true_iff_false in Hk. apply Hk.
      apply existsb_exists. exists k. split; [exact Hin|apply jsstring_eqb_refl].
    + intro H. inversion H as [|? ? Hk Hrest]; subst. split; [|exact Hrest].
      apply not_true_iff_false. intro Hex.
      apply existsb_exists in Hex as (k' & Hin & Heq).
      apply jsstring_eqb_eq in Heq. subst k'. contradiction.
Qed.

Lemma define_property_fresh (entries : list (jsstring * value)) (key : jsstring) (v : value) :
  ~ In key (map fst entries) -> define_property entries key v = entries ++ [(key, v)].
Proof.
  induction entries as [|[k w] rest IH]; simpl; intro Hnot; [reflexivity|].
  destruct (jsstring_eqb k key) eqn:E.
  - apply jsstring_eqb_eq in E. subst. exfalso. apply Hnot. now left.
  - rewrite IH; [reflexivity|]. intro Hin. apply Hnot. now right.
Qed.

(** An object whose keys are distinct is rebuilt entry by entry, in order,
    without its [__proto__] entry. *)
Lemma fold_assign_distinct {V : Type} (f : V -> value) (entries : list (jsstring * V)) :
  forall acc,
  NoDup (map fst acc ++ map fst entries) ->
  fold_left (fun result kv => assign result (fst kv) (f (snd kv))) entries acc
  = acc ++ map (fun kv => (fst kv, f (snd kv)))
               (filter (fun kv => not_proto (fst kv)) entries).
Proof.
  induction entries as [|[k x] rest IH]; intros acc Hnd; simpl.
  - now rewrite app_nil_r.
  - simpl in Hnd. unfold assign, not_proto at 1. cbn [fst snd].
    destruct (jsstring_eqb k (lit "__proto__")); cbn [negb].
    + apply IH. now apply NoDup_remove_1 in Hnd.
    + rewrite define_property_fresh.
      * rewrite IH.
        -- now rewrite <- app_assoc.
        -- rewrite map_app, <- app_assoc. exact Hnd.
      * apply NoDup_remove_2 in Hnd. intro Hin. apply Hnd.
        apply in_or_app. now left.
Qed.

(** *** Positions of the datum and of the result *)




Section Rebuilt.

Context {V : Type} (f : V -> value).




End Rebuilt.




Section DepthGuard.

Context {V : Type} (inspect_data : V -> shape V) (maxLength : nat).





End DepthGuard.



(** The key [__proto__] is lost, with whatever lies under it. *)
Lemma truncateStringsInData_drops_proto :
  truncateStringsInData shape_of
    (Obj [(lit "a", Number (lit "1")); (lit "__proto__", nested_arrays 150)]) 500 0
  = Obj [(lit "a", Number (lit "1"))].
Proof. vm_compute. reflexivity. Qed.

(** ** PayloadBounder: processArrayWithSizeLimit *)

Lemma join_length (sep : jsstring) (parts : list jsstring) :
  length (join sep parts)
  = list_sum (map (fun p => length p) parts) + length sep * pred (length parts).
Proof.
  induction parts as [|p rest IH]; [simpl; lia|].
  destruct rest as [|q rest].
  - simpl. lia.
  - change (join sep (p :: q :: rest)) with (p ++ sep ++ join sep (q :: rest)).
    rewrite !length_app, IH. simpl. lia.
Qed.

(** [JSON.stringify] of an array: its items, a comma between two of them,
    and the two brackets. *)
Lemma serialized_size_Arr (items : list value) :
  serialized_size (Arr items) = total_size items + pred (length items) + 2.
Proof.
  unfold total_size, serialized_size. cbn [SerializeJSON].
  rewrite !length_app, join_length, !length_map, map_map.
  change (length (lit "[")) with 1. change (length (lit "]")) with 1.
  change (length (lit ",")) with 1. lia.
Qed.

Section BoundProperties.

Variable maxTotalSize : nat.
Variable f : value -> value.

(** The loop returns, with a prefix of the transformed items appended: each
    item kept fitted in the budget when it was added, and the first one left
    out did not. *)
Lemma processArray_loop_spec (items : list value) :
  forall currentSize result,
  exists kept dropped,
    processArray_loop stringify_total maxTotalSize (fun item => Normal (f item))
      items currentSize result
    = Normal (result ++ kept)
    /\ map f items = kept ++ dropped
    /\ (kept <> [] -> currentSize + total_size kept <= maxTotalSize)
    /\ match dropped with
       | [] => True
       | trigger :: _ =>
           maxTotalSize < currentSize + total_size kept + serialized_size trigger
       end.
Proof.
  induction items as [|item rest IH]; intros currentSize result.
  - exists [], []. simpl. rewrite app_nil_r. repeat split; auto. congruence.
  - cbn [processArray_loop bind calculateObjectSize stringify_total].
    fold (serialized_size (f item)).
    destruct (Nat.ltb_spec maxTotalSize (currentSize + serialized_size (f item)))
      as [Hover|Hfits].
    + exists [], (f item :: map f rest). simpl. rewrite app_nil_r.
      repeat split; auto; [congruence|unfold total_size; simpl; lia].
    + destruct (IH (currentSize + serialized_size (f item)) (result ++ [f item]))
        as (kept & dropped & Hrun & Hsplit & Hbound & Htrigger).
      exists (f item :: kept), dropped.
      split; [|split; [|split]].
      * rewrite Hrun, <- app_assoc. reflexivity.
      * simpl. now rewrite Hsplit.
      * intros _. unfold total_size in *. cbn [map list_sum].
        destruct kept as [|k kept']; [simpl; lia|].
        assert (Hk : k :: kept' <> []) by discriminate.
        specialize (Hbound Hk). simpl in *. lia.
      * destruct dropped as [|trigger dropped']; [exact I|].
        unfold total_size in *. simpl. lia.
Qed.

End BoundProperties.

(** C1, as stated, fails. Five empty strings bounded to 8: four are kept,
    their serialization [["","","",""]] has 13 characters, and the budget
    plus the size of the item that stopped the loop is 10.  And when the
    first item does not fit, everything is dropped: the dropped items are
    the whole input, not a strict suffix of it. *)
Lemma serialized_result_exceeds_budget_plus_trigger :
  processArrayWithSizeLimit stringify_total (repeat (Str []) 5) 8 (fun item => Normal item)
  = Normal (repeat (Str []) 4)
  /\ nth_error (repeat (Str []) 5) 4 = Some (Str [])
  /\ 8 + serialized_size (Str []) < serialized_size (Arr (repeat (Str []) 4))
  /\ processArrayWithSizeLimit stringify_total [Str (lit "abc")] 3 (fun item => Normal item)
     = Normal [].
Proof. vm_compute. repeat split; lia. Qed.

(** C1, amended. [processArrayWithSizeLimit] returns [kept], a prefix of the
    transformed items; what it drops is the rest, a suffix (possibly empty,
    possibly everything).  The sizes of the items kept add up to at most the
    budget, the first item dropped is the first that would have pushed the
    total over it, and the serialization of the result adds two brackets and
    a comma between items to that total. *)
Theorem processArrayWithSizeLimit_keeps_a_prefix_within_budget
  (array : list value) (maxTotalSize : nat) (f : value -> value) :
  exists kept dropped : list value,
    processArrayWithSizeLimit stringify_total array maxTotalSize (fun item => Normal (f item))
    = Normal kept
    /\ map f array = kept ++ dropped
    /\ total_size kept <= maxTotalSize
    /\ match dropped with
       | [] => True
       | trigger :: _ => maxTotalSize < total_size kept + serialized_size trigger
       end
    /\ serialized_size (Arr kept) = total_size kept + pred (length kept) + 2.
Proof.
  destruct (processArray_loop_spec maxTotalSize f array 0 [])
    as (kept & dropped & Hrun & Hsplit & Hbound & Htrigger).
  exists kept, dropped.
  split; [exact Hrun|]. split; [exact Hsplit|]. split; [|split].
  - destruct kept as [|k kept']; [unfold total_size; simpl; lia|].
    apply Hbound. discriminate.
  - exact Htrigger.
  - apply serialized_size_Arr.
Qed.

(** ** PayloadBounder: processJsonString *)

(** A string bounded as one opaque datum. *)
Lemma truncateStringsInData_string (s : jsstring) (maxLength : nat) :
  truncateStringsInData shape_of (Str s) maxLength 0
  = Str (if maxLength <? length s then substring0 maxLength s ++ TRUNCATED else s).
Proof.
  rewrite truncateStringsInData_as_written.
  change (100 <? 0) with false. cbn [shape_of].
  now destruct (maxLength <? length s).
Qed.

(** C6, as stated, fails on its second part.  On an engine that refuses to
    build a string of more than 8 characters, the text [[1234567]] parses,
    its item is measured, and serializing the bounded array throws; with
    [maxLen] 3 the function returns the cut FOLLOWED BY the truncation
    marker, not the cut alone. *)
Lemma processJsonString_failure_appends_marker :
  parse_and_log parse_one_array (stringify_limited 8) (lit "[1234567]")
  = Normal (Arr [Number (lit "1234567")])
  /\ process_parsed (stringify_limited 8) default_settings (Arr [Number (lit "1234567")]) 3
     = Throw (RangeError (lit "Invalid string length"))
  /\ processJsonString parse_one_array (stringify_limited 8) default_settings
       (lit "[1234567]") 3
     = Str (lit "[12... (truncated)")
  /\ processJsonString parse_one_array (stringify_limited 8) default_settings
       (lit "[1234567]") 3
     <> Str (substring0 3 (lit "[1234567]")).
Proof.
  split; [|split; [|split]]; try (vm_compute; reflexivity).
  vm_compute. discriminate.
Qed.

(** C6, amended.  The inner [try] holds [JSON.parse] and a log statement.
    It fails when [JSON.parse] throws on the text, when the text parses to
    [null] ([Object.keys(null)] throws), and when [JSON.stringify] of the
    keys throws.  Whenever it fails, [processJsonString] returns what
    [truncateStringsInData] makes of the text as one string: the text, or
    its first [maxLen] characters and the truncation marker.  If a failure
    occurs after the inner [try], it returns the first [maxLen] characters
    of the text followed by the marker ["... (truncated)"], whatever the
    length of the text.  Otherwise it returns the processed text. *)
Theorem processJsonString_fallbacks
  (JSON_parse : jsstring -> completion value)
  (JSON_stringify : value -> completion jsstring)
  (settings : Settings) (text : jsstring) (maxLen : nat) :
  ((forall e, JSON_parse text = Throw e ->
      parse_and_log JSON_parse JSON_stringify text = Throw e)
   /\ (JSON_parse text = Normal Null ->
       exists e, parse_and_log JSON_parse JSON_stringify text = Throw e)
   /\ (forall parsed keys e,
         JSON_parse text = Normal parsed ->
         Object_keys parsed = Normal keys ->
         JSON_stringify (Arr (map Str keys)) = Throw e ->
         parse_and_log JSON_parse JSON_stringify text = Throw e))
  /\ (forall e, parse_and_log JSON_parse JSON_stringify text = Throw e ->
        processJsonString JSON_parse JSON_stringify settings text maxLen
        = truncateStringsInData shape_of (Str text) maxLen 0
        /\ processJsonString JSON_parse JSON_stringify settings text maxLen
           = Str (if maxLen <? length text
                  then substring0 maxLen text ++ lit "... (truncated)"
                  else text))
  /\ (forall parsed e,
        parse_and_log JSON_parse JSON_stringify text = Normal parsed ->
        process_parsed JSON_stringify settings parsed maxLen = Throw e ->
        processJsonString JSON_parse JSON_stringify settings text maxLen
        = Str (substring0 maxLen text ++ lit "... (truncated)"))
  /\ (forall parsed result,
        parse_and_log JSON_parse JSON_stringify text = Normal parsed ->
        process_parsed JSON_stringify settings parsed maxLen = Normal result ->
        processJsonString JSON_parse JSON_stringify settings text maxLen = result).
Proof.
  split; [split; [|split]|split; [|split]].
  - intros e Hparse. unfold parse_and_log. now rewrite Hparse.
  - intro Hparse. unfold parse_and_log. rewrite Hparse. eexists. reflexivity.
  - intros parsed keys e Hparse Hkeys Hlog. unfold parse_and_log.
    rewrite Hparse. cbn [bind]. rewrite Hkeys. cbn [bind]. now rewrite Hlog.
  - intros e Hinner.
    assert (H : processJsonString JSON_parse JSON_stringify settings text maxLen
                = truncateStringsInData shape_of (Str text) maxLen 0).
    { unfold processJsonString, processJsonString_body. now rewrite Hinner. }
    split; [exact H|]. rewrite H. apply truncateStringsInData_string.
  - intros parsed e Hparsed Hlater.
    unfold processJsonString, processJsonString_body.
    rewrite Hparsed, Hlater. reflexivity.
  - intros parsed result Hparsed Hresult.
    unfold processJsonString, processJsonString_body.
    rewrite Hparsed, Hresult. reflexivity.
Qed.

(** A text that is not JSON; the text [null] between spaces; a text whose
    keys the engine with a limit of 3 cannot log; the engine with a limit
    of 8, failing after the inner [try]. *)
Lemma processJsonString_fallbacks_witness :
  processJsonString parse_one_array stringify_total default_settings
    (lit "GET /index.html") 7
  = Str (lit "GET /in... (truncated)")
  /\ processJsonString parse_padded_null stringify_total default_settings (lit " null ") 20
     = Str (lit " null ")
  /\ processJsonString parse_one_array (stringify_limited 3) default_settings
       (lit "[1234567]") 20
     = Str (lit "[1234567]")
  /\ processJsonString parse_one_array (stringify_limited 8) default_settings
       (lit "[1234567]") 3
     = Str (lit "[12... (truncated)").
Proof.
  destruct (processJsonString_fallbacks parse_one_array stringify_total default_settings
              (lit "GET /index.html") 7) as [[Hthrows _] [Hinner _]].
  destruct (processJsonString_fallbacks parse_padded_null stringify_total default_settings
              (lit " null ") 20) as [(_ & Hnull & _) [Hinner_null _]].
  destruct (processJsonString_fallbacks parse_one_array (stringify_limited 3)
              default_settings (lit "[1234567]") 20) as [(_ & _ & Hlog) [Hinner_log _]].
  destruct (processJsonString_fallbacks parse_one_array (stringify_limited 8)
              default_settings (lit "[1234567]") 3) as (_ & _ & Hlater & _).
  split; [|split; [|split]].
  - apply (Hinner (SyntaxError (lit "Unexpected token"))).
    apply Hthrows. reflexivity.
  - destruct (Hnull eq_refl) as [e He]. apply (Hinner_null e He).
  - apply (Hinner_log (RangeError (lit "Invalid string length"))).
    apply (Hlog (Arr [Number (lit "1234567")]) [lit "0"]); reflexivity.
  - apply (Hlater (Arr [Number (lit "1234567")]) (RangeError (lit "Invalid string length")));
      vm_compute; reflexivity.
Defined.

(** The text [null] parses, and is nevertheless handled as text that does
    not: [Object.keys(null)] throws inside the inner [try]. *)
Lemma processJsonString_null (parse : jsstring -> completion value) (settings : Settings)
  (maxLen : nat) :
  parse (lit "null") = Normal Null ->
  processJsonString parse stringify_total settings (lit "null") maxLen
  = truncateStringsInData shape_of (Str (lit "null")) maxLen 0.
Proof.
  intro H. unfold processJsonString, processJsonString_body, parse_and_log.
  now rewrite H.
Qed.

(** ** SessionManager *)

(** *** Identity validation *)

(** One run of [validateServerIdentity]: a verdict that does not depend on
    the session, the session as it was, one notification. *)
Lemma validateServerIdentity_cases (settings : Settings) (outcome : fetch_outcome)
  (st : session) :
  exists (isValid : bool) (n : notification),
    (forall st', validateServerIdentity settings outcome st' = (isValid, st', [SendMessage n])).
Proof.
  unfold validateServerIdentity, connection_error, validation_failed.
  destruct outcome as [ok status [server|e]|e]; [destruct ok| |];
    try (do 2 eexists; intro; reflexivity).
  - destruct (read_signature server) as [signature|e]; [|do 2 eexists; intro; reflexivity].
    destruct (strictly_equals signature EXPECTED_SIGNATURE); cbn [negb];
      [|do 2 eexists; intro; reflexivity].
    destruct (identity_log_line server); do 2 eexists; intro; reflexivity.
  - destruct ok; do 2 eexists; intro; reflexivity.
Qed.

(** The outcome of the validation does not depend on the session. *)
Lemma validateServerIdentity_pure (settings : Settings) (outcome : fetch_outcome)
  (st st' : session) :
  result_of (validateServerIdentity settings outcome) st
  = result_of (validateServerIdentity settings outcome) st'
  /\ state_after (validateServerIdentity settings outcome) st = st.
Proof.
  destruct (validateServerIdentity_cases settings outcome st) as (isValid & n & H).
  unfold result_of, state_after. now rewrite !H.
Qed.

Lemma strictly_equals_other (v : value) (s : jsstring) :
  v <> Str s -> strictly_equals (Some v) s = false.
Proof.
  intro H. destruct v; try reflexivity. simpl.
  apply jsstring_eqb_neq. congruence.
Qed.

(** [setupWebSocket] after a failed validation: no socket, one retry. *)
Lemma setupWebSocket_resume_invalid (settings : Settings) (ctor : option exn) (st : session) :
  setupWebSocket_resume settings false ctor st
  = (tt,
     Session (ws st) (Some (next_handle st)) (heartbeatInterval st) true
             (intentionalClosure st) (S (next_handle st)),
     [SetTimeout (next_handle st) Call_setupWebSocket WS_RECONNECT_DELAY]).
Proof. destruct st. reflexivity. Qed.

Lemma setupWebSocket_start_trace (st : session) :
  ws (state_after setupWebSocket_start st) = None
  /\ opened_sockets (trace_of setupWebSocket_start st) = []
  /\ scheduled_reconnects (trace_of setupWebSocket_start st) = [].
Proof. destruct st as [[s|] [t|] [h|] r i n]; repeat split. Qed.

Lemma validateServerIdentity_trace (settings : Settings) (outcome : fetch_outcome)
  (st : session) :
  opened_sockets (trace_of (validateServerIdentity settings outcome) st) = []
  /\ scheduled_reconnects (trace_of (validateServerIdentity settings outcome) st) = [].
Proof.
  destruct (validateServerIdentity_cases settings outcome st) as (isValid & n & H).
  unfold trace_of. rewrite H. split; reflexivity.
Qed.

(** A body that carries a signature other than the expected one. *)
Lemma validateServerIdentity_wrong_signature (settings : Settings) (status : nat)
  (server signature : value) (st : session) :
  get_property server (lit "signature") = Some signature ->
  signature <> Str EXPECTED_SIGNATURE ->
  validateServerIdentity settings (Responds true status (BodyJson server)) st
  = (false, st, [validation_failed settings "invalid_signature" None None]).
Proof.
  intros Hfield Hwrong. unfold validateServerIdentity.
  cbn [negb].
  assert (Hread : read_signature server = Normal (Some signature)).
  { destruct server; try discriminate Hfield; simpl; now rewrite Hfield. }
  rewrite Hread, (strictly_equals_other Hwrong). reflexivity.
Qed.

(** One call of [setupWebSocket] whose validation fails, nothing else
    running at its [await]. *)
Lemma setupWebSocket_invalid (settings : Settings) (outcome : fetch_outcome)
  (ctor : option exn) (st st' : session) :
  result_of (validateServerIdentity settings outcome) st' = false ->
  opened_sockets (trace_of (setupWebSocket settings outcome ctor) st) = []
  /\ scheduled_reconnects (trace_of (setupWebSocket settings outcome ctor) st)
     = [WS_RECONNECT_DELAY]
  /\ ws (state_after (setupWebSocket settings outcome ctor) st) = None
  /\ reconnectAfterValidation (state_after (setupWebSocket settings outcome ctor) st) = true.
Proof.
  intro Hinvalid.
  destruct (setupWebSocket_start_trace st) as (Hws & Hopen1 & Hsched1).
  unfold setupWebSocket, and_then, trace_of, state_after in *.
  destruct (setupWebSocket_start st) as [[u st1] t1]. cbn [fst snd] in *.
  pose proof (validateServerIdentity_pure settings outcome st1 st') as [Hres Hst].
  pose proof (validateServerIdentity_trace settings outcome st1) as [Hopen2 Hsched2].
  unfold result_of, trace_of, state_after in *.
  destruct (validateServerIdentity settings outcome st1) as [[isValid st2] t2].
  cbn [fst snd] in *. subst st2. rewrite Hinvalid in Hres. subst isValid.
  rewrite setupWebSocket_resume_invalid. cbn [fst snd ws reconnectAfterValidation].
  unfold opened_sockets, scheduled_reconnects in *.
  rewrite !flat_map_app, Hopen1, Hopen2, Hsched1, Hsched2.
  repeat split; assumption.
Qed.

(** C7, as stated, fails: a response with a failure status and a wrong
    signature in its body is reported with the reason [http_error]; the
    body is not read. *)
Lemma wrong_signature_on_http_error :
  get_property wrong_identity (lit "signature") = Some (Str (lit "not-the-connector"))
  /\ validateServerIdentity default_settings unavailable_response initial_session
     = (false, initial_session,
        [SendMessage (SERVER_VALIDATION_FAILED (lit "http_error") (Some 503) None
                        (lit "localhost") 3025)]).
Proof. split; reflexivity. Qed.

(** C7, amended.  A response with a success status whose body carries a
    signature other than the expected one makes [validateServerIdentity]
    return [false], with one notification of reason [invalid_signature]; a
    response with a failure status makes it return [false] with one
    notification of reason [http_error], whatever its body.  And a call of
    [setupWebSocket] whose validation returns [false] opens no socket and
    schedules exactly one retry after [WS_RECONNECT_DELAY]: before the
    [await] it opens and schedules nothing and sets [ws] to [null]; after
    it, in whatever state [st'] the tasks run meanwhile have left the
    variables, it starts the retry timer and raises
    [reconnectAfterValidation], and does not assign [ws].  So, nothing else
    running at the [await], [ws] is [null] when the call ends. *)
Theorem wrong_signature_never_connects (settings : Settings) :
  (forall (status : nat) (server signature : value) (st : session),
     get_property server (lit "signature") = Some signature ->
     signature <> Str (lit "mcp-browser-connector-24x7") ->
     validateServerIdentity settings (Responds true status (BodyJson server)) st
     = (false, st,
        [SendMessage (SERVER_VALIDATION_FAILED (lit "invalid_signature") None None
                        (serverHost settings) (serverPort settings))]))
  /\ (forall (status : nat) (body : body_outcome) (st : session),
        validateServerIdentity settings (Responds false status body) st
        = (false, st,
           [SendMessage (SERVER_VALIDATION_FAILED (lit "http_error") (Some status) None
                           (serverHost settings) (serverPort settings))]))
  /\ (forall (ctor : option exn) (st st' : session),
        opened_sockets (trace_of setupWebSocket_start st) = []
        /\ scheduled_reconnects (trace_of setupWebSocket_start st) = []
        /\ ws (state_after setupWebSocket_start st) = None
        /\ trace_of (setupWebSocket_resume settings false ctor) st'
           = [SetTimeout (next_handle st') Call_setupWebSocket WS_RECONNECT_DELAY]
        /\ ws (state_after (setupWebSocket_resume settings false ctor) st') = ws st'
        /\ reconnectAfterValidation
             (state_after (setupWebSocket_resume settings false ctor) st') = true)
  /\ (forall (outcome : fetch_outcome) (ctor : option exn) (st st' : session),
        result_of (validateServerIdentity settings outcome) st' = false ->
        opened_sockets (trace_of (setupWebSocket settings outcome ctor) st) = []
        /\ scheduled_reconnects (trace_of (setupWebSocket settings outcome ctor) st)
           = [WS_RECONNECT_DELAY]
        /\ ws (state_after (setupWebSocket settings outcome ctor) st) = None).
Proof.
  split; [|split; [|split]].
  - intros status server signature st Hfield Hwrong.
    exact (@validateServerIdentity_wrong_signature settings status server signature st
             Hfield Hwrong).
  - intros status body st. reflexivity.
  - intros ctor st st'.
    destruct (setupWebSocket_start_trace st) as (Hws & Hopen & Hsched).
    unfold trace_of, state_after. rewrite setupWebSocket_resume_invalid.
    repeat split; assumption.
  - intros outcome ctor st st' Hinvalid.
    destruct (setupWebSocket_invalid settings outcome ctor st st' Hinvalid)
      as (Hopen & Hsched & Hws & _).
    repeat split; assumption.
Qed.

(** An impostor that answers 200 with its own signature, while a socket is
    connected; and the answer 503. *)
Lemma wrong_signature_never_connects_witness :
  validateServerIdentity default_settings impostor_response connected_session
  = (false, connected_session,
     [SendMessage (SERVER_VALIDATION_FAILED (lit "invalid_signature") None None
                     (lit "localhost") 3025)])
  /\ validateServerIdentity default_settings unavailable_response connected_session
     = (false, connected_session,
        [SendMessage (SERVER_VALIDATION_FAILED (lit "http_error") (Some 503) None
                        (lit "localhost") 3025)])
  /\ opened_sockets
       (trace_of (setupWebSocket default_settings impostor_response None) connected_session)
     = []
  /\ scheduled_reconnects
       (trace_of (setupWebSocket default_settings impostor_response None) connected_session)
     = [5000].
Proof.
  destruct (wrong_signature_never_connects default_settings)
    as (Hsignature & Hstatus & _ & Hcall).
  split; [|split].
  - apply (Hsignature 200 wrong_identity (Str (lit "not-the-connector")) connected_session).
    + reflexivity.
    + discriminate.
  - apply (Hstatus 503 (BodyJson wrong_identity) connected_session).
  - destruct (Hcall impostor_response None connected_session connected_session eq_refl)
      as (Hopen & Hsched & _).
    split; assumption.
Defined.

(** *** Closure handling *)

(** What [ws.onclose] schedules. *)
Lemma onclose_schedule (code : nat) (st : session) :
  scheduled_reconnects (trace_of (onclose code) st)
  = if intentionalClosure st then []
    else if negb ((code =? 1000) || (code =? 1001)) || reconnectAfterValidation st
         then [WS_RECONNECT_DELAY]
         else [].
Proof.
  destruct st as [w timeout heartbeat pending flag n].
  unfold onclose, trace_of.
  destruct heartbeat, flag; cbn -[Nat.eqb]; try reflexivity;
    destruct (negb ((code =? 1000) || (code =? 1001)) || pending); reflexivity.
Qed.

(** The connected session is one the tasks of the event loop lead to. *)
Lemma connected_session_reachable : reachable connected_session.
Proof.
  change connected_session
    with (state_after
            (run_task (Resumption_of_setupWebSocket default_settings true None))
            (state_after (run_task Call_of_setupWebSocket) initial_session)).
  do 2 apply reachable_step. apply reachable_initial.
Qed.

(** C8, as stated, fails: the first [unload] listener raises
    [intentionalClosure] and nothing lowers it again; a close event
    delivered in the state it leaves schedules nothing, with the code 1006
    as with any other. *)
Lemma onclose_after_unload_schedules_nothing :
  reachable (state_after (run_task Event_unload) connected_session)
  /\ intentionalClosure (state_after (run_task Event_unload) connected_session) = true
  /\ scheduled_reconnects
       (trace_of (onclose 1006) (state_after (run_task Event_unload) connected_session))
     = [].
Proof.
  split; [|split; reflexivity].
  apply reachable_step, connected_session_reachable.
Qed.

(** C8, amended.  With the code 1000 and no revalidation pending, the
    handler schedules no reconnect.  With a code other than 1000 and 1001
    it schedules exactly one call of [setupWebSocket], after
    [WS_RECONNECT_DELAY], provided the flag [intentionalClosure] is down
    when the event is delivered; while the flag is raised it schedules
    nothing, whatever the code. *)
Theorem onclose_reconnect_policy (st : session) (code : nat) :
  (code = 1000 -> reconnectAfterValidation st = false ->
     scheduled_reconnects (trace_of (onclose code) st) = [])
  /\ (intentionalClosure st = false -> code <> 1000 -> code <> 1001 ->
        scheduled_reconnects (trace_of (onclose code) st) = [WS_RECONNECT_DELAY])
  /\ (intentionalClosure st = true ->
        scheduled_reconnects (trace_of (onclose code) st) = []).
Proof.
  rewrite onclose_schedule. split; [|split].
  - intros -> ->. now destruct (intentionalClosure st).
  - intros -> H1000 H1001.
    apply Nat.eqb_neq in H1000, H1001. now rewrite H1000, H1001.
  - intros ->. reflexivity.
Qed.

(** A normal closure and an abnormal one (1006) of the connected session,
    and an abnormal one after [unload]. *)
Lemma onclose_reconnect_policy_witness :
  scheduled_reconnects (trace_of (onclose 1000) connected_session) = []
  /\ scheduled_reconnects (trace_of (onclose 1006) connected_session) = [5000]
  /\ scheduled_reconnects
       (trace_of (onclose 1006) (state_after on_unload_cleanup connected_session))
     = [].
Proof.
  split; [|split].
  - destruct (onclose_reconnect_policy connected_session 1000) as (Hnormal & _ & _).
    apply Hnormal; reflexivity.
  - destruct (onclose_reconnect_policy connected_session 1006) as (_ & Habnormal & _).
    apply Habnormal; [reflexivity|discriminate|discriminate].
  - destruct (onclose_reconnect_policy (state_after on_unload_cleanup connected_session)
                1006) as (_ & _ & Hraised).
    apply Hraised. reflexivity.
Defined.

(** *** The cookie filter *)

Section MapCompletionProperties.

Context {A B : Type} (f : A -> completion B).

Lemma map_completion_Normal (l : list A) :
  forall r, map_completion f l = Normal r <-> Forall2 (fun a b => f a = Normal b) l r.
Proof.
  induction l as [|a l IH]; intro r; cbn [map_completion].
  - split.
    + intro H. injection H as <-. constructor.
    + intro H. inversion H. reflexivity.
  - split.
    + destruct (f a) as [b|e] eqn:Ea; cbn [bind]; [|discriminate].
      destruct (map_completion f l) as [bs|e] eqn:El; cbn [bind]; [|discriminate].
      intro H. injection H as <-. constructor; [exact Ea|]. now apply IH.
    + intro H. inversion H as [|? b ? bs Ha Hl]; subst.
      rewrite Ha. cbn [bind]. apply IH in Hl. now rewrite Hl.
Qed.

Lemma map_completion_returns (l : list A) :
  Forall (fun a => exists b, f a = Normal b) l -> exists r, map_completion f l = Normal r.
Proof.
  induction 1 as [|a l [b Hb] _ [r Hr]]; cbn [map_completion]; [now eexists|].
  rewrite Hb, Hr. now eexists.
Qed.

Lemma map_completion_throws (l : list A) :
  Exists (fun a => exists e, f a = Throw e) l -> exists e, map_completion f l = Throw e.
Proof.
  induction l as [|a l IH]; intro H; [inversion H|].
  cbn [map_completion]. destruct (f a) as [b|e] eqn:Ea; cbn [bind]; [|now eexists].
  inversion H as [? ? [e He]|? ? Hl]; subst; [congruence|].
  destruct (IH Hl) as [e He]. rewrite He. now eexists.
Qed.

End MapCompletionProperties.

Section CookieFilter.

Variable Math_log2 : float64 -> float64.
Variable settings : Settings.

(** What the filter makes of a cookie, when it makes something of it: the
    cookie, or its redacted copy. *)
Lemma filter_cookie_cases (cookie cookie' : value) :
  filter_cookie Math_log2 settings cookie = Normal cookie' ->
  cookie' = cookie \/ (is_object cookie = true /\ cookie' = redacted_copy cookie).
Proof.
  unfold filter_cookie.
  destruct (is_object cookie) eqn:Hobj;
    [|rewrite orb_true_r; intro H; injection H as <-; now left].
  destruct (negb (truthy cookie) || negb true); [intro H; injection H as <-; now left|].
  destruct (must_redact_cookie _ _ _ _) as [[|]|e]; cbn [bind]; try discriminate;
    intro H; injection H as <-; [right|left]; auto.
Qed.

Lemma filter_cookie_not_object (cookie : value) :
  is_object cookie = false -> filter_cookie Math_log2 settings cookie = Normal cookie.
Proof. intro H. unfold filter_cookie. now rewrite H, orb_true_r. Qed.

Lemma filter_cookie_object (cookie : value) :
  is_object cookie = true ->
  filter_cookie Math_log2 settings cookie
  = (redact <- must_redact_cookie Math_log2 settings
                 (get_property cookie (lit "name")) (get_property cookie (lit "value")) ;;
     Normal (if redact then redacted_copy cookie else cookie)).
Proof.
  intro H. unfold filter_cookie. rewrite H.
  assert (Ht : truthy cookie = true) by (destruct cookie; try discriminate; reflexivity).
  rewrite Ht. cbn [negb orb].
  now destruct (must_redact_cookie _ _ _ _) as [[|]|e].
Qed.

(** The test throws exactly in the mode [hide-sensitive], on a name that
    cannot be converted. *)
Lemma must_redact_cookie_throws (name v : option value) :
  (exists e, must_redact_cookie Math_log2 settings name v = Throw e)
  <-> sensitiveDataMode settings = lit "hide-sensitive"
      /\ exists e, ToString_opt name = Throw e.
Proof.
  unfold must_redact_cookie, isSensitiveKey_of.
  destruct (jsstring_eqb (sensitiveDataMode settings) (lit "hide-all")) eqn:Hall.
  - apply jsstring_eqb_eq in Hall. split.
    + intros [e He]. discriminate.
    + intros [Hmode _]. rewrite Hmode in Hall. discriminate.
  - destruct (jsstring_eqb (sensitiveDataMode settings) (lit "hide-sensitive")) eqn:Hsens.
    + apply jsstring_eqb_eq in Hsens.
      destruct (ToString_opt name) as [key|e]; cbn [bind]; split.
      * intros [e He]. discriminate.
      * intros [_ [e He]]. discriminate.
      * intros _. split; [exact Hsens|now exists e].
      * intros _. now exists e.
    + split.
      * intros [e He]. discriminate.
      * intros [Hmode _]. rewrite Hmode, jsstring_eqb_refl in Hsens. discriminate.
Qed.

Lemma filter_cookie_returns (cookie : value) :
  sensitiveDataMode settings <> lit "hide-sensitive"
  \/ names_convert [cookie] = true ->
  exists cookie', filter_cookie Math_log2 settings cookie = Normal cookie'.
Proof.
  intro H. destruct (is_object cookie) eqn:Hobj;
    [|eexists; now apply filter_cookie_not_object].
  rewrite (filter_cookie_object cookie Hobj).
  destruct (must_redact_cookie Math_log2 settings (get_property cookie (lit "name"))
              (get_property cookie (lit "value"))) as [b|e] eqn:E; [now eexists|].
  exfalso.
  assert (Hthrows : exists e, must_redact_cookie Math_log2 settings
                                (get_property cookie (lit "name"))
                                (get_property cookie (lit "value")) = Throw e)
    by (now exists e).
  apply must_redact_cookie_throws in Hthrows as [Hmode [e' He']].
  destruct H as [H|H]; [contradiction|].
  cbn [names_convert forallb] in H. rewrite Hobj, He' in H. discriminate.
Qed.

Lemma filter_cookie_throws (cookie : value) :
  sensitiveDataMode settings = lit "hide-sensitive" ->
  names_convert [cookie] = false ->
  exists e, filter_cookie Math_log2 settings cookie = Throw e.
Proof.
  intros Hmode Hname. cbn [names_convert forallb] in Hname.
  destruct (is_object cookie) eqn:Hobj; [|discriminate].
  rewrite (filter_cookie_object cookie Hobj).
  destruct (ToString_opt (get_property cookie (lit "name"))) as [key|e] eqn:E;
    [discriminate|].
  assert (Hthrows : exists e0, must_redact_cookie Math_log2 settings
                                 (get_property cookie (lit "name"))
                                 (get_property cookie (lit "value")) = Throw e0).
  { apply must_redact_cookie_throws. split; [exact Hmode|now exists e]. }
  destruct Hthrows as [e0 He0]. rewrite He0. now exists e0.
Qed.

Lemma names_convert_cons (cookie : value) (items : list value) :
  names_convert (cookie :: items) = names_convert [cookie] && names_convert items.
Proof. cbn [names_convert forallb]. now rewrite andb_true_r. Qed.

(** [filterSensitiveCookies] returns unless the mode is [hide-sensitive] and
    the name of some cookie object cannot be converted; then it throws. *)
Lemma filterSensitiveCookies_returns (items : list value) :
  sensitiveDataMode settings <> lit "hide-sensitive" \/ names_convert items = true ->
  exists result, filterSensitiveCookies Math_log2 settings (Arr items) = Normal result.
Proof.
  intro H. cbn [filterSensitiveCookies]. apply map_completion_returns.
  induction items as [|cookie items IH]; constructor.
  - apply filter_cookie_returns. destruct H as [H|H]; [now left|right].
    rewrite names_convert_cons in H. now apply andb_true_iff in H as [H _].
  - apply IH. destruct H as [H|H]; [now left|right].
    rewrite names_convert_cons in H. now apply andb_true_iff in H as [_ H].
Qed.

Lemma filterSensitiveCookies_throws (items : list value) :
  sensitiveDataMode settings = lit "hide-sensitive" ->
  names_convert items = false ->
  exists e, filterSensitiveCookies Math_log2 settings (Arr items) = Throw e.
Proof.
  intros Hmode Hnames. cbn [filterSensitiveCookies]. apply map_completion_throws.
  induction items as [|cookie items IH]; [discriminate|].
  rewrite names_convert_cons in Hnames.
  destruct (names_convert [cookie]) eqn:E.
  - right. now apply IH.
  - left. now apply filter_cookie_throws.
Qed.

End CookieFilter.

(** *** Command dispatch *)

Lemma response_frame_fields (type : string) (key : string) (v r : value) :
  jsstring_eqb (lit "type") (lit key) = false ->
  jsstring_eqb (lit key) (lit "requestId") = false ->
  get_property (response_frame type [(lit key, v)] (Some r)) (lit "type")
  = Some (Str (lit type))
  /\ get_property (response_frame type [(lit key, v)] (Some r)) (lit "requestId") = Some r.
Proof.
  intros Htype Hkey. unfold response_frame, get_property.
  cbn [Object_entries app lookup]. rewrite Hkey.
  change (jsstring_eqb (lit "type") (lit "type")) with true.
  change (jsstring_eqb (lit "type") (lit "requestId")) with false.
  change (jsstring_eqb (lit "requestId") (lit "requestId")) with true.
  split; reflexivity.
Qed.

(** C9, as stated, fails: when [setupWebSocket] has emptied [ws] while the
    cookies were being read, [ws.send] throws in the callback and neither
    frame is sent. *)
Lemma cookies_callback_without_socket :
  reachable (state_after setupWebSocket_start connected_session)
  /\ ws (state_after setupWebSocket_start connected_session) = None
  /\ cookies_callback log2_of_power_of_two default_settings OPEN (Some (Str (lit "r1")))
       (Some (Arr [])) None (state_after setupWebSocket_start connected_session)
     = Throw (TypeError (lit "Cannot read properties of null (reading 'send')"))
  /\ cookies_callback log2_of_power_of_two default_settings OPEN (Some (Str (lit "r1")))
       None (Some (Str (lit "Error"))) (state_after setupWebSocket_start connected_session)
     = Throw (TypeError (lit "Cannot read properties of null (reading 'send')")).
Proof.
  split; [|repeat split].
  apply (reachable_step Call_of_setupWebSocket), connected_session_reachable.
Qed.

(** Nor is a frame sent, with [ws] open, when the filter throws: in the
    mode [hide-sensitive], on a cookie whose name cannot be converted to a
    string. *)
Lemma cookies_callback_unnameable_cookie :
  ws connected_session = Some 1
  /\ cookies_callback log2_of_power_of_two (with_mode "hide-sensitive" default_settings)
       OPEN (Some (Str (lit "r1"))) (Some (Arr [unnameable_cookie])) None connected_session
     = Throw (TypeError (lit "Cannot convert object to primitive value")).
Proof. split; reflexivity. Qed.

(** C9, amended. A frame [{type: "get-cookies", requestId: r}] starts one
    cookie read, and whatever the read reports, if [ws] holds an open socket
    when it completes, its callback sends exactly one frame on that socket,
    carrying [requestId: r], of the type [cookies-error] when the read
    reported an exception or no result and [cookies-data] otherwise, unless
    the filter throws: that is when the read succeeded, the mode is
    [hide-sensitive] and the name of some cookie object cannot be converted
    to a string; the callback then throws and sends nothing. *)
Theorem get_cookies_one_response
  (Math_log2 : float64 -> float64) (JSON_parse : jsstring -> completion value)
  (settings : Settings) (data : jsstring) (message r : value)
  (result isException : option value) (st : session) (s : socket) :
  JSON_parse data = Normal message ->
  get_property message (lit "type") = Some (Str (lit "get-cookies")) ->
  get_property message (lit "requestId") = Some r ->
  ws st = Some s ->
  onmessage JSON_parse data = Some (EvalCookies, Some r)
  /\ if negb (truthy_opt isException || negb (truthy_opt result))
        && jsstring_eqb (sensitiveDataMode settings) (lit "hide-sensitive")
        && negb (names_convert (cookies_of result))
     then exists e : exn,
            cookies_callback Math_log2 settings OPEN (Some r) result isException st
            = Throw e
     else exists frame : value,
            cookies_callback Math_log2 settings OPEN (Some r) result isException st
            = Normal [WsSend s frame]
            /\ get_property frame (lit "requestId") = Some r
            /\ get_property frame (lit "type")
               = Some (Str (if truthy_opt isException || negb (truthy_opt result)
                            then lit "cookies-error"
                            else lit "cookies-data")).
Proof.
  intros Hparse Htype Hid Hws. split.
  - unfold onmessage. rewrite Hparse.
    destruct message; try discriminate Htype; rewrite Htype, Hid; reflexivity.
  - unfold cookies_callback, ws_send. rewrite Hws.
    destruct (truthy_opt isException || negb (truthy_opt result)); cbn [negb andb].
    + eexists. split; [reflexivity|].
      destruct (@response_frame_fields "cookies-error" "error"
                  match isException with
                  | Some e => if truthy e then e else Str (lit "Failed to get cookies")
                  | None => Str (lit "Failed to get cookies")
                  end r) as [Ht Hr]; try reflexivity.
      split; assumption.
    + assert (Hcookies : match result with
                         | Some (Arr items) => Arr items
                         | _ => Arr []
                         end = Arr (cookies_of result))
        by (now destruct result as [[| | | |items|]|]).
      rewrite Hcookies.
      destruct (jsstring_eqb (sensitiveDataMode settings) (lit "hide-sensitive")) eqn:Hmode;
        cbn [andb].
      * apply jsstring_eqb_eq in Hmode.
        assert (Hshow : jsstring_eqb (sensitiveDataMode settings) (lit "show-all") = false)
          by (rewrite Hmode; reflexivity).
        rewrite Hshow. cbn [negb].
        destruct (names_convert (cookies_of result)) eqn:Hnames; cbn [negb].
        -- destruct (filterSensitiveCookies_returns Math_log2 settings (cookies_of result)
                       (or_intror Hnames)) as [filtered Hfiltered].
           rewrite Hfiltered. cbn [bind].
           eexists. split; [reflexivity|].
           destruct (@response_frame_fields "cookies-data" "cookies" (Arr filtered) r)
             as [Ht Hr]; try reflexivity.
           split; assumption.
        -- destruct (filterSensitiveCookies_throws Math_log2 settings (cookies_of result)
                       Hmode Hnames) as [e He].
           rewrite He. now exists e.
      * assert (Hother : sensitiveDataMode settings <> lit "hide-sensitive").
        { intro H. rewrite H in Hmode. discriminate. }
        destruct (filterSensitiveCookies_returns Math_log2 settings (cookies_of result)
                    (or_introl Hother)) as [filtered Hfiltered].
        rewrite Hfiltered.
        destruct (negb (jsstring_eqb (sensitiveDataMode settings) (lit "show-all")));
          cbn [bind]; eexists; (split; [reflexivity|]).
        -- destruct (@response_frame_fields "cookies-data" "cookies" (Arr filtered) r)
             as [Ht Hr]; try reflexivity.
           split; assumption.
        -- destruct (@response_frame_fields "cookies-data" "cookies"
                       (Arr (cookies_of result)) r) as [Ht Hr]; try reflexivity.
           split; assumption.
Qed.

(** The specification's frame: a read that succeeds, one that throws, and a
    read whose cookie the filter cannot name. *)
Lemma get_cookies_one_response_witness :
  onmessage parse_get_cookies [] = Some (EvalCookies, Some (Str (lit "r1")))
  /\ (exists frame : value,
        cookies_callback log2_of_power_of_two default_settings OPEN (Some (Str (lit "r1")))
          (Some (Arr [Obj [(lit "name", Str (lit "theme")); (lit "value", Str (lit "dark"))]]))
          None connected_session
        = Normal [WsSend 1 frame]
        /\ get_property frame (lit "requestId") = Some (Str (lit "r1"))
        /\ get_property frame (lit "type") = Some (Str (lit "cookies-data")))
  /\ (exists frame : value,
        cookies_callback log2_of_power_of_two default_settings OPEN (Some (Str (lit "r1")))
          None (Some (Str (lit "Error"))) connected_session
        = Normal [WsSend 1 frame]
        /\ get_property frame (lit "requestId") = Some (Str (lit "r1"))
        /\ get_property frame (lit "type") = Some (Str (lit "cookies-error")))
  /\ (exists e : exn,
        cookies_callback log2_of_power_of_two (with_mode "hide-sensitive" default_settings)
          OPEN (Some (Str (lit "r1"))) (Some (Arr [unnameable_cookie])) None
          connected_session
        = Throw e).
Proof.
  split; [|split; [|split]].
  - apply (@get_cookies_one_response log2_of_power_of_two parse_get_cookies default_settings
             [] get_cookies_message (Str (lit "r1")) None None connected_session 1);
      reflexivity.
  - apply (@get_cookies_one_response log2_of_power_of_two parse_get_cookies default_settings
             [] get_cookies_message (Str (lit "r1"))
             (Some (Arr [Obj [(lit "name", Str (lit "theme"));
                              (lit "value", Str (lit "dark"))]]))
             None connected_session 1 eq_refl eq_refl eq_refl eq_refl).
  - apply (@get_cookies_one_response log2_of_power_of_two parse_get_cookies default_settings
             [] get_cookies_message (Str (lit "r1")) None (Some (Str (lit "Error")))
             connected_session 1 eq_refl eq_refl eq_refl eq_refl).
  - apply (@get_cookies_one_response log2_of_power_of_two parse_get_cookies
             (with_mode "hide-sensitive" default_settings)
             [] get_cookies_message (Str (lit "r1")) (Some (Arr [unnameable_cookie])) None
             connected_session 1 eq_refl eq_refl eq_refl eq_refl).
Defined.

(* ===================================================================== *)
(** * Part III: further properties of the code *)
(* ===================================================================== *)

(** ** The key classifier *)

Ltac case_leb :=
  repeat match goal with
         | |- context [N.leb ?a ?b] =>
             let H := fresh "H" in
             destruct (N.leb a b) eqn:H;
             [apply N.leb_le in H | apply N.leb_gt in H]; cbn [andb] in *
         end.

Lemma to_upper_idem (x : code_unit) : to_upper (to_upper x) = to_upper x.
Proof. unfold to_upper. case_leb; lia. Qed.

Lemma to_lower_idem (x : code_unit) : to_lower (to_lower x) = to_lower x.
Proof. unfold to_lower. case_leb; lia. Qed.

Lemma to_lower_upper (x : code_unit) : to_lower (to_upper x) = to_lower x.
Proof. unfold to_upper, to_lower. case_leb; lia. Qed.

Lemma to_upper_lower (x : code_unit) : to_upper (to_lower x) = to_upper x.
Proof. unfold to_upper, to_lower. case_leb; lia. Qed.

Lemma upper_or_lower (x : code_unit) : to_upper x = x \/ to_lower x = x.
Proof. unfold to_upper, to_lower. case_leb; auto; lia. Qed.

(** A change of letter case [g] that an ignore-case pattern cannot see. *)
Section CaseFolding.

Variable g : code_unit -> code_unit.
Hypothesis g_upper : forall x, to_upper (g x) = to_upper x.
Hypothesis g_lower : forall x, to_lower (g x) = to_lower x.
Hypothesis g_folds : forall x, g x = to_upper x \/ g x = to_lower x.

Lemma unit_matches_fold (x c : code_unit) :
  unit_matches true (g x) c = unit_matches true x c.
Proof. unfold unit_matches. now rewrite g_upper. Qed.

Lemma in_class_fold (x : code_unit) (ranges : list (code_unit * code_unit)) :
  in_class true (g x) ranges = in_class true x ranges.
Proof.
  unfold in_class. induction ranges as [|r ranges IH]; [reflexivity|].
  cbn [existsb]. rewrite IH. f_equal.
  rewrite g_upper, g_lower. cbn [andb].
  destruct (g_folds x) as [E|E]; rewrite E;
    destruct (upper_or_lower x) as [F|F]; rewrite ?F;
    destruct (between x r), (between (to_upper x) r), (between (to_lower x) r);
    try reflexivity; rewrite ?F in *; congruence.
Qed.

Lemma deriv_fold (x : code_unit) (r : regex) :
  deriv true (g x) r = deriv true x r.
Proof.
  induction r as [| |c|ranges|r1 IH1 r2 IH2|r1 IH1 r2 IH2|lo hi r IH]; cbn [deriv];
    rewrite ?unit_matches_fold, ?in_class_fold, ?IH1, ?IH2, ?IH; reflexivity.
Qed.

Lemma matches_fold (s : jsstring) :
  forall r, matches true r (map g s) = matches true r s.
Proof.
  induction s as [|x s IH]; intro r; [reflexivity|].
  cbn [map matches]. now rewrite deriv_fold, IH.
Qed.

Lemma matches_prefix_fold (s : jsstring) :
  forall r, matches_prefix true r (map g s) = matches_prefix true r s.
Proof.
  induction s as [|x s IH]; intro r; [reflexivity|].
  cbn [map matches_prefix]. now rewrite deriv_fold, IH.
Qed.

Lemma matches_somewhere_fold (r : regex) (s : jsstring) :
  matches_somewhere true r (map g s) = matches_somewhere true r s.
Proof.
  induction s as [|x s IH]; [reflexivity|].
  change (map g (x :: s)) with (g x :: map g s).
  cbn [matches_somewhere]. rewrite IH. f_equal.
  apply (matches_prefix_fold (x :: s)).
Qed.

Lemma test_fold (p : pattern) (s : jsstring) :
  ignoreCase p = true -> test p (map g s) = test p s.
Proof.
  intro H. unfold test. rewrite H.
  destruct (anchored p); [apply matches_fold|apply matches_somewhere_fold].
Qed.

End CaseFolding.

Lemma existsb_ext_in {A : Type} (f h : A -> bool) (l : list A) :
  (forall a, In a l -> f a = h a) -> existsb f l = existsb h l.
Proof.
  induction l as [|a l IH]; intro H; [reflexivity|].
  simpl. rewrite (H a) by now left. rewrite IH; [reflexivity|].
  intros b Hb. apply H. now right.
Qed.

(** Every key pattern is written with the [i] flag and without anchors. *)
Lemma key_patterns_flags (p : pattern) :
  In p SENSITIVE_KEY_PATTERNS -> ignoreCase p = true /\ anchored p = false.
Proof.
  unfold SENSITIVE_KEY_PATTERNS. intro H.
  apply in_map_iff in H as (r & <- & _). split; reflexivity.
Qed.

(** X1. [isSensitiveKey] does not see the case of ASCII letters: a key, the
    key with its letters [a-z] in upper case, and the key with its letters
    [A-Z] in lower case are classified alike. *)
Theorem isSensitiveKey_ignores_case (key : jsstring) :
  isSensitiveKey (map to_upper key) = isSensitiveKey key
  /\ isSensitiveKey (map to_lower key) = isSensitiveKey key.
Proof.
  unfold isSensitiveKey. split; apply existsb_ext_in; intros p Hp;
    apply key_patterns_flags in Hp as [Hi _].
  - apply test_fold; auto using to_upper_idem, to_lower_upper.
  - apply test_fold; auto using to_lower_idem, to_upper_lower.
Qed.

(** X2. The key patterns are not anchored: a key that contains a sensitive
    key is sensitive. *)
Theorem isSensitiveKey_of_longer_key (before key after : jsstring) :
  isSensitiveKey key = true ->
  isSensitiveKey (before ++ key ++ after) = true.
Proof.
  unfold isSensitiveKey. intro H.
  apply existsb_exists in H as (p & Hp & Htest).
  apply existsb_exists. exists p. split; [exact Hp|].
  destruct (key_patterns_flags Hp) as [_ Ha].
  unfold test in *. rewrite Ha in *.
  apply matches_somewhere_correct in Htest as (s0 & s1 & s2 & -> & Hin).
  apply matches_somewhere_correct.
  exists (before ++ s0), s1, (s2 ++ after). split; [|exact Hin].
  now rewrite <- !app_assoc.
Qed.

(** The key [Token] between a prefix and a suffix. *)
Lemma isSensitiveKey_of_longer_key_witness :
  isSensitiveKey (lit "x-" ++ lit "Token" ++ lit "-v2") = true.
Proof.
  apply (isSensitiveKey_of_longer_key (lit "x-") (lit "Token") (lit "-v2")).
  vm_compute. reflexivity.
Defined.

Lemma in_language_min_length (icase : bool) (r : regex) (s : jsstring) :
  in_language icase r s -> min_length r <= length s.
Proof.
  induction 1; cbn [min_length]; rewrite ?length_app; simpl; try lia.
  cbn [min_length] in *. destruct lo; simpl in *; lia.
Qed.

(** X3. Nothing shorter than three code units is a sensitive key: every key
    pattern needs at least three. *)
Theorem isSensitiveKey_needs_three_units (key : jsstring) :
  length key < 3 -> isSensitiveKey key = false.
Proof.
  intro Hshort. apply not_true_iff_false. intro H.
  unfold isSensitiveKey in H.
  apply existsb_exists in H as (p & Hp & Htest).
  destruct (key_patterns_flags Hp) as [_ Ha].
  unfold test in Htest. rewrite Ha in Htest.
  apply matches_somewhere_correct in Htest as (s0 & s1 & s2 & -> & Hin).
  apply in_language_min_length in Hin.
  assert (Hmin : forallb (fun q => 3 <=? min_length (body q)) SENSITIVE_KEY_PATTERNS = true)
    by (vm_compute; reflexivity).
  rewrite forallb_forall in Hmin. specialize (Hmin p Hp).
  apply Nat.leb_le in Hmin.
  rewrite !length_app in Hshort. lia.
Qed.

(** The key [id]. *)
Lemma isSensitiveKey_needs_three_units_witness : isSensitiveKey (lit "id") = false.
Proof. apply isSensitiveKey_needs_three_units. simpl. lia. Defined.

(** ** Properties read and written by key *)

Lemma define_property_idem (entries : list (jsstring * value)) (k : jsstring) (v : value) :
  define_property (define_property entries k v) k v = define_property entries k v.
Proof.
  induction entries as [|[k0 w] rest IH]; simpl.
  - now rewrite jsstring_eqb_refl.
  - destruct (jsstring_eqb k0 k) eqn:E; simpl; rewrite E; [reflexivity|now rewrite IH].
Qed.

Lemma define_property_entries (P : jsstring * value -> Prop)
  (entries : list (jsstring * value)) (key : jsstring) (v : value) :
  P (key, v) -> Forall P entries -> Forall P (define_property entries key v).
Proof.
  intros Hv. induction entries as [|[k w] rest IH]; simpl; intro H.
  - constructor; [exact Hv|constructor].
  - inversion H as [|? ? Hw Hrest]; subst.
    destruct (jsstring_eqb k key) eqn:E; constructor; auto.
    apply jsstring_eqb_eq in E. now subst.
Qed.

Lemma define_property_keys (entries : list (jsstring * value)) (key k : jsstring) (v : value) :
  In k (map fst (define_property entries key v)) -> k = key \/ In k (map fst entries).
Proof.
  induction entries as [|[k0 w] rest IH]; simpl.
  - intros [<-|[]]. now left.
  - destruct (jsstring_eqb k0 key); simpl; intros [<-|H]; auto.
    destruct (IH H); auto.
Qed.

Lemma define_property_NoDup (entries : list (jsstring * value)) (key : jsstring) (v : value) :
  NoDup (map fst entries) -> NoDup (map fst (define_property entries key v)).
Proof.
  induction entries as [|[k0 w] rest IH]; simpl; intro H.
  - constructor; [intros []|constructor].
  - inversion H as [|? ? Hk Hrest]; subst.
    destruct (jsstring_eqb k0 key) eqn:E; simpl; constructor; auto.
    intro Hin. apply define_property_keys in Hin as [->|Hin]; [|contradiction].
    now rewrite jsstring_eqb_refl in E.
Qed.

Section Rebuild.

Variable h : jsstring * value -> value.

Lemma rebuild_entries (P : jsstring * value -> Prop) (entries : list (jsstring * value)) :
  (forall kv, In kv entries -> P (fst kv, h kv)) ->
  forall acc, Forall P acc -> Forall P (rebuild h entries acc).
Proof.
  unfold rebuild.
  induction entries as [|kv rest IH]; intros Hall acc Hacc; simpl; [exact Hacc|].
  apply IH.
  - intros kv' Hin. apply Hall. now right.
  - unfold assign. destruct (jsstring_eqb (fst kv) (lit "__proto__")); [exact Hacc|].
    apply define_property_entries; [|exact Hacc]. apply Hall. now left.
Qed.

Lemma rebuild_keys (entries : list (jsstring * value)) :
  forall acc,
  NoDup (map fst acc) -> ~ In (lit "__proto__") (map fst acc) ->
  NoDup (map fst (rebuild h entries acc))
  /\ ~ In (lit "__proto__") (map fst (rebuild h entries acc)).
Proof.
  unfold rebuild.
  induction entries as [|kv rest IH]; intros acc Hnd Hnp; simpl; [now split|].
  unfold assign. destruct (jsstring_eqb (fst kv) (lit "__proto__")) eqn:E.
  - now apply IH.
  - apply IH; [now apply define_property_NoDup|].
    intro Hin. apply define_property_keys in Hin as [Hk|Hin]; [|contradiction].
    rewrite <- Hk, jsstring_eqb_refl in E. discriminate.
Qed.

Lemma rebuild_distinct (entries : list (jsstring * value)) :
  forall acc,
  NoDup (map fst acc ++ map fst entries) ->
  rebuild h entries acc
  = acc ++ map (fun kv => (fst kv, h kv)) (filter (fun kv => not_proto (fst kv)) entries).
Proof.
  unfold rebuild.
  induction entries as [|[k x] rest IH]; intros acc Hnd; simpl.
  - now rewrite app_nil_r.
  - simpl in Hnd. unfold assign, not_proto at 1. cbn [fst snd].
    destruct (jsstring_eqb k (lit "__proto__")); cbn [negb].
    + apply IH. now apply NoDup_remove_1 in Hnd.
    + rewrite define_property_fresh.
      * rewrite IH.
        -- now rewrite <- app_assoc.
        -- rewrite map_app, <- app_assoc. exact Hnd.
      * apply NoDup_remove_2 in Hnd. intro Hin. apply Hnd.
        apply in_or_app. now left.
Qed.

End Rebuild.

Lemma fold_left_ext {A B : Type} (f g : A -> B -> A) (l : list B) :
  (forall a b, f a b = g a b) -> forall a, fold_left f l a = fold_left g l a.
Proof.
  intro H. induction l as [|b l IH]; intro a; simpl; [reflexivity|].
  now rewrite H, IH.
Qed.

Lemma filter_all {A : Type} (p : A -> bool) (l : list A) :
  Forall (fun a => p a = true) l -> filter p l = l.
Proof.
  induction 1 as [|a l Ha _ IH]; simpl; [reflexivity|]. now rewrite Ha, IH.
Qed.

Lemma map_fixed {A : Type} (f : A -> A) (l : list A) :
  Forall (fun a => f a = a) l -> map f l = l.
Proof.
  induction 1 as [|a l Ha _ IH]; simpl; [reflexivity|]. now rewrite Ha, IH.
Qed.

(** ** The storage filter *)

Section StorageFilter.

Variable Math_log2 : float64 -> float64.
Variable settings : Settings.

(** The loop of [filterSensitiveStorage] assigns [redact_entry] of each entry. *)
Lemma filterSensitiveStorage_rebuild (storage : value) :
  is_object storage = true ->
  filterSensitiveStorage Math_log2 settings storage
  = Obj (rebuild (fun kv => snd (redact_entry Math_log2 settings kv))
                 (Object_entries storage) []).
Proof.
  intro Hobj. unfold filterSensitiveStorage, rebuild.
  assert (Ht : truthy storage = true) by (destruct storage; try discriminate; reflexivity).
  rewrite Ht, Hobj. cbn [negb orb]. f_equal.
  apply fold_left_ext. intros result kv. unfold redact_entry. cbn [snd].
  now destruct (must_redact Math_log2 settings (fst kv) (Some (snd kv))).
Qed.

Lemma filterSensitiveStorage_not_object (storage : value) :
  is_object storage = false ->
  filterSensitiveStorage Math_log2 settings storage = Obj [].
Proof.
  intro Hobj. unfold filterSensitiveStorage. rewrite Hobj.
  now rewrite orb_true_r.
Qed.

Lemma redact_entry_idem (kv : jsstring * value) :
  redact_entry Math_log2 settings (redact_entry Math_log2 settings kv)
  = redact_entry Math_log2 settings kv.
Proof.
  unfold redact_entry. cbn [fst snd].
  destruct (must_redact Math_log2 settings (fst kv) (Some (snd kv))) eqn:E.
  - now destruct (must_redact Math_log2 settings (fst kv) (Some (Str REDACTED))).
  - now rewrite E.
Qed.

End StorageFilter.

(** X4. [filterSensitiveStorage] keeps the keys of an object and their order:
    the result lists, for each entry of the input in turn, the same key with
    the value or the marker; only an entry named [__proto__] is left out. *)
Theorem filterSensitiveStorage_keeps_keys
  (Math_log2 : float64 -> float64) (settings : Settings) (entries : list (jsstring * value)) :
  distinct (map fst entries) = true ->
  filterSensitiveStorage Math_log2 settings (Obj entries)
  = Obj (map (redact_entry Math_log2 settings)
             (filter (fun kv => not_proto (fst kv)) entries))
  /\ map fst (Object_entries (filterSensitiveStorage Math_log2 settings (Obj entries)))
     = filter not_proto (map fst entries).
Proof.
  intro Hd.
  assert (H : filterSensitiveStorage Math_log2 settings (Obj entries)
              = Obj (map (redact_entry Math_log2 settings)
                         (filter (fun kv => not_proto (fst kv)) entries))).
  { rewrite filterSensitiveStorage_rebuild by reflexivity.
    cbn [Object_entries]. rewrite rebuild_distinct by (now apply distinct_NoDup).
    reflexivity. }
  split; [exact H|]. rewrite H. cbn [Object_entries].
  rewrite map_map. cbn [redact_entry fst].
  clear. induction entries as [|[k v] rest IH]; simpl; [reflexivity|].
  destruct (not_proto k); simpl; now rewrite IH.
Qed.

(** Two entries, the second under a sensitive key. *)
Lemma filterSensitiveStorage_keeps_keys_witness :
  filterSensitiveStorage log2_of_power_of_two (with_mode "hide-sensitive" default_settings)
    (Obj [(lit "theme", Str (lit "dark")); (lit "authToken", Str (lit "abc"))])
  = Obj [(lit "theme", Str (lit "dark")); (lit "authToken", Str REDACTED)].
Proof.
  apply (filterSensitiveStorage_keeps_keys log2_of_power_of_two
           (with_mode "hide-sensitive" default_settings)
           [(lit "theme", Str (lit "dark")); (lit "authToken", Str (lit "abc"))]).
  reflexivity.
Defined.

(** In the mode [hide-all] every value of the result is the marker. *)
Lemma filterSensitiveStorage_hide_all
  (Math_log2 : float64 -> float64) (settings : Settings) (storage : value) :
  exists entries,
    filterSensitiveStorage Math_log2 (with_mode "hide-all" settings) storage = Obj entries
    /\ Forall (fun kv => snd kv = Str REDACTED) entries.
Proof.
  destruct (is_object storage) eqn:Hobj.
  - eexists. split; [apply filterSensitiveStorage_rebuild; exact Hobj|].
    apply rebuild_entries; [|constructor]. intros kv _. reflexivity.
  - exists []. split; [now apply filterSensitiveStorage_not_object|constructor].
Qed.

(** X5. What [filterSensitiveStorage] lets through.  In the mode [hide-all]
    every value of the result is the marker.  In the mode [hide-sensitive] a
    value of the result is the marker unless neither its key nor the value
    itself is classified as sensitive. *)
Theorem filterSensitiveStorage_lets_nothing_flagged_through
  (Math_log2 : float64 -> float64) (settings : Settings) (storage : value) :
  (exists entries,
     filterSensitiveStorage Math_log2 (with_mode "hide-all" settings) storage = Obj entries
     /\ Forall (fun kv => snd kv = Str REDACTED) entries)
  /\ (exists entries,
        filterSensitiveStorage Math_log2 (with_mode "hide-sensitive" settings) storage
        = Obj entries
        /\ Forall (fun kv => snd kv = Str REDACTED
                             \/ (isSensitiveKey (fst kv) = false
                                 /\ isSensitiveValue Math_log2 (snd kv) = false))
                  entries).
Proof.
  split; [apply filterSensitiveStorage_hide_all|].
  destruct (is_object storage) eqn:Hobj.
  - eexists. split; [apply filterSensitiveStorage_rebuild; exact Hobj|].
    apply rebuild_entries; [|constructor]. intros kv _. cbn [fst snd redact_entry].
    unfold must_redact. cbn [sensitiveDataMode with_mode].
    change (jsstring_eqb (lit "hide-sensitive") (lit "hide-all")) with false.
    change (jsstring_eqb (lit "hide-sensitive") (lit "hide-sensitive")) with true.
    cbn [orb andb].
    destruct (isSensitiveKey (fst kv)); [now left|].
    destruct (isSensitiveValue Math_log2 (snd kv)) eqn:Hv; [now left|].
    right. now split.
  - exists []. split; [now apply filterSensitiveStorage_not_object|constructor].
Qed.

(** X6. [filterSensitiveStorage] is idempotent: filtering its result again
    changes nothing, whatever the mode and the datum. *)
Theorem filterSensitiveStorage_idempotent
  (Math_log2 : float64 -> float64) (settings : Settings) (storage : value) :
  filterSensitiveStorage Math_log2 settings
    (filterSensitiveStorage Math_log2 settings storage)
  = filterSensitiveStorage Math_log2 settings storage.
Proof.
  destruct (is_object storage) eqn:Hobj.
  - rewrite (filterSensitiveStorage_rebuild Math_log2 settings storage Hobj).
    set (h := fun kv => snd (redact_entry Math_log2 settings kv)).
    destruct (@rebuild_keys h (Object_entries storage) []) as [Hnd Hnp];
      [constructor|intros []|].
    rewrite filterSensitiveStorage_rebuild by reflexivity.
    cbn [Object_entries]. fold h.
    rewrite rebuild_distinct by (cbn [app map]; exact Hnd).
    cbn [app]. f_equal.
    rewrite filter_all.
    + apply map_fixed.
      apply rebuild_entries; [|constructor].
      intros kv _. subst h. cbn [fst snd].
      pose proof (redact_entry_idem Math_log2 settings kv) as Hidem.
      unfold redact_entry at 1 in Hidem. cbn [fst snd redact_entry] in *.
      injection Hidem as Hidem. now rewrite Hidem.
    + apply Forall_forall. intros [k v] Hin. cbn [fst]. unfold not_proto.
      destruct (jsstring_eqb k (lit "__proto__")) eqn:E; [|reflexivity].
      apply jsstring_eqb_eq in E. subst k. exfalso. apply Hnp.
      apply in_map_iff. now exists (lit "__proto__", v).
  - rewrite (filterSensitiveStorage_not_object Math_log2 settings storage Hobj).
    reflexivity.
Qed.

(** ** The cookie filter *)

Section CookieFilterResults.

Variable Math_log2 : float64 -> float64.
Variable settings : Settings.

Lemma redacted_cookie_properties (cookie : value) (key : jsstring) :
  get_property (redacted_copy cookie) key
  = if jsstring_eqb (lit "value") key then Some (Str REDACTED) else get_property cookie key.
Proof. unfold get_property. cbn [redacted_copy Object_entries]. apply lookup_define_property. Qed.

Lemma redacted_copy_idem (cookie : value) :
  redacted_copy (redacted_copy cookie) = redacted_copy cookie.
Proof. unfold redacted_copy. cbn [Object_entries]. now rewrite define_property_idem. Qed.

(** The filter, item by item. *)
Lemma filterSensitiveCookies_items (items result : list value) :
  filterSensitiveCookies Math_log2 settings (Arr items) = Normal result
  <-> Forall2 (fun cookie cookie' => filter_cookie Math_log2 settings cookie = Normal cookie')
              items result.
Proof. apply map_completion_Normal. Qed.

(** What the filter has returned for a cookie, it returns for it again. *)
Lemma filter_cookie_idem (cookie cookie' : value) :
  filter_cookie Math_log2 settings cookie = Normal cookie' ->
  filter_cookie Math_log2 settings cookie' = Normal cookie'.
Proof.
  intro H. pose proof H as H0.
  destruct (is_object cookie) eqn:Hobj;
    [|rewrite (filter_cookie_not_object Math_log2 settings cookie Hobj) in H;
      injection H as <-; exact H0].
  rewrite (filter_cookie_object Math_log2 settings cookie Hobj) in H.
  destruct (must_redact_cookie Math_log2 settings (get_property cookie (lit "name"))
              (get_property cookie (lit "value"))) as [[|]|e] eqn:Hred;
    cbn [bind] in H; try discriminate; injection H as <-; [|exact H0].
  rewrite (filter_cookie_object Math_log2 settings (redacted_copy cookie) eq_refl).
  rewrite !redacted_cookie_properties.
  change (jsstring_eqb (lit "value") (lit "name")) with false.
  change (jsstring_eqb (lit "value") (lit "value")) with true.
  cbv iota. rewrite redacted_copy_idem.
  unfold must_redact_cookie in *.
  destruct (jsstring_eqb (sensitiveDataMode settings) (lit "hide-all")); [reflexivity|].
  destruct (jsstring_eqb (sensitiveDataMode settings) (lit "hide-sensitive"));
    [|discriminate].
  destruct (isSensitiveKey_of (get_property cookie (lit "name"))) as [sensitive|e];
    [|discriminate].
  cbn [bind]. now destruct (sensitive || _).
Qed.

(** In the mode [hide-all] the filter returns, every cookie object redacted. *)
Lemma filter_cookie_hide_all (cookie : value) :
  sensitiveDataMode settings = lit "hide-all" ->
  filter_cookie Math_log2 settings cookie
  = Normal (if is_object cookie then redacted_copy cookie else cookie).
Proof.
  intro Hmode. destruct (is_object cookie) eqn:Hobj;
    [|now apply filter_cookie_not_object].
  rewrite (filter_cookie_object Math_log2 settings cookie Hobj).
  unfold must_redact_cookie. rewrite Hmode. reflexivity.
Qed.

Lemma filterSensitiveCookies_hide_all (items : list value) :
  sensitiveDataMode settings = lit "hide-all" ->
  filterSensitiveCookies Math_log2 settings (Arr items)
  = Normal (map (fun cookie => if is_object cookie then redacted_copy cookie else cookie)
              items).
Proof.
  intro Hmode. apply filterSensitiveCookies_items.
  induction items as [|cookie items IH]; constructor; [|exact IH].
  now apply filter_cookie_hide_all.
Qed.

Lemma redacted_copy_is_redacted (cookie : value) :
  is_redacted (if is_object cookie then redacted_copy cookie else cookie) = true
  \/ is_object (if is_object cookie then redacted_copy cookie else cookie) = false.
Proof.
  destruct (is_object cookie) eqn:Hobj; [left|now right].
  unfold is_redacted. rewrite redacted_cookie_properties. reflexivity.
Qed.

End CookieFilterResults.

(** X7. [filterSensitiveCookies] returns unless the mode is [hide-sensitive]
    and the name of some cookie object cannot be converted to a string.
    When it returns, it answers item for item, and touches nothing but the
    [value] of a cookie: an item comes back as it was, or, if it is an
    object, as the copy of its own enumerable properties with [value] set
    to the marker, so that every own enumerable property other than [value]
    is as before; an item that is not an object comes back as it was. *)
Theorem filterSensitiveCookies_touches_only_value
  (Math_log2 : float64 -> float64) (settings : Settings) (items : list value) :
  (sensitiveDataMode settings <> lit "hide-sensitive" \/ names_convert items = true ->
   exists result, filterSensitiveCookies Math_log2 settings (Arr items) = Normal result)
  /\ (forall result,
        filterSensitiveCookies Math_log2 settings (Arr items) = Normal result ->
        Forall2 (fun cookie cookie' =>
                   (forall key, key <> lit "value" ->
                      lookup key (Object_entries cookie')
                      = lookup key (Object_entries cookie))
                   /\ (cookie' = cookie
                       \/ (is_object cookie = true
                           /\ cookie' = redacted_copy cookie
                           /\ lookup (lit "value") (Object_entries cookie')
                              = Some (Str REDACTED)))
                   /\ (is_object cookie = false -> cookie' = cookie))
                items result).
Proof.
  split; [apply filterSensitiveCookies_returns|].
  intros result Hresult. apply filterSensitiveCookies_items in Hresult.
  induction Hresult as [|cookie cookie' items result Hcookie _ IH]; constructor;
    [|exact IH].
  split; [|split].
  - intros key Hkey.
    destruct (filter_cookie_cases Math_log2 settings cookie Hcookie) as [->|[_ ->]];
      [reflexivity|].
    cbn [redacted_copy Object_entries]. rewrite lookup_define_property.
    rewrite jsstring_eqb_neq; [reflexivity|congruence].
  - destruct (filter_cookie_cases Math_log2 settings cookie Hcookie) as [->|[Hobj ->]];
      [now left|right].
    split; [exact Hobj|split; [reflexivity|]].
    cbn [redacted_copy Object_entries]. rewrite lookup_define_property. reflexivity.
  - intro Hobj. rewrite (filter_cookie_not_object Math_log2 settings cookie Hobj) in Hcookie.
    now injection Hcookie as <-.
Qed.

(** A session cookie in the mode [hide-sensitive]: the filter returns, and
    the cookie comes back redacted. *)
Lemma filterSensitiveCookies_touches_only_value_witness :
  (exists result,
     filterSensitiveCookies log2_of_power_of_two (with_mode "hide-sensitive" default_settings)
       (Arr [Obj [(lit "name", Str (lit "sessionId")); (lit "value", Str (lit "dark"))]])
     = Normal result)
  /\ Forall2 (fun cookie cookie' =>
                (forall key, key <> lit "value" ->
                   lookup key (Object_entries cookie') = lookup key (Object_entries cookie))
                /\ (cookie' = cookie
                    \/ (is_object cookie = true
                        /\ cookie' = redacted_copy cookie
                        /\ lookup (lit "value") (Object_entries cookie')
                           = Some (Str REDACTED)))
                /\ (is_object cookie = false -> cookie' = cookie))
       [Obj [(lit "name", Str (lit "sessionId")); (lit "value", Str (lit "dark"))]]
       [Obj [(lit "name", Str (lit "sessionId")); (lit "value", Str REDACTED)]].
Proof.
  destruct (filterSensitiveCookies_touches_only_value log2_of_power_of_two
              (with_mode "hide-sensitive" default_settings)
              [Obj [(lit "name", Str (lit "sessionId")); (lit "value", Str (lit "dark"))]])
    as [Hreturns Hitems].
  split.
  - apply Hreturns. right. reflexivity.
  - apply Hitems. vm_compute. reflexivity.
Defined.

(** X8. What [filterSensitiveCookies] lets through.  In the mode [hide-all]
    it returns, and every cookie object comes back with the marker for
    value.  In the mode [hide-sensitive] it throws when the name of some
    cookie object cannot be converted to a string; when it returns, a cookie
    object comes back with the marker unless neither its name nor its value
    is classified as sensitive.  In any other mode it returns the cookies as
    they were. *)
Theorem filterSensitiveCookies_lets_nothing_flagged_through
  (Math_log2 : float64 -> float64) (settings : Settings) (items : list value) :
  (exists result,
     filterSensitiveCookies Math_log2 (with_mode "hide-all" settings) (Arr items)
     = Normal result
     /\ Forall (fun cookie' => is_object cookie' = true -> is_redacted cookie' = true)
               result)
  /\ (names_convert items = false ->
      exists e,
        filterSensitiveCookies Math_log2 (with_mode "hide-sensitive" settings) (Arr items)
        = Throw e)
  /\ (forall result,
        filterSensitiveCookies Math_log2 (with_mode "hide-sensitive" settings) (Arr items)
        = Normal result ->
        Forall (fun cookie' =>
                  is_object cookie' = true ->
                  is_redacted cookie' = true \/ is_flagged Math_log2 cookie' = Normal false)
               result)
  /\ (sensitiveDataMode settings <> lit "hide-all" ->
      sensitiveDataMode settings <> lit "hide-sensitive" ->
      filterSensitiveCookies Math_log2 settings (Arr items) = Normal items).
Proof.
  split; [|split; [|split]].
  - eexists. split;
      [apply (filterSensitiveCookies_hide_all Math_log2 (with_mode "hide-all" settings));
       reflexivity|].
    apply Forall_forall. intros cookie' Hin. apply in_map_iff in Hin as [cookie [<- _]].
    intro Hobj. destruct (redacted_copy_is_redacted cookie) as [H|H]; [exact H|congruence].
  - apply filterSensitiveCookies_throws. reflexivity.
  - intros result Hresult. apply filterSensitiveCookies_items in Hresult.
    induction Hresult as [|cookie cookie' items result Hcookie _ IH]; constructor;
      [|exact IH].
    intro Hobj'.
    destruct (is_object cookie) eqn:Hobj;
      [|rewrite (filter_cookie_not_object Math_log2 _ cookie Hobj) in Hcookie;
        injection Hcookie as <-; congruence].
    rewrite (filter_cookie_object Math_log2 _ cookie Hobj) in Hcookie.
    change (must_redact_cookie Math_log2 (with_mode "hide-sensitive" settings)
              (get_property cookie (lit "name")) (get_property cookie (lit "value")))
      with (is_flagged Math_log2 cookie) in Hcookie.
    destruct (is_flagged Math_log2 cookie) as [[|]|e] eqn:Hflag; cbn [bind] in Hcookie;
      try discriminate; injection Hcookie as <-.
    + left. unfold is_redacted. rewrite redacted_cookie_properties. reflexivity.
    + now right.
  - intros Hall Hsens. apply filterSensitiveCookies_items.
    induction items as [|cookie items IH]; constructor; [|exact IH].
    destruct (is_object cookie) eqn:Hobj; [|now apply filter_cookie_not_object].
    rewrite (filter_cookie_object Math_log2 settings cookie Hobj).
    unfold must_redact_cookie.
    now rewrite (jsstring_eqb_neq Hall), (jsstring_eqb_neq Hsens).
Qed.

(** A session cookie in the mode [show-all], and a cookie without a name
    that converts in the mode [hide-sensitive]. *)
Lemma filterSensitiveCookies_lets_nothing_flagged_through_witness :
  filterSensitiveCookies log2_of_power_of_two (with_mode "show-all" default_settings)
    (Arr [Obj [(lit "name", Str (lit "sessionId")); (lit "value", Str example_uuid)]])
  = Normal [Obj [(lit "name", Str (lit "sessionId")); (lit "value", Str example_uuid)]]
  /\ exists e,
       filterSensitiveCookies log2_of_power_of_two (with_mode "hide-sensitive" default_settings)
         (Arr [unnameable_cookie])
       = Throw e.
Proof.
  split.
  - apply (filterSensitiveCookies_lets_nothing_flagged_through log2_of_power_of_two
             (with_mode "show-all" default_settings)
             [Obj [(lit "name", Str (lit "sessionId")); (lit "value", Str example_uuid)]]);
      vm_compute; discriminate.
  - apply (filterSensitiveCookies_lets_nothing_flagged_through log2_of_power_of_two
             default_settings [unnameable_cookie]).
    reflexivity.
Defined.

(** X9. [filterSensitiveCookies] is idempotent where it returns: filtering
    what it has returned returns the same again, whatever the mode and the
    datum. *)
Theorem filterSensitiveCookies_idempotent
  (Math_log2 : float64 -> float64) (settings : Settings) (cookies : value)
  (result : list value) :
  filterSensitiveCookies Math_log2 settings cookies = Normal result ->
  filterSensitiveCookies Math_log2 settings (Arr result) = Normal result.
Proof.
  intro Hresult.
  assert (H : exists items,
             filterSensitiveCookies Math_log2 settings (Arr items) = Normal result).
  { destruct cookies as [| | | |items|]; try (exists []; exact Hresult).
    now exists items. }
  destruct H as [items Hitems].
  apply filterSensitiveCookies_items in Hitems. apply filterSensitiveCookies_items.
  clear Hresult.
  induction Hitems as [|cookie cookie' items result Hcookie _ IH]; constructor;
    [|exact IH].
  exact (filter_cookie_idem Math_log2 settings cookie Hcookie).
Qed.

(** A session cookie, filtered twice in the mode [hide-sensitive]. *)
Lemma filterSensitiveCookies_idempotent_witness :
  filterSensitiveCookies log2_of_power_of_two (with_mode "hide-sensitive" default_settings)
    (Arr [Obj [(lit "name", Str (lit "sessionId")); (lit "value", Str REDACTED)]])
  = Normal [Obj [(lit "name", Str (lit "sessionId")); (lit "value", Str REDACTED)]].
Proof.
  apply (filterSensitiveCookies_idempotent log2_of_power_of_two
           (with_mode "hide-sensitive" default_settings)
           (Arr [Obj [(lit "name", Str (lit "sessionId")); (lit "value", Str (lit "dark"))]])).
  vm_compute. reflexivity.
Defined.

(** ** truncateStringsInData on trees *)

Lemma nesting_item (n : nat) (items : list value) (item : value) :
  list_max (map nesting items) <= n -> In item items -> nesting item <= n.
Proof.
  intros H Hin. apply list_max_le in H. rewrite Forall_forall in H.
  apply H. now apply in_map.
Qed.

(** A tree that fits the limits comes back as it is. *)
Lemma truncateStringsInData_fixed (maxLength n : nat) :
  forall v depth,
  nesting v <= n -> n + depth <= 100 ->
  all_strings (fun s => length s <=? maxLength) v = true ->
  plain_keys v = true ->
  truncateStringsInData shape_of v maxLength depth = v.
Proof.
  induction n as [|n IH]; intros v depth Hn Hd Hs Hk;
    rewrite truncateStringsInData_as_written;
    (destruct (Nat.ltb_spec 100 depth); [lia|]);
    destruct v as [|b|repr|s|items|entries]; try reflexivity; cbn [shape_of];
    cbn [nesting] in Hn; try lia.
  1,2: cbn [all_strings] in Hs; apply Nat.leb_le in Hs;
       destruct (Nat.ltb_spec maxLength (length s)); [lia|reflexivity].
  - f_equal. apply map_fixed. apply Forall_forall. intros item Hin.
    cbn [all_strings plain_keys] in Hs, Hk. rewrite forallb_forall in Hs, Hk.
    apply IH; auto; [|lia].
    apply nesting_item with (items := items); [lia|exact Hin].
  - cbn [all_strings plain_keys] in Hs, Hk.
    apply andb_true_iff in Hk as [Hk Hsub]. apply andb_true_iff in Hk as [Hdist Hplain].
    rewrite forallb_forall in Hs, Hsub, Hplain.
    rewrite (fold_assign_distinct
               (fun x => truncateStringsInData shape_of x maxLength (depth + 1)) entries [])
      by (now apply distinct_NoDup).
    cbn [app]. f_equal.
    rewrite filter_all by (apply Forall_forall; exact Hplain).
    apply map_fixed. apply Forall_forall. intros [k x] Hin. cbn [fst snd].
    f_equal. apply IH; [|lia|exact (Hs _ Hin)|exact (Hsub _ Hin)].
    assert (Hmax : list_max (map (fun kv => nesting (snd kv)) entries) <= n) by lia.
    apply list_max_le in Hmax. rewrite Forall_forall in Hmax.
    apply Hmax. now apply (in_map (fun kv => nesting (snd kv)) entries (k, x)).
Qed.

(** X10. Data that need no bounding come back unchanged: on a tree that
    nests at most 100 levels, holds no string longer than the limit, and
    whose objects have distinct keys other than [__proto__],
    [truncateStringsInData] is the identity. *)
Theorem truncateStringsInData_identity_within_limits (v : value) (maxLength : nat) :
  nesting v <= 100 ->
  all_strings (fun s => length s <=? maxLength) v = true ->
  plain_keys v = true ->
  truncateStringsInData shape_of v maxLength 0 = v.
Proof.
  intros Hn Hs Hk.
  apply truncateStringsInData_fixed with (n := nesting v); auto; lia.
Qed.

(** A document whose strings have at most three code units. *)
Lemma truncateStringsInData_identity_within_limits_witness :
  truncateStringsInData shape_of example_document 3 0 = example_document.
Proof.
  apply truncateStringsInData_identity_within_limits.
  - vm_compute. lia.
  - reflexivity.
  - reflexivity.
Defined.

Lemma depth_marker_left (maxLength : nat) :
  all_strings (left_by_truncation maxLength) (Str MAX_DEPTH_EXCEEDED) = true.
Proof.
  cbn [all_strings]. unfold left_by_truncation.
  now rewrite jsstring_eqb_refl, orb_true_r.
Qed.

Section TruncateBounds.

Context {V : Type} (inspect_data : V -> shape V) (maxLength : nat).

Lemma truncated_strings (n : nat) :
  forall data depth, depth + n = 101 ->
  all_strings (left_by_truncation maxLength)
    (truncateStringsInData inspect_data data maxLength depth) = true.
Proof.
  induction n as [|n IH]; intros data depth Hd.
  - rewrite truncateStringsInData_beyond by lia. apply depth_marker_left.
  - rewrite truncateStringsInData_as_written.
    destruct (Nat.ltb_spec 100 depth); [lia|].
    destruct (inspect_data data) as [s|items|entries|p].
    + destruct (Nat.ltb_spec maxLength (length s)); cbn [all_strings];
        unfold left_by_truncation; apply orb_true_iff; left; apply Nat.leb_le.
      * unfold substring0. rewrite length_app, length_firstn. lia.
      * lia.
    + cbn [all_strings]. apply forallb_forall. intros v Hv.
      apply in_map_iff in Hv as (item & <- & _). apply IH. lia.
    + cbn [all_strings]. apply forallb_forall. intros kv Hkv.
      pose proof (@fold_assign_values V
                    (fun v => all_strings (left_by_truncation maxLength) v = true)
                    (fun x => truncateStringsInData inspect_data x maxLength (depth + 1))
                    entries (fun kv' _ => IH (snd kv') (depth + 1) ltac:(lia))
                    [] (Forall_nil _)) as Hall.
      rewrite Forall_forall in Hall. apply Hall. now apply in_map.
    + destruct p; reflexivity.
Qed.

End TruncateBounds.

(** X11. Whatever the datum (cyclic ones included) and the depth it is
    called at, every string value in the result of [truncateStringsInData]
    has at most [maxLength + 15] code units, or is the depth marker. *)
Theorem truncateStringsInData_bounds_every_string
  {V : Type} (inspect_data : V -> shape V) (data : V) (maxLength depth : nat) :
  all_strings (left_by_truncation maxLength)
    (truncateStringsInData inspect_data data maxLength depth) = true.
Proof.
  destruct (le_lt_dec depth 100) as [Hle|Hgt].
  - apply truncated_strings with (n := 101 - depth). lia.
  - rewrite truncateStringsInData_beyond by lia. apply depth_marker_left.
Qed.

(** X12. [truncateStringsInData] never touches a key: an object with
    distinct keys comes back with the same keys in the same order, each with
    its value bounded one level further down; only an entry named
    [__proto__] is left out. *)
Theorem truncateStringsInData_keeps_keys
  {V : Type} (inspect_data : V -> shape V) (data : V) (entries : list (jsstring * V))
  (maxLength depth : nat) :
  depth <= 100 ->
  inspect_data data = IsObject entries ->
  distinct (map fst entries) = true ->
  truncateStringsInData inspect_data data maxLength depth
  = Obj (map (fun kv =>
                (fst kv, truncateStringsInData inspect_data (snd kv) maxLength (depth + 1)))
             (filter (fun kv => not_proto (fst kv)) entries)).
Proof.
  intros Hd Hshape Hdist.
  rewrite truncateStringsInData_as_written.
  destruct (Nat.ltb_spec 100 depth); [lia|].
  rewrite Hshape.
  rewrite (fold_assign_distinct
             (fun x => truncateStringsInData inspect_data x maxLength (depth + 1)) entries [])
    by (now apply distinct_NoDup).
  reflexivity.
Qed.

(** A key longer than the limit, and an entry named [__proto__]. *)
Lemma truncateStringsInData_keeps_keys_witness :
  truncateStringsInData shape_of
    (Obj [(lit "a-very-long-key", Str (lit "a long value")); (lit "__proto__", Null)]) 6 0
  = Obj [(lit "a-very-long-key", Str (lit "a long... (truncated)"))].
Proof.
  rewrite (@truncateStringsInData_keeps_keys value shape_of
             (Obj [(lit "a-very-long-key", Str (lit "a long value")); (lit "__proto__", Null)])
             [(lit "a-very-long-key", Str (lit "a long value")); (lit "__proto__", Null)]
             6 0); [|lia|reflexivity|reflexivity].
  vm_compute. reflexivity.
Defined.

(** ** processArrayWithSizeLimit *)

Lemma total_size_app (items items' : list value) :
  total_size (items ++ items') = total_size items + total_size items'.
Proof. unfold total_size. now rewrite map_app, list_sum_app. Qed.

(** X13. [processArrayWithSizeLimit] keeps every item exactly when the sizes
    of all the transformed items add up to at most the budget. *)
Theorem processArrayWithSizeLimit_keeps_all_iff_all_fit
  (array : list value) (maxTotalSize : nat) (f : value -> value) :
  processArrayWithSizeLimit stringify_total array maxTotalSize (fun item => Normal (f item))
  = Normal (map f array)
  <-> total_size (map f array) <= maxTotalSize.
Proof.
  destruct (processArray_loop_spec maxTotalSize f array 0 [])
    as (kept & dropped & Hrun & Hsplit & Hbound & Htrigger).
  unfold processArrayWithSizeLimit. rewrite Hrun. cbn [app]. split.
  - intro H. injection H as H. rewrite <- H.
    destruct kept as [|k kept']; [unfold total_size; simpl; lia|].
    apply Hbound. discriminate.
  - intro Hfits. f_equal. rewrite Hsplit in *.
    destruct dropped as [|trigger dropped']; [now rewrite app_nil_r|].
    rewrite total_size_app in Hfits. unfold total_size at 2 in Hfits.
    simpl in Hfits. lia.
Qed.

Section BudgetOrder.

Variables maxTotalSize maxTotalSize' : nat.
Hypothesis budget_le : maxTotalSize <= maxTotalSize'.
Variable f : value -> value.

Lemma processArray_loop_monotone (items : list value) :
  forall currentSize result,
  exists kept more,
    processArray_loop stringify_total maxTotalSize (fun item => Normal (f item))
      items currentSize result
    = Normal (result ++ kept)
    /\ processArray_loop stringify_total maxTotalSize' (fun item => Normal (f item))
         items currentSize result
       = Normal (result ++ kept ++ more).
Proof.
  induction items as [|item rest IH]; intros currentSize result.
  - exists [], []. simpl. now rewrite app_nil_r.
  - destruct (processArray_loop_spec maxTotalSize' f (item :: rest) currentSize result)
      as (kept' & _ & Hrun' & _).
    cbn [processArray_loop bind calculateObjectSize stringify_total] in *.
    fold (serialized_size (f item)) in *.
    destruct (Nat.ltb_spec maxTotalSize (currentSize + serialized_size (f item)))
      as [Hover|Hfits].
    + exists [], kept'. rewrite app_nil_r. split; [reflexivity|exact Hrun'].
    + destruct (Nat.ltb_spec maxTotalSize' (currentSize + serialized_size (f item)));
        [lia|].
      destruct (IH (currentSize + serialized_size (f item)) (result ++ [f item]))
        as (kept & more & Hrun & Hmore).
      exists (f item :: kept), more. rewrite Hrun, Hmore.
      now rewrite <- !app_assoc.
Qed.

End BudgetOrder.

(** X14. A larger budget never loses an item: what [processArrayWithSizeLimit]
    keeps under a budget is a prefix of what it keeps under a larger one. *)
Theorem processArrayWithSizeLimit_monotone_in_budget
  (array : list value) (maxTotalSize maxTotalSize' : nat) (f : value -> value) :
  maxTotalSize <= maxTotalSize' ->
  exists kept more : list value,
    processArrayWithSizeLimit stringify_total array maxTotalSize
      (fun item => Normal (f item)) = Normal kept
    /\ processArrayWithSizeLimit stringify_total array maxTotalSize'
         (fun item => Normal (f item)) = Normal (kept ++ more).
Proof.
  intro Hle.
  destruct (processArray_loop_monotone Hle f array 0 []) as (kept & more & H & H').
  now exists kept, more.
Qed.

(** Two strings under the budgets 5 and 12. *)
Lemma processArrayWithSizeLimit_monotone_in_budget_witness :
  exists kept more : list value,
    processArrayWithSizeLimit stringify_total [Str (lit "ab"); Str (lit "abcdef")] 5
      (fun item => Normal item) = Normal kept
    /\ processArrayWithSizeLimit stringify_total [Str (lit "ab"); Str (lit "abcdef")] 12
         (fun item => Normal item) = Normal (kept ++ more).
Proof.
  apply (@processArrayWithSizeLimit_monotone_in_budget
           [Str (lit "ab"); Str (lit "abcdef")] 5 12 (fun item => item)).
  lia.
Defined.

Section Overflow.

Variable JSON_stringify : value -> completion jsstring.
Variable maxTotalSize : nat.
Variable processFunc : value -> completion value.

Lemma processArray_loop_stops (pre : list value) (x : value) (rest kept : list value) :
  forall currentSize result,
  processArray_loop JSON_stringify maxTotalSize processFunc (pre ++ [x]) currentSize result
  = Normal kept ->
  length kept <= length result + length pre ->
  processArray_loop JSON_stringify maxTotalSize processFunc (pre ++ x :: rest)
    currentSize result
  = Normal kept.
Proof.
  induction pre as [|a pre IH]; intros currentSize result Hrun Hlen;
    cbn [app processArray_loop] in *.
  - destruct (processFunc x) as [p|e]; cbn [bind] in *; [|discriminate].
    destruct (calculateObjectSize JSON_stringify p) as [size|e]; cbn [bind] in *;
      [|discriminate].
    destruct (maxTotalSize <? currentSize + size); [exact Hrun|].
    cbn [processArray_loop] in Hrun. injection Hrun as <-.
    rewrite length_app in Hlen. simpl in Hlen. lia.
  - destruct (processFunc a) as [p|e]; cbn [bind] in *; [|discriminate].
    destruct (calculateObjectSize JSON_stringify p) as [size|e]; cbn [bind] in *;
      [|discriminate].
    destruct (maxTotalSize <? currentSize + size); [exact Hrun|].
    apply IH; [exact Hrun|].
    rewrite length_app. simpl in *. lia.
Qed.

End Overflow.

(** X15. The loop of [processArrayWithSizeLimit] breaks at the first item
    that does not fit: the items after it are never handed to [processFunc]
    nor measured.  If the call on [pre ++ [x]] has dropped [x], then the call
    on [pre ++ x :: rest] gives the same result, whatever [rest] holds and
    whatever [processFunc] or [JSON.stringify] would do on it (throw
    included). *)
Theorem processArrayWithSizeLimit_never_looks_past_the_break
  (JSON_stringify : value -> completion jsstring) (maxTotalSize : nat)
  (processFunc : value -> completion value) (pre : list value) (x : value)
  (rest kept : list value) :
  processArrayWithSizeLimit JSON_stringify (pre ++ [x]) maxTotalSize processFunc
  = Normal kept ->
  length kept <= length pre ->
  processArrayWithSizeLimit JSON_stringify (pre ++ x :: rest) maxTotalSize processFunc
  = Normal kept.
Proof.
  intros Hrun Hlen. unfold processArrayWithSizeLimit in *.
  apply processArray_loop_stops; [exact Hrun|exact Hlen].
Qed.

(** The second item does not fit; the third would make [processFunc] throw. *)
Lemma processArrayWithSizeLimit_never_looks_past_the_break_witness :
  processArrayWithSizeLimit stringify_total
    ([Str (lit "ab")] ++ Str (lit "abcdef") :: [Null; Str (lit "c")]) 5 reject_null
  = Normal [Str (lit "ab")].
Proof.
  apply processArrayWithSizeLimit_never_looks_past_the_break.
  - reflexivity.
  - simpl. lia.
Defined.

(** ** processJsonString *)

Lemma truncated_text_length (text : jsstring) (maxLength : nat) :
  length (if maxLength <? length text then substring0 maxLength text ++ TRUNCATED else text)
  <= maxLength + length TRUNCATED.
Proof.
  destruct (Nat.ltb_spec maxLength (length text)); [|lia].
  unfold substring0. rewrite length_app, length_firstn. lia.
Qed.

(** X16. [processJsonString] returns a string whatever fails inside it; and
    when it has fallen back (the text did not pass the inner [try], or a
    later step threw), that string has at most [maxLength + 15] code
    units. *)
Theorem processJsonString_returns_a_string
  (JSON_parse : jsstring -> completion value)
  (JSON_stringify : value -> completion jsstring)
  (settings : Settings) (text : jsstring) (maxLength : nat) :
  exists s : jsstring,
    processJsonString JSON_parse JSON_stringify settings text maxLength = Str s
    /\ ((exists e, parse_and_log JSON_parse JSON_stringify text = Throw e)
        \/ (exists e, processJsonString_body JSON_parse JSON_stringify settings text maxLength
                      = Throw e) ->
        length s <= maxLength + 15).
Proof.
  change 15 with (length TRUNCATED).
  unfold processJsonString, processJsonString_body.
  destruct (parse_and_log JSON_parse JSON_stringify text) as [parsed|e].
  - destruct (process_parsed JSON_stringify settings parsed maxLength) as [result|e] eqn:E.
    + assert (Hs : exists s, result = Str s).
      { destruct parsed; cbn [process_parsed] in E;
          repeat match type of E with
                 | bind ?c _ = _ => destruct c; cbn [bind] in E; try discriminate
                 | Normal _ = Normal _ => injection E as <-
                 end; eauto. }
      destruct Hs as [s ->]. exists s. split; [reflexivity|].
      intros [[e He]|[e He]]; discriminate.
    + eexists. split; [reflexivity|]. intros _.
      unfold substring0. rewrite length_app, length_firstn. lia.
  - rewrite truncateStringsInData_string. eexists. split; [reflexivity|].
    intros _. apply truncated_text_length.
Qed.

(** A text that is not JSON. *)
Lemma processJsonString_returns_a_string_witness :
  exists s : jsstring,
    processJsonString parse_one_array stringify_total default_settings
      (lit "GET /index.html") 7 = Str s
    /\ length s <= 7 + 15.
Proof.
  destruct (processJsonString_returns_a_string parse_one_array stringify_total
              default_settings (lit "GET /index.html") 7) as (s & Hs & Hlen).
  exists s. split; [exact Hs|]. apply Hlen. left.
  exists (SyntaxError (lit "Unexpected token")). reflexivity.
Defined.

Lemma prefix_of_map {A B : Type} (f : A -> B) (l : list A) (kept dropped : list B) :
  map f l = kept ++ dropped -> kept = map f (firstn (length kept) l).
Proof.
  intro H. rewrite <- firstn_map, H, firstn_app, Nat.sub_diag, firstn_all.
  simpl. now rewrite app_nil_r.
Qed.

(** X17. A text that parses to an array comes back as the JSON text of an
    array: the first [k] items, each bounded by [truncateStringsInData], for
    some [k]; and that text has at most [maxLogSize + k + 2] code units (on
    an engine whose [JSON.stringify] does not fail). *)
Theorem processJsonString_array_is_a_bounded_prefix
  (JSON_parse : jsstring -> completion value) (settings : Settings) (text : jsstring)
  (items : list value) (maxLength : nat) :
  JSON_parse text = Normal (Arr items) ->
  exists k : nat,
    k <= length items
    /\ processJsonString JSON_parse stringify_total settings text maxLength
       = Str (SerializeJSON
                (Arr (map (fun item => truncateStringsInData shape_of item maxLength 0)
                          (firstn k items))))
    /\ serialized_size
         (Arr (map (fun item => truncateStringsInData shape_of item maxLength 0)
                   (firstn k items)))
       <= maxLogSize settings + k + 2.
Proof.
  intro Hparse.
  destruct (processArray_loop_spec (maxLogSize settings)
              (fun item => truncateStringsInData shape_of item maxLength 0) items 0 [])
    as (kept & dropped & Hrun & Hsplit & Hbound & _).
  pose proof (prefix_of_map _ _ _ _ Hsplit) as Hkept.
  assert (Hk : length kept <= length items).
  { apply (f_equal (fun l => length l)) in Hsplit.
    rewrite length_map, length_app in Hsplit. lia. }
  exists (length kept). split; [exact Hk|]. rewrite <- Hkept. split.
  - unfold processJsonString, processJsonString_body, parse_and_log.
    rewrite Hparse. cbn [bind Object_keys stringify_total process_parsed].
    unfold processArrayWithSizeLimit. rewrite Hrun. reflexivity.
  - rewrite serialized_size_Arr.
    destruct kept as [|item kept']; [unfold total_size; simpl; lia|].
    assert (Hne : item :: kept' <> []) by discriminate.
    specialize (Hbound Hne). simpl in *. lia.
Qed.

(** The text [[1234567]]. *)
Lemma processJsonString_array_is_a_bounded_prefix_witness :
  exists k : nat,
    k <= 1
    /\ processJsonString parse_one_array stringify_total default_settings (lit "[1234567]") 3
       = Str (SerializeJSON
                (Arr (map (fun item => truncateStringsInData shape_of item 3 0)
                          (firstn k [Number (lit "1234567")]))))
    /\ serialized_size
         (Arr (map (fun item => truncateStringsInData shape_of item 3 0)
                   (firstn k [Number (lit "1234567")])))
       <= 20000 + k + 2.
Proof.
  apply (@processJsonString_array_is_a_bounded_prefix parse_one_array default_settings
           (lit "[1234567]") [Number (lit "1234567")] 3).
  reflexivity.
Defined.

(** X18. A text that [JSON.parse] reads as [null] is handled as text that is
    not JSON: [Object.keys(null)] throws inside the inner [try], so the text
    itself comes back, cut to the limit if it is longer. *)
Theorem processJsonString_of_parsed_null
  (JSON_parse : jsstring -> completion value)
  (JSON_stringify : value -> completion jsstring)
  (settings : Settings) (text : jsstring) (maxLength : nat) :
  JSON_parse text = Normal Null ->
  processJsonString JSON_parse JSON_stringify settings text maxLength
  = Str (if maxLength <? length text
         then substring0 maxLength text ++ TRUNCATED
         else text).
Proof.
  intro Hparse.
  unfold processJsonString, processJsonString_body, parse_and_log.
  rewrite Hparse. cbn [bind Object_keys].
  apply truncateStringsInData_string.
Qed.

(** The text [null] between two spaces. *)
Lemma processJsonString_of_parsed_null_witness :
  processJsonString parse_padded_null stringify_total default_settings (lit " null ") 3
  = Str (lit " nu... (truncated)").
Proof.
  apply (@processJsonString_of_parsed_null parse_padded_null stringify_total
           default_settings (lit " null ") 3).
  reflexivity.
Defined.

(** ** Identity validation and the connection *)

(** One run of [validateServerIdentity]: the verdict, the session as it was,
    one notification. *)
Lemma validateServerIdentity_run (settings : Settings) (outcome : fetch_outcome)
  (st : session) :
  exists n : notification,
    validateServerIdentity settings outcome st = (accepted outcome, st, [SendMessage n])
    /\ is_success n = accepted outcome
    /\ server_of n = (serverHost settings, serverPort settings).
Proof.
  unfold validateServerIdentity, connection_error, accepted, validation_failed.
  destruct outcome as [ok status [server|e]|e]; [destruct ok| |];
    try (eexists; repeat split; fail).
  - assert (Hread : read_signature server = Normal (get_property server (lit "signature"))
                    \/ server = Null) by (destruct server; auto).
    destruct Hread as [->| ->]; [|eexists; repeat split].
    destruct (strictly_equals _ EXPECTED_SIGNATURE); cbn [negb andb];
      [|eexists; repeat split].
    destruct (identity_log_line server); eexists; repeat split.
  - destruct ok; eexists; repeat split.
Qed.

Lemma strictly_equals_iff (x : option value) (s : jsstring) :
  strictly_equals x s = true <-> x = Some (Str s).
Proof.
  split; [|intros ->; apply jsstring_eqb_refl].
  destruct x as [[| | |t| |]|]; try discriminate. cbn [strictly_equals].
  intro H. apply jsstring_eqb_eq in H. now subst t.
Qed.

Lemma identity_log_line_returns (server : value) :
  (exists line, identity_log_line server = Normal line)
  <-> (exists name, ToString_opt (get_property server (lit "name")) = Normal name)
      /\ (exists version,
            ToString_opt (get_property server (lit "version")) = Normal version).
Proof.
  unfold identity_log_line.
  destruct (ToString_opt (get_property server (lit "name"))) as [name|e];
    destruct (ToString_opt (get_property server (lit "version"))) as [version|e'];
    cbn [bind]; split;
    try (intros [line H]; discriminate);
    try (intros [[name' H] [version' H']]; discriminate).
  - intros _. split; eexists; reflexivity.
  - intros _. eexists; reflexivity.
Qed.

Lemma accepted_iff (outcome : fetch_outcome) :
  accepted outcome = true
  <-> exists (status : nat) (server : value),
        outcome = Responds true status (BodyJson server)
        /\ get_property server (lit "signature") = Some (Str EXPECTED_SIGNATURE)
        /\ (exists name, ToString_opt (get_property server (lit "name")) = Normal name)
        /\ (exists version,
              ToString_opt (get_property server (lit "version")) = Normal version).
Proof.
  split.
  - destruct outcome as [[|] status [server|e]|e]; try discriminate. cbn [accepted].
    intro H. apply andb_true_iff in H as [Hsig Hline].
    apply strictly_equals_iff in Hsig.
    exists status, server. split; [reflexivity|split; [exact Hsig|]].
    apply identity_log_line_returns.
    destruct (identity_log_line server) as [line|e]; [now exists line|discriminate].
  - intros (status & server & -> & Hsig & Hname & Hversion). cbn [accepted].
    rewrite Hsig. cbn [strictly_equals]. rewrite jsstring_eqb_refl. cbn [andb].
    destruct (proj2 (identity_log_line_returns server) (conj Hname Hversion))
      as [line Hline].
    now rewrite Hline.
Qed.

(** X19. [validateServerIdentity] answers [true] exactly when the response
    has a success status and a JSON body whose [signature] is the expected
    string and whose [name] and [version] can be converted to strings, as
    the log statement that follows the signature test does.  Whatever the
    outcome, it leaves the session variables alone and sends exactly one
    notification, naming the configured server: the success notification if
    it answers [true], a failure otherwise.  When the signature is right and
    the log statement throws, the failure has the reason
    [connection_error] and carries the message of the exception. *)
Theorem validateServerIdentity_verdict (settings : Settings) (outcome : fetch_outcome)
  (st : session) :
  (result_of (validateServerIdentity settings outcome) st = true
   <-> exists (status : nat) (server : value),
         outcome = Responds true status (BodyJson server)
         /\ get_property server (lit "signature")
            = Some (Str (lit "mcp-browser-connector-24x7"))
         /\ (exists name, ToString_opt (get_property server (lit "name")) = Normal name)
         /\ (exists version,
               ToString_opt (get_property server (lit "version")) = Normal version))
  /\ state_after (validateServerIdentity settings outcome) st = st
  /\ (exists n : notification,
        trace_of (validateServerIdentity settings outcome) st = [SendMessage n]
        /\ is_success n = result_of (validateServerIdentity settings outcome) st
        /\ server_of n = (serverHost settings, serverPort settings))
  /\ (forall (status : nat) (server : value) (e : exn),
        get_property server (lit "signature")
        = Some (Str (lit "mcp-browser-connector-24x7")) ->
        identity_log_line server = Throw e ->
        validateServerIdentity settings (Responds true status (BodyJson server)) st
        = (false, st,
           [SendMessage (SERVER_VALIDATION_FAILED (lit "connection_error") None
                           (Some (message_of e))
                           (serverHost settings) (serverPort settings))])).
Proof.
  destruct (validateServerIdentity_run settings outcome st) as (n & Hrun & Hn & Hserver).
  unfold result_of, state_after, trace_of. rewrite Hrun. cbn [fst snd].
  split; [apply accepted_iff|]. split; [reflexivity|]. split.
  - exists n. now repeat split.
  - intros status server e Hsig Hline. unfold validateServerIdentity. cbn [negb].
    assert (Hread : read_signature server = Normal (get_property server (lit "signature")))
      by (destruct server; try discriminate Hsig; reflexivity).
    rewrite Hread, Hsig, Hline. reflexivity.
Qed.

(** The connector's answer, and an answer with the right signature and a
    name that cannot be converted. *)
Lemma validateServerIdentity_verdict_witness :
  result_of (validateServerIdentity default_settings connector_response) initial_session
  = true
  /\ validateServerIdentity default_settings unnameable_response initial_session
     = (false, initial_session,
        [SendMessage (SERVER_VALIDATION_FAILED (lit "connection_error") None
                        (Some (lit "Cannot convert object to primitive value"))
                        (lit "localhost") 3025)]).
Proof.
  destruct (validateServerIdentity_verdict default_settings connector_response
              initial_session) as [Haccepts _].
  destruct (validateServerIdentity_verdict default_settings unnameable_response
              initial_session) as (_ & _ & _ & Hthrows).
  split.
  - apply Haccepts.
    exists 200, (Obj [(lit "name", Str (lit "browser-tools-server"));
                      (lit "signature", Str EXPECTED_SIGNATURE)]).
    repeat split; eexists; reflexivity.
  - apply (Hthrows 200
             (Obj [(lit "name", Obj [(lit "toString", Number (lit "0"))]);
                   (lit "signature", Str EXPECTED_SIGNATURE)])
             (TypeError (lit "Cannot convert object to primitive value")));
      reflexivity.
Defined.

Lemma setupWebSocket_start_run (st : session) :
  setupWebSocket_start st
  = (tt,
     Session None None None (reconnectAfterValidation st)
       (match ws st with Some _ => false | None => intentionalClosure st end)
       (next_handle st),
     match wsReconnectTimeout st with Some t => [ClearTimeout t] | None => [] end
     ++ match heartbeatInterval st with Some h => [ClearInterval h] | None => [] end
     ++ match ws st with Some s => [WsClose s] | None => [] end).
Proof. destruct st as [[s|] [t|] [h|] r i n]; reflexivity. Qed.

(** [setupWebSocket] after a validation that succeeded. *)
Lemma setupWebSocket_resume_valid (settings : Settings) (st : session) :
  setupWebSocket_resume settings true None st
  = (tt,
     Session (Some (next_handle st)) (wsReconnectTimeout st) (heartbeatInterval st) false
             (intentionalClosure st) (S (next_handle st)),
     [WsNew (next_handle st) (wsUrl settings)]).
Proof. destruct st. reflexivity. Qed.

Lemma setupWebSocket_resume_throws (settings : Settings) (e : exn) (st : session) :
  setupWebSocket_resume settings true (Some e) st
  = (tt,
     Session (ws st) (Some (next_handle st)) (heartbeatInterval st) false
             (intentionalClosure st) (S (next_handle st)),
     [SetTimeout (next_handle st) Call_setupWebSocket WS_RECONNECT_DELAY]).
Proof. destruct st. reflexivity. Qed.

Lemma setupWebSocket_run (settings : Settings) (outcome : fetch_outcome)
  (ctor : option exn) (st : session) :
  exists n : notification,
    setupWebSocket settings outcome ctor st
    = (tt,
       state_after (setupWebSocket_resume settings (accepted outcome) ctor)
         (state_after setupWebSocket_start st),
       trace_of setupWebSocket_start st
       ++ [SendMessage n]
       ++ trace_of (setupWebSocket_resume settings (accepted outcome) ctor)
            (state_after setupWebSocket_start st)).
Proof.
  unfold setupWebSocket, and_then, state_after, trace_of.
  rewrite setupWebSocket_start_run. cbn [fst snd].
  match goal with
  | |- context [validateServerIdentity settings outcome ?st1] =>
      destruct (validateServerIdentity_run settings outcome st1) as (n & Hrun & _)
  end.
  exists n. rewrite Hrun.
  destruct (setupWebSocket_resume settings (accepted outcome) ctor _) as [[[] st2] t2].
  reflexivity.
Qed.

(** X20. A call of [setupWebSocket], up to its [await], releases what the
    session held (the pending reconnection, the heartbeat, the socket, in
    that order) and leaves the three variables [null].  When it resumes
    after a validation that succeeded, in whatever state [st'] the tasks run
    meanwhile have left the variables, it opens exactly one socket and
    assigns it to [ws]; if the constructor throws, it assigns nothing to
    [ws] and schedules exactly one retry instead.  So a call that the
    server's identity lets through, with nothing else running at the
    [await], ends with the new socket and no timer, or, if the constructor
    throws, with no socket and one retry. *)
Theorem setupWebSocket_replaces_the_connection
  (settings : Settings) (outcome : fetch_outcome) (st st' : session) :
  accepted outcome = true ->
  (trace_of setupWebSocket_start st
   = match wsReconnectTimeout st with Some t => [ClearTimeout t] | None => [] end
     ++ match heartbeatInterval st with Some h => [ClearInterval h] | None => [] end
     ++ match ws st with Some s => [WsClose s] | None => [] end
   /\ state_after setupWebSocket_start st
      = Session None None None (reconnectAfterValidation st)
          (match ws st with Some _ => false | None => intentionalClosure st end)
          (next_handle st))
  /\ (setupWebSocket_resume settings true None st'
      = (tt,
         Session (Some (next_handle st')) (wsReconnectTimeout st') (heartbeatInterval st')
                 false (intentionalClosure st') (S (next_handle st')),
         [WsNew (next_handle st') (wsUrl settings)])
      /\ forall e : exn,
           setupWebSocket_resume settings true (Some e) st'
           = (tt,
              Session (ws st') (Some (next_handle st')) (heartbeatInterval st')
                      false (intentionalClosure st') (S (next_handle st')),
              [SetTimeout (next_handle st') Call_setupWebSocket WS_RECONNECT_DELAY]))
  /\ (released (trace_of (setupWebSocket settings outcome None) st)
      = match wsReconnectTimeout st with Some t => [ClearTimeout t] | None => [] end
        ++ match heartbeatInterval st with Some h => [ClearInterval h] | None => [] end
        ++ match ws st with Some s => [WsClose s] | None => [] end
      /\ opened_sockets (trace_of (setupWebSocket settings outcome None) st)
         = [next_handle st]
      /\ scheduled_reconnects (trace_of (setupWebSocket settings outcome None) st) = []
      /\ state_after (setupWebSocket settings outcome None) st
         = Session (Some (next_handle st)) None None false
             (match ws st with Some _ => false | None => intentionalClosure st end)
             (S (next_handle st)))
  /\ (forall e : exn,
        opened_sockets (trace_of (setupWebSocket settings outcome (Some e)) st) = []
        /\ scheduled_reconnects (trace_of (setupWebSocket settings outcome (Some e)) st)
           = [WS_RECONNECT_DELAY]
        /\ state_after (setupWebSocket settings outcome (Some e)) st
           = Session None (Some (next_handle st)) None false
               (match ws st with Some _ => false | None => intentionalClosure st end)
               (S (next_handle st))).
Proof.
  intro Hacc. split; [|split; [|split; [|intro e]]].
  - unfold trace_of, state_after. rewrite setupWebSocket_start_run. split; reflexivity.
  - split; [apply setupWebSocket_resume_valid|].
    intro e. apply setupWebSocket_resume_throws.
  - destruct (setupWebSocket_run settings outcome None st) as (n & Hrun).
    unfold trace_of at 1 2 3, state_after at 1. rewrite Hrun, Hacc. cbn [fst snd].
    unfold trace_of, state_after. rewrite setupWebSocket_start_run. cbn [fst snd].
    destruct st as [[s|] [t|] [h|] r i m]; repeat split.
  - destruct (setupWebSocket_run settings outcome (Some e) st) as (n & Hrun).
    unfold trace_of at 1 2, state_after at 1. rewrite Hrun, Hacc. cbn [fst snd].
    unfold trace_of, state_after. rewrite setupWebSocket_start_run. cbn [fst snd].
    destruct st as [[s|] [t|] [h|] r i m]; repeat split.
Qed.

(** A session holding a socket, a pending reconnection and a heartbeat; and
    a resumption that finds a socket in [ws]. *)
Lemma setupWebSocket_replaces_the_connection_witness :
  released (trace_of (setupWebSocket default_settings connector_response None) busy_session)
  = [ClearTimeout 2; ClearInterval 3; WsClose 1]
  /\ opened_sockets
       (trace_of (setupWebSocket default_settings connector_response None) busy_session)
     = [4]
  /\ state_after (setupWebSocket default_settings connector_response None) busy_session
     = Session (Some 4) None None false false 5
  /\ state_after (setupWebSocket_resume default_settings true
                    (Some (TypeError (lit "Failed to construct 'WebSocket'"))))
       connected_session
     = Session (Some 1) (Some 2) None false false 3.
Proof.
  destruct (@setupWebSocket_replaces_the_connection default_settings connector_response
              busy_session connected_session eq_refl)
    as (_ & [_ Hthrows] & (Hreleased & Hopened & _ & Hstate) & _).
  split; [exact Hreleased|split; [exact Hopened|split; [exact Hstate|]]].
  unfold state_after.
  now rewrite (Hthrows (TypeError (lit "Failed to construct 'WebSocket'"))).
Defined.

(** X21. When [setupWebSocket] resumes after a validation that failed, in
    whatever state [st'], it starts a retry timer and keeps its handle.  A
    close event delivered next, with the intentional-closure flag down,
    schedules another one, whatever its code: [onclose] neither clears the
    pending timer nor remembers it, so two reconnections are then pending
    and the session variable holds only the second.  With the flag raised
    (the first unload listener raises it), the close event schedules
    nothing.  So it is for a whole call whose validation failed, nothing
    else running at its [await], made with the flag down. *)
Theorem close_event_after_failed_validation
  (settings : Settings) (outcome : fetch_outcome) (ctor : option exn) (code : nat)
  (st st' : session) :
  (trace_of (setupWebSocket_resume settings false ctor) st'
   = [SetTimeout (next_handle st') Call_setupWebSocket WS_RECONNECT_DELAY]
   /\ wsReconnectTimeout (state_after (setupWebSocket_resume settings false ctor) st')
      = Some (next_handle st'))
  /\ (intentionalClosure st' = false ->
      trace_of (onclose code) (state_after (setupWebSocket_resume settings false ctor) st')
      = match heartbeatInterval st' with Some h => [ClearInterval h] | None => [] end
        ++ [SetTimeout (S (next_handle st')) Call_setupWebSocket WS_RECONNECT_DELAY]
      /\ wsReconnectTimeout
           (state_after (onclose code)
              (state_after (setupWebSocket_resume settings false ctor) st'))
         = Some (S (next_handle st')))
  /\ (intentionalClosure st' = true ->
      scheduled_reconnects
        (trace_of (onclose code)
           (state_after (setupWebSocket_resume settings false ctor) st'))
      = [])
  /\ (accepted outcome = false ->
      intentionalClosure st = false ->
      scheduled_reconnects (trace_of (setupWebSocket settings outcome ctor) st)
      = [WS_RECONNECT_DELAY]
      /\ wsReconnectTimeout (state_after (setupWebSocket settings outcome ctor) st)
         = Some (next_handle st)
      /\ trace_of (onclose code) (state_after (setupWebSocket settings outcome ctor) st)
         = [SetTimeout (S (next_handle st)) Call_setupWebSocket WS_RECONNECT_DELAY]
      /\ wsReconnectTimeout
           (state_after (onclose code)
              (state_after (setupWebSocket settings outcome ctor) st))
         = Some (S (next_handle st))).
Proof.
  split; [|split; [|split]].
  - unfold trace_of, state_after. rewrite setupWebSocket_resume_invalid. split; reflexivity.
  - intro Hflag. unfold trace_of, state_after. rewrite setupWebSocket_resume_invalid.
    destruct st' as [w t [h|] r i m]; cbn [intentionalClosure] in Hflag; subst i;
      unfold onclose; cbn -[Nat.eqb]; rewrite !orb_true_r; split; reflexivity.
  - intro Hflag. rewrite onclose_schedule.
    unfold state_after. rewrite setupWebSocket_resume_invalid.
    cbn [fst snd intentionalClosure]. now rewrite Hflag.
  - intros Hrej Hflag.
    destruct (setupWebSocket_run settings outcome ctor st) as (n & Hrun).
    unfold trace_of at 1, state_after at 1 2 4. rewrite Hrun, Hrej. cbn [fst snd].
    unfold trace_of, state_after. rewrite setupWebSocket_start_run. cbn [fst snd].
    destruct st as [[s|] [t|] [h|] r i m]; cbn [intentionalClosure] in Hflag; subst i;
      unfold onclose; cbn -[Nat.eqb]; rewrite !orb_true_r; repeat split.
Qed.

(** A normal closure after an impostor answered the identity request, and
    the same closure after the page has unloaded. *)
Lemma close_event_after_failed_validation_witness :
  trace_of (onclose 1000)
    (state_after (setupWebSocket default_settings impostor_response None) connected_session)
  = [SetTimeout 3 Call_setupWebSocket 5000]
  /\ scheduled_reconnects
       (trace_of (onclose 1000)
          (state_after (setupWebSocket_resume default_settings false None)
             (state_after on_unload_cleanup connected_session)))
     = [].
Proof.
  destruct (close_event_after_failed_validation default_settings impostor_response None
              1000 connected_session (state_after on_unload_cleanup connected_session))
    as (_ & _ & Hraised & Hcall).
  split.
  - apply Hcall; reflexivity.
  - apply Hraised. reflexivity.
Defined.

(** X22. The intentional-closure flag is lowered in the task that raised
    it, before the close event it was raised for can be delivered, and
    [onclose] does not ask which socket closed.  When [setupWebSocket]
    replaces a socket [s] it calls [close] on it and has lowered the flag
    when it reaches its [await].  When it has resumed after a validation
    that succeeded, in a state [st'] where the flag is down, and the new
    socket has opened and started its heartbeat, the close event of [s],
    delivered with a code other than 1000 and 1001 (Chrome reports 1005),
    stops the heartbeat of the new socket and schedules a reconnection.  So
    it is for a whole call the server's identity lets through, nothing else
    running at its [await]. *)
Theorem replaced_socket_close_event_reconnects
  (settings : Settings) (outcome : fetch_outcome) (st st' : session) (s : socket)
  (code : nat) :
  ws st = Some s ->
  accepted outcome = true ->
  intentionalClosure st' = false ->
  code <> 1000 -> code <> 1001 ->
  (In (WsClose s) (trace_of setupWebSocket_start st)
   /\ intentionalClosure (state_after setupWebSocket_start st) = false)
  /\ (ws (state_after (onopen settings)
            (state_after (setupWebSocket_resume settings true None) st'))
      = Some (next_handle st')
      /\ trace_of (onclose code)
           (state_after (onopen settings)
              (state_after (setupWebSocket_resume settings true None) st'))
         = [ClearInterval (S (next_handle st'));
            SetTimeout (S (S (next_handle st'))) Call_setupWebSocket WS_RECONNECT_DELAY])
  /\ (In (WsClose s) (trace_of (setupWebSocket settings outcome None) st)
      /\ intentionalClosure (state_after (setupWebSocket settings outcome None) st) = false
      /\ ws (state_after (onopen settings)
               (state_after (setupWebSocket settings outcome None) st))
         = Some (next_handle st)
      /\ trace_of (onclose code)
           (state_after (onopen settings)
              (state_after (setupWebSocket settings outcome None) st))
         = [ClearInterval (S (next_handle st));
            SetTimeout (S (S (next_handle st))) Call_setupWebSocket WS_RECONNECT_DELAY]).
Proof.
  intros Hws Hacc Hflag H1000 H1001.
  apply Nat.eqb_neq in H1000, H1001.
  split; [|split].
  - unfold trace_of, state_after. rewrite setupWebSocket_start_run, Hws.
    cbn [fst snd intentionalClosure]. split; [|reflexivity].
    apply in_or_app. right. apply in_or_app. right. now left.
  - unfold trace_of, state_after. rewrite setupWebSocket_resume_valid. cbn [fst snd].
    destruct st' as [w t h r i m]. cbn [intentionalClosure] in Hflag. subst i.
    cbn -[Nat.eqb]. rewrite H1000, H1001. split; reflexivity.
  - destruct (setupWebSocket_run settings outcome None st) as (n & Hrun).
    destruct st as [w t h r i m]. cbn [ws] in Hws. subst w.
    unfold trace_of, state_after in *. rewrite Hrun, Hacc.
    destruct t, h; cbn -[Nat.eqb]; rewrite H1000, H1001; repeat split; auto 10.
Qed.

(** The connected session reconnects; its first socket then reports 1005. *)
Lemma replaced_socket_close_event_reconnects_witness :
  In (WsClose 1)
     (trace_of (setupWebSocket default_settings connector_response None) connected_session)
  /\ trace_of (onclose 1005)
       (state_after (onopen default_settings)
          (state_after (setupWebSocket default_settings connector_response None)
             connected_session))
     = [ClearInterval 3; SetTimeout 4 Call_setupWebSocket 5000].
Proof.
  destruct (@replaced_socket_close_event_reconnects default_settings connector_response
              connected_session initial_session 1 1005 eq_refl eq_refl eq_refl)
    as (_ & _ & Hclose & _ & _ & Hevent); try discriminate.
  split; assumption.
Defined.

(** ** The unload listeners *)

(** X23. The first unload listener releases everything the session holds
    and leaves the intentional-closure flag raised: a close event delivered
    after it schedules nothing, whatever its code, and the second unload
    listener finds nothing left to close or clear. *)
Theorem unload_releases_everything (st : session) :
  trace_of on_unload_cleanup st
  = match ws st with Some s => [WsClose s] | None => [] end
    ++ match wsReconnectTimeout st with Some t => [ClearTimeout t] | None => [] end
    ++ match heartbeatInterval st with Some h => [ClearInterval h] | None => [] end
  /\ state_after on_unload_cleanup st
     = Session None None None (reconnectAfterValidation st) true (next_handle st)
  /\ (forall code, trace_of (onclose code) (state_after on_unload_cleanup st) = [])
  /\ trace_of on_unload_close (state_after on_unload_cleanup st) = [].
Proof. destruct st as [[s|] [t|] [h|] r i n]; repeat split. Qed.

(** ** The other commands of the socket *)

Lemma frame_type (type : string) (rest : list (jsstring * value)) :
  get_property (Obj ((lit "type", Str (lit type)) :: rest)) (lit "type")
  = Some (Str (lit type)).
Proof. reflexivity. Qed.

(** X24. The storage commands answer like the cookie command: a frame
    [get-local-storage] or [get-session-storage] with [requestId: r] starts
    the matching read, and if [ws] holds an open socket when the read
    completes, the callback sends one frame on it, carrying [requestId: r],
    of the type [...-error] when the read reported an exception or no
    result and [...-data] otherwise. *)
Theorem storage_commands_one_response
  (Math_log2 : float64 -> float64) (JSON_parse : jsstring -> completion value)
  (settings : Settings) (data : jsstring) (message r : value)
  (result isException : option value) (st : session) (s : socket) :
  JSON_parse data = Normal message ->
  get_property message (lit "requestId") = Some r ->
  ws st = Some s ->
  (get_property message (lit "type") = Some (Str (lit "get-local-storage")) ->
   onmessage JSON_parse data = Some (EvalLocalStorage, Some r))
  /\ (get_property message (lit "type") = Some (Str (lit "get-session-storage")) ->
      onmessage JSON_parse data = Some (EvalSessionStorage, Some r))
  /\ (forall kind failure : string,
        exists frame : value,
          storage_callback Math_log2 kind failure settings OPEN (Some r) result isException st
          = Normal [WsSend s frame]
          /\ get_property frame (lit "requestId") = Some r
          /\ get_property frame (lit "type")
             = Some (Str (lit (if truthy_opt isException || negb (truthy_opt result)
                               then kind ++ "-error"
                               else kind ++ "-data")))).
Proof.
  intros Hparse Hid Hws. split; [|split].
  - intro Htype. unfold onmessage. rewrite Hparse.
    destruct message; try discriminate Htype; rewrite Htype, Hid; reflexivity.
  - intro Htype. unfold onmessage. rewrite Hparse.
    destruct message; try discriminate Htype; rewrite Htype, Hid; reflexivity.
  - intros kind failure. unfold storage_callback, ws_send. rewrite Hws.
    destruct (truthy_opt isException || negb (truthy_opt result)).
    + eexists. split; [reflexivity|].
      match goal with
      | |- get_property (response_frame ?t [(_, ?c)] _) _ = _ /\ _ =>
          destruct (@response_frame_fields t "error" c r) as [Ht Hr]; try reflexivity
      end.
      split; assumption.
    + eexists. split; [reflexivity|].
      match goal with
      | |- get_property (response_frame ?t [(_, ?c)] _) _ = _ /\ _ =>
          destruct (@response_frame_fields t "storage" c r) as [Ht Hr]; try reflexivity
      end.
      split; assumption.
Qed.

(** A successful read of [localStorage]. *)
Lemma storage_commands_one_response_witness :
  exists frame : value,
    storage_callback log2_of_power_of_two "local-storage" "Failed to get localStorage"
      default_settings OPEN (Some (Str (lit "r1")))
      (Some (Obj [(lit "theme", Str (lit "dark"))])) None connected_session
    = Normal [WsSend 1 frame]
    /\ get_property frame (lit "requestId") = Some (Str (lit "r1"))
    /\ get_property frame (lit "type") = Some (Str (lit "local-storage-data")).
Proof.
  destruct (@storage_commands_one_response log2_of_power_of_two parse_get_cookies
              default_settings [] get_cookies_message (Str (lit "r1"))
              (Some (Obj [(lit "theme", Str (lit "dark"))])) None connected_session 1
              eq_refl eq_refl eq_refl) as (_ & _ & H).
  apply (H "local-storage" "Failed to get localStorage")%string.
Defined.

(** X25. The screenshot command answers once too: a frame [take-screenshot]
    with [requestId: r] starts one capture, and if [ws] holds an open socket
    when the capture completes, its callback sends one frame on it, carrying
    [requestId: r]: [screenshot-error] if [chrome.runtime.lastError] is set,
    [screenshot-data] otherwise, with a [path] exactly when the configured
    screenshot path is not empty. *)
Theorem take_screenshot_one_response
  (JSON_parse : jsstring -> completion value) (settings : Settings) (data : jsstring)
  (message r : value) (lastError dataUrl : option value) (st : session) (s : socket) :
  JSON_parse data = Normal message ->
  get_property message (lit "type") = Some (Str (lit "take-screenshot")) ->
  get_property message (lit "requestId") = Some r ->
  ws st = Some s ->
  onmessage JSON_parse data = Some (CaptureVisibleTab, Some r)
  /\ exists frame : value,
       screenshot_callback settings OPEN (Some r) lastError dataUrl st
       = Normal [WsSend s frame]
       /\ get_property frame (lit "requestId") = Some r
       /\ get_property frame (lit "type")
          = Some (Str (if truthy_opt lastError
                       then lit "screenshot-error"
                       else lit "screenshot-data"))
       /\ get_property frame (lit "path")
          = if truthy_opt lastError then None
            else match screenshotPath settings with
                 | [] => None
                 | _ :: _ => Some (Str (screenshotPath settings))
                 end.
Proof.
  intros Hparse Htype Hid Hws. split.
  - unfold onmessage. rewrite Hparse.
    destruct message; try discriminate Htype; rewrite Htype, Hid; reflexivity.
  - unfold screenshot_callback, ws_send. rewrite Hws.
    destruct (truthy_opt lastError).
    + eexists. split; [reflexivity|].
      destruct lastError as [e|]; [destruct (get_property e (lit "message"))|];
        repeat split.
    + eexists. split; [reflexivity|].
      destruct dataUrl, (screenshotPath settings); repeat split.
Qed.

(** A capture that succeeds, no path being configured. *)
Lemma take_screenshot_one_response_witness :
  exists frame : value,
    screenshot_callback default_settings OPEN (Some (Str (lit "r1"))) None
      (Some (Str (lit "data:image/png;base64,AAAA"))) connected_session
    = Normal [WsSend 1 frame]
    /\ get_property frame (lit "requestId") = Some (Str (lit "r1"))
    /\ get_property frame (lit "type") = Some (Str (lit "screenshot-data"))
    /\ get_property frame (lit "path") = None.
Proof.
  apply (@take_screenshot_one_response
           (fun _ => Normal (Obj [(lit "type", Str (lit "take-screenshot"));
                                  (lit "requestId", Str (lit "r1"))]))
           default_settings []
           (Obj [(lit "type", Str (lit "take-screenshot")); (lit "requestId", Str (lit "r1"))])
           (Str (lit "r1")) None (Some (Str (lit "data:image/png;base64,AAAA")))
           connected_session 1 eq_refl eq_refl eq_refl eq_refl).
Defined.

(** X26. In the mode [hide-all], the default, no cookie value and no stored
    value leaves the extension: whatever the read reported and whatever the
    socket's state, a frame the cookie callback sends lists, if it lists
    cookies at all, cookie objects whose [value] is the marker, and a frame
    a storage callback sends holds, if it holds a storage object at all, the
    marker under every key. *)
Theorem hide_all_sends_no_value
  (Math_log2 : float64 -> float64) (settings : Settings) (readyState : ready_state)
  (requestId result isException : option value) (st : session) (s : socket) (frame : value) :
  (cookies_callback Math_log2 (with_mode "hide-all" settings) readyState requestId
     result isException st
   = Normal [WsSend s frame] ->
   forall cookies, get_property frame (lit "cookies") = Some cookies ->
   exists items,
     cookies = Arr items
     /\ Forall (fun cookie => is_object cookie = true -> is_redacted cookie = true) items)
  /\ (forall kind failure : string,
        storage_callback Math_log2 kind failure (with_mode "hide-all" settings) readyState
          requestId result isException st
        = Normal [WsSend s frame] ->
        forall storage, get_property frame (lit "storage") = Some storage ->
        exists entries,
          storage = Obj entries /\ Forall (fun kv => snd kv = Str REDACTED) entries).
Proof.
  split; [|intros kind failure].
  - unfold cookies_callback.
    destruct (truthy_opt isException || negb (truthy_opt result)).
    + unfold ws_send. destruct (ws st) as [s'|]; [|discriminate].
      destruct readyState; try discriminate; intro H; injection H as <- <-.
      intros cookies Hc. destruct requestId; discriminate Hc.
    + change (negb (jsstring_eqb (sensitiveDataMode (with_mode "hide-all" settings))
                      (lit "show-all"))) with true. cbn iota.
      assert (Hresult : match result with
                        | Some (Arr items) => Arr items
                        | _ => Arr []
                        end = Arr (cookies_of result))
        by (now destruct result as [[| | | |items|]|]).
      rewrite Hresult.
      rewrite (filterSensitiveCookies_hide_all Math_log2 (with_mode "hide-all" settings)
                 (cookies_of result) eq_refl).
      cbn [bind]. unfold ws_send. destruct (ws st) as [s'|]; [|discriminate].
      destruct readyState; try discriminate; intro H; injection H as <- <-.
      intros cookies Hc. injection Hc as <-. eexists. split; [reflexivity|].
      apply Forall_forall. intros cookie' Hin. apply in_map_iff in Hin as [cookie [<- _]].
      intro Hobj.
      destruct (redacted_copy_is_redacted cookie) as [H|H]; [exact H|congruence].
  - unfold storage_callback, ws_send.
    destruct (ws st) as [s'|]; [|destruct (_ || _); discriminate].
    destruct (truthy_opt isException || negb (truthy_opt result)).
    + destruct readyState; try discriminate; intro H; injection H as <- <-.
      intros storage Hs. destruct requestId; discriminate Hs.
    + change (negb (jsstring_eqb (sensitiveDataMode (with_mode "hide-all" settings))
                      (lit "show-all"))) with true. cbn iota.
      destruct readyState; try discriminate; intro H; injection H as <- <-.
      intros storage Hs. injection Hs as <-.
      apply filterSensitiveStorage_hide_all.
Qed.

(** The frame sent for one cookie in the default mode. *)
Lemma hide_all_sends_no_value_witness :
  exists items,
    Arr [Obj [(lit "name", Str (lit "theme")); (lit "value", Str REDACTED)]] = Arr items
    /\ Forall (fun cookie => is_object cookie = true -> is_redacted cookie = true) items.
Proof.
  destruct (@hide_all_sends_no_value log2_of_power_of_two default_settings OPEN
              (Some (Str (lit "r1")))
              (Some (Arr [Obj [(lit "name", Str (lit "theme"));
                               (lit "value", Str (lit "dark"))]]))
              None connected_session 1
              (response_frame "cookies-data"
                 [(lit "cookies",
                   Arr [Obj [(lit "name", Str (lit "theme")); (lit "value", Str REDACTED)]])]
                 (Some (Str (lit "r1"))))) as [Hcookies _].
  apply Hcookies; reflexivity.
Defined.

(** ** Runtime messages *)

(** X27. A [SETTINGS_UPDATED] message replaces the settings and never calls
    [setupWebSocket], not even when it changes the server's host or port:
    the comparison is made after the assignment, between the new settings
    and themselves.  The session variables are left alone. *)
Theorem settings_update_never_reconnects (settings message_settings : Settings)
  (st : session) :
  fst (on_settings_updated settings message_settings) = message_settings
  /\ snd (on_settings_updated settings message_settings) st = (false, st, []).
Proof.
  split; [reflexivity|].
  unfold on_settings_updated. cbn [snd]. unfold and_then, read.
  destruct (ws st); [|reflexivity].
  now rewrite jsstring_eqb_refl, Nat.eqb_refl.
Qed.

(** ** The capture relay *)

Section RelayProperties.

Variable JSON_parse : jsstring -> completion value.
Variable settings : Settings.

Lemma process_parsed_returns (parsed : value) (maxLength : nat) :
  exists result, process_parsed stringify_total settings parsed maxLength = Normal result.
Proof.
  destruct parsed; try (eexists; reflexivity).
  cbn [process_parsed]. unfold processArrayWithSizeLimit.
  destruct (processArray_loop_spec (maxLogSize settings)
              (fun item => truncateStringsInData shape_of item maxLength 0) items 0 [])
    as (kept & _ & Hrun & _).
  rewrite Hrun. eexists. reflexivity.
Qed.

Lemma processJsonString_of_returns (field : value) (maxLength : nat) :
  exists result,
    processJsonString_of JSON_parse stringify_total settings field maxLength = Normal result.
Proof.
  unfold processJsonString_of.
  destruct field; try (eexists; reflexivity);
    (destruct (bind _ _) as [parsed|e]; [|eexists; reflexivity]);
    destruct (process_parsed_returns parsed maxLength) as [result Hres];
    rewrite Hres; eexists; reflexivity.
Qed.

(** A field is rewritten in place; the others read as before. *)
Lemma process_field_returns (processedData : list (jsstring * value)) (key : string) :
  exists processedData',
    process_field JSON_parse stringify_total settings processedData key
    = Normal processedData'
    /\ forall k, jsstring_eqb (lit key) k = false ->
                 lookup k processedData' = lookup k processedData.
Proof.
  unfold process_field.
  destruct (lookup (lit key) processedData) as [field|]; [|now eexists].
  destruct (truthy field); [|now eexists].
  destruct (processJsonString_of_returns field (stringSizeLimit settings)) as [r Hr].
  rewrite Hr. cbn [bind]. eexists. split; [reflexivity|].
  intros k Hk. now rewrite lookup_define_property, Hk.
Qed.

Lemma process_log_fields_returns (logData : list (jsstring * value)) :
  exists processedData,
    process_log_fields JSON_parse stringify_total settings logData = Normal processedData
    /\ (forall k, is_text_field k = false -> lookup k processedData = lookup k logData)
    /\ (strictly_equals (lookup (lit "type") logData) (lit "network-request") = false ->
        strictly_equals (lookup (lit "type") logData) (lit "console-log") = false ->
        strictly_equals (lookup (lit "type") logData) (lit "console-error") = false ->
        processedData = logData).
Proof.
  unfold process_log_fields, is_text_field.
  destruct (strictly_equals (lookup (lit "type") logData) (lit "network-request")).
  - destruct (process_field_returns logData "requestBody") as (d1 & H1 & F1).
    destruct (process_field_returns d1 "responseBody") as (d2 & H2 & F2).
    rewrite H1. cbn [bind]. rewrite H2. exists d2.
    split; [reflexivity|]. split; [|discriminate].
    intros k Hk. apply orb_false_iff in Hk as [Hk _]. apply orb_false_iff in Hk as [Ha Hb].
    rewrite F2, F1; [reflexivity| |]; now rewrite jsstring_eqb_sym.
  - destruct (strictly_equals (lookup (lit "type") logData) (lit "console-log")
              || strictly_equals (lookup (lit "type") logData) (lit "console-error")) eqn:E.
    + destruct (process_field_returns logData "message") as (d1 & H1 & F1).
      rewrite H1. exists d1. split; [reflexivity|]. split.
      * intros k Hk. apply orb_false_iff in Hk as [_ Hk].
        apply F1. now rewrite jsstring_eqb_sym.
      * intros _ Hlog Herr. rewrite Hlog, Herr in E. discriminate.
    + exists logData. repeat split.
Qed.

End RelayProperties.

(** X28. [sendToBrowserConnector] posts nothing unless the server proves to
    be the connector: when the identity request is not accepted, the entry
    is dropped, whatever it holds; all that happens is the failure
    notification of the validation. *)
Theorem sendToBrowserConnector_needs_the_connector
  (JSON_parse : jsstring -> completion value)
  (JSON_stringify : value -> completion jsstring)
  (settings : Settings) (outcome : fetch_outcome) (now : jsstring)
  (logData : list (jsstring * value)) (st : session) :
  accepted outcome = false ->
  exists n : notification,
    sendToBrowserConnector JSON_parse JSON_stringify settings outcome now logData st
    = (Normal None, st, [SendMessage n])
    /\ is_success n = false.
Proof.
  intro Hrej.
  destruct (validateServerIdentity_run settings outcome st) as (n & Hrun & Hn & _).
  exists n. unfold sendToBrowserConnector, and_then.
  rewrite Hrun, Hrej. cbn [negb]. split; [reflexivity|]. now rewrite Hn.
Qed.

(** A network entry while an impostor answers. *)
Lemma sendToBrowserConnector_needs_the_connector_witness :
  exists n : notification,
    sendToBrowserConnector parse_one_array stringify_total default_settings
      impostor_response (lit "1700000000000") example_request initial_session
    = (Normal None, initial_session, [SendMessage n])
    /\ is_success n = false.
Proof.
  apply (@sendToBrowserConnector_needs_the_connector parse_one_array stringify_total
           default_settings impostor_response (lit "1700000000000") example_request
           initial_session).
  reflexivity.
Defined.

(** X29. When the identity is accepted, [sendToBrowserConnector] posts the
    entry exactly once, to [/extension-log] of the configured server, as
    the JSON text of [{ data, settings }] (on an engine whose
    [JSON.stringify] does not fail).  In [data] the [timestamp] is the time
    of sending, and every property other than [requestBody], [responseBody],
    [message] and [timestamp] reads as in the entry (headers and the
    selected element included: they are neither bounded nor filtered); an
    entry that is neither a network request nor a console message is posted
    as it is, with the time of sending. *)
Theorem sendToBrowserConnector_posts_the_entry
  (JSON_parse : jsstring -> completion value) (settings : Settings)
  (outcome : fetch_outcome) (now : jsstring) (logData : list (jsstring * value))
  (st : session) :
  accepted outcome = true ->
  exists (data : list (jsstring * value)) (n : notification),
    sendToBrowserConnector JSON_parse stringify_total settings outcome now logData st
    = (Normal (Some {| post_url := extension_log_url settings;
                       post_body :=
                         SerializeJSON (Obj [(lit "data", Obj data);
                                             (lit "settings", payload_settings settings)]) |}),
       st, [SendMessage n])
    /\ lookup (lit "timestamp") data = Some (Number now)
    /\ (forall key, is_text_field key = false -> key <> lit "timestamp" ->
          lookup key data = lookup key logData)
    /\ (strictly_equals (lookup (lit "type") logData) (lit "network-request") = false ->
        strictly_equals (lookup (lit "type") logData) (lit "console-log") = false ->
        strictly_equals (lookup (lit "type") logData) (lit "console-error") = false ->
        data = define_property logData (lit "timestamp") (Number now)).
Proof.
  intro Hacc.
  destruct (validateServerIdentity_run settings outcome st) as (n & Hrun & _).
  destruct (process_log_fields_returns JSON_parse settings logData)
    as (processedData & Hfields & Hframe & Hother).
  exists (define_property processedData (lit "timestamp") (Number now)), n.
  split; [|split; [|split]].
  - unfold sendToBrowserConnector, and_then.
    rewrite Hrun, Hacc. cbn [negb]. rewrite Hfields.
    cbn [bind calculateObjectSize stringify_total ret].
    destruct (1000000 <? _); reflexivity.
  - now rewrite lookup_define_property, jsstring_eqb_refl.
  - intros key Htext Hkey. rewrite lookup_define_property.
    rewrite jsstring_eqb_neq by congruence. now apply Hframe.
  - intros H1 H2 H3. now rewrite (Hother H1 H2 H3).
Qed.

(** A network entry while the connector answers: the request headers are posted as captured. *)
Lemma sendToBrowserConnector_posts_the_entry_witness :
  exists (data : list (jsstring * value)) (n : notification),
    sendToBrowserConnector parse_one_array stringify_total default_settings
      connector_response (lit "1700000000000") example_request initial_session
    = (Normal (Some {| post_url := lit "http://localhost:3025/extension-log";
                       post_body :=
                         SerializeJSON
                           (Obj [(lit "data", Obj data);
                                 (lit "settings", payload_settings default_settings)]) |}),
       initial_session, [SendMessage n])
    /\ lookup (lit "timestamp") data = Some (Number (lit "1700000000000"))
    /\ lookup (lit "requestHeaders") data = lookup (lit "requestHeaders") example_request.
Proof.
  destruct (@sendToBrowserConnector_posts_the_entry parse_one_array default_settings
              connector_response (lit "1700000000000") example_request initial_session
              eq_refl) as (data & n & Hpost & Htime & Hframe & _).
  exists data, n. split; [exact Hpost|]. split; [exact Htime|].
  apply Hframe; [reflexivity|]. vm_compute. discriminate.
Defined.

(** ** The console listener *)

Lemma format_string_args (JSON_stringify : value -> completion jsstring) (ss : list jsstring) :
  map_completion (format_arg JSON_stringify) (map string_arg ss)
  = Normal (map (fun s => Some (Str s)) ss).
Proof.
  induction ss as [|s ss IH]; [reflexivity|].
  cbn [map map_completion]. rewrite IH. reflexivity.
Qed.

Lemma join_string_elements (ss : list jsstring) :
  map_completion join_element (map (fun s => Some (Str s)) ss) = Normal ss.
Proof.
  induction ss as [|s ss IH]; [reflexivity|].
  cbn [map map_completion]. rewrite IH. reflexivity.
Qed.

(** X30. A console call whose arguments are all strings is reported with
    the strings joined by single spaces, unquoted, whatever the engine's
    [JSON.stringify] does: it is not called. *)
Theorem console_strings_are_joined
  (JSON_stringify : value -> completion jsstring) (ss : list jsstring) :
  format_console_args JSON_stringify (map string_arg ss) = Str (join (lit " ") ss).
Proof.
  destruct ss as [|s ss]; [reflexivity|].
  pose proof (format_string_args JSON_stringify (s :: ss)) as Hparts.
  pose proof (join_string_elements (s :: ss)) as Hrendered.
  cbn [map] in Hparts, Hrendered |- *. unfold format_console_args.
  rewrite Hparts. cbn [bind]. rewrite Hrendered. reflexivity.
Qed.
